(** * File synchronisation engine of fba (backend/app/coulddrive, backend/app/task)

    A shallow embedding of
      - [filesync_service.py]: [FileSyncService] (the diff-and-apply engine,
        the batched transfer and delete, the error policy, the task status),
      - [rule_template_service.py]: [ExclusionRule.matches],
        [ItemFilter.should_exclude], [RenameRule.generate_new_path] and
        [parse_rule_templates],
      - [tasks/filesync/tasks.py]: [_should_execute_now], the dispatcher's
        tick [_check_and_execute_filesync_cron_tasks] and
        [_merge_execution_details],
    followed by the properties of the specification that are stated on them
    and by further properties of the same code.

    Python data is kept as the code has it: strings are byte strings (UTF-8),
    dictionaries are insertion-ordered association lists, the [stats]
    dictionary and the provider are threaded as explicit state, and the
    exceptions the code catches are values of a result type. *)

From Stdlib Require Import String Ascii List ZArith Lia Bool Arith DecimalString.
From Stdlib Require Import Permutation Sorted.
Import ListNotations.
Local Open Scope string_scope.
Local Open Scope list_scope.
Set Warnings "-register-all".

Infix "^^" := String.append (at level 60, right associativity).

(** ** Python strings *)

(** [c.lower()] on one byte.  Only the ASCII capitals change; the bytes of a
    multi-byte UTF-8 character are left alone.  The code only searches lowered
    text for ASCII words ("timeout", the three method names).  Of the
    non-ASCII characters whose lower case contains an ASCII letter, U+212A
    lowers to "k", which is in none of those words, and U+0130 lowers to "i"
    followed by a combining mark, which breaks the word; so no such search
    is affected. *)
Definition lower_ascii (c : ascii) : ascii :=
  let n := nat_of_ascii c in
  if ((65 <=? n)%nat && (n <=? 90)%nat)%bool then ascii_of_nat (n + 32) else c.

Fixpoint str_lower (s : string) : string :=
  match s with
  | EmptyString => EmptyString
  | String c r => String (lower_ascii c) (str_lower r)
  end.

(** [hay.startswith(p)] *)
Fixpoint startswith (p hay : string) : bool :=
  match p, hay with
  | EmptyString, _ => true
  | String a p', String b h' => Ascii.eqb a b && startswith p' h'
  | String _ _, EmptyString => false
  end.

(** [needle in hay] *)
Fixpoint contains (needle hay : string) : bool :=
  startswith needle hay ||
  match hay with
  | EmptyString => false
  | String _ h' => contains needle h'
  end.

Definition slash : ascii := "/"%char.

(** [s.endswith('/')] *)
Fixpoint endswith_slash (s : string) : bool :=
  match s with
  | EmptyString => false
  | String c EmptyString => Ascii.eqb c slash
  | String _ r => endswith_slash r
  end.

(** [s.rstrip('/')] *)
Fixpoint rstrip_slash (s : string) : string :=
  match s with
  | EmptyString => EmptyString
  | String c r =>
      match rstrip_slash r with
      | EmptyString => if Ascii.eqb c slash then EmptyString else String c EmptyString
      | r' => String c r'
      end
  end.

(** [s.split('/')[-1]]: the text after the last slash. *)
Fixpoint last_component_aux (s acc : string) : string :=
  match s with
  | EmptyString => acc
  | String c r =>
      if Ascii.eqb c slash then last_component_aux r EmptyString
      else last_component_aux r (acc ^^ String c EmptyString)
  end.

Definition last_component (s : string) : string := last_component_aux s EmptyString.

(** [str(n)] for a count. *)
Definition str_of_nat (n : nat) : string := NilZero.string_of_uint (Nat.to_uint n).

(** [str(z)] for an integer. *)
Definition str_of_Z (z : Z) : string := NilZero.string_of_int (Z.to_int z).

(** ** Python values and dictionaries *)

(** The values that travel through the engine: [file_size] is [int | None],
    ids and paths are [str], [file_ext] and [ext] are dictionaries of such
    values, and [ext["files_ext_info"]] is a list of dictionaries.  [bool] and
    [float] values are not modelled. *)
Inductive pyval : Type :=
| VNone
| VInt (z : Z)
| VStr (s : string)
| VList (l : list pyval)
| VDict (d : list (string * pyval)).

(** A [dict] with [str] keys, in insertion order. *)
Definition dict (V : Type) : Type := list (string * V).

(** [d.get(k)] *)
Fixpoint dict_get {V} (d : dict V) (k : string) : option V :=
  match d with
  | [] => None
  | (k', v) :: r => if String.eqb k k' then Some v else dict_get r k
  end.

(** [d.get(k, dflt)] *)
Definition dict_get_default {V} (d : dict V) (k : string) (dflt : V) : V :=
  match dict_get d k with Some v => v | None => dflt end.

(** [k in d] *)
Definition dict_mem {V} (d : dict V) (k : string) : bool :=
  match dict_get d k with Some _ => true | None => false end.

(** [d[k] = v]: an existing key keeps its place, a new key goes last. *)
Fixpoint dict_set {V} (d : dict V) (k : string) (v : V) : dict V :=
  match d with
  | [] => [(k, v)]
  | (k', v') :: r => if String.eqb k k' then (k', v) :: r else (k', v') :: dict_set r k v
  end.

(** [d.update(e)] *)
Definition dict_update {V} (d e : dict V) : dict V :=
  fold_left (fun acc kv => dict_set acc (fst kv) (snd kv)) e d.

(** [k in [k1, ..., kn]] for a list of strings. *)
Definition str_in (k : string) (l : list string) : bool := existsb (String.eqb k) l.

(** Truth value of a Python value ([if v:]). *)
Definition truthy (v : pyval) : bool :=
  match v with
  | VNone => false
  | VInt z => negb (Z.eqb z 0)
  | VStr s => negb (String.eqb s "")
  | VList l => match l with [] => false | _ => true end
  | VDict d => match d with [] => false | _ => true end
  end.

(** [a == b].  Lists compare element by element, dictionaries as maps. *)
Fixpoint py_eqb (a b : pyval) : bool :=
  match a, b with
  | VNone, VNone => true
  | VInt x, VInt y => Z.eqb x y
  | VStr x, VStr y => String.eqb x y
  | VList x, VList y =>
      (fix go (l1 l2 : list pyval) : bool :=
         match l1, l2 with
         | [], [] => true
         | u :: l1', w :: l2' => py_eqb u w && go l1' l2'
         | _, _ => false
         end) x y
  | VDict x, VDict y =>
      Nat.eqb (length x) (length y) &&
      (fix go (d1 : list (string * pyval)) : bool :=
         match d1 with
         | [] => true
         | (k, u) :: d1' =>
             match dict_get y k with
             | Some w => py_eqb u w
             | None => false
             end && go d1'
         end) x
  | _, _ => false
  end.

(** [repr(v)] and [str(v)], as an f-string renders a value.  Quotes inside
    strings are not escaped. *)
Fixpoint py_repr (v : pyval) : string :=
  match v with
  | VNone => "None"
  | VInt z => str_of_Z z
  | VStr s => "'" ^^ s ^^ "'"
  | VList l =>
      "[" ^^ (fix go (l : list pyval) : string :=
                match l with
                | [] => ""
                | [u] => py_repr u
                | u :: r => py_repr u ^^ ", " ^^ go r
                end) l ^^ "]"
  | VDict d =>
      "{" ^^ (fix go (d : list (string * pyval)) : string :=
                match d with
                | [] => ""
                | [(k, u)] => "'" ^^ k ^^ "': " ^^ py_repr u
                | (k, u) :: r => "'" ^^ k ^^ "': " ^^ py_repr u ^^ ", " ^^ go r
                end) d ^^ "}"
  end.

Definition py_str (v : pyval) : string :=
  match v with
  | VStr s => s
  | _ => py_repr v
  end.

(** ** Schema ([schema/file.py]) *)

(** Modelled from the spec: [schema/enum.py] is not under src/; the spec
    names the providers "baidu" and "quark", the speeds slow, normal and fast,
    and the methods [incremental], [full] and [overwrite]. *)
Inductive DriveType : Type := BAIDU | QUARK.

Inductive RecursionSpeed : Type := NORMAL | SLOW | FAST.

Definition SyncMethod_INCREMENTAL : string := "incremental".
Definition SyncMethod_FULL : string := "full".
Definition SyncMethod_OVERWRITE : string := "overwrite".

Record BaseFileInfo : Type := mkBaseFileInfo {
  bfi_file_id : string;
  bfi_file_name : string;
  bfi_file_path : string;
  bfi_is_folder : bool;
  bfi_file_size : option Z;
  bfi_parent_id : string;
  bfi_created_at : string;
  bfi_updated_at : string;
  bfi_file_ext : dict pyval
}.

Record ShareSourceDefinition : Type := mkShareSourceDefinition {
  ssd_file_path : string;
  ssd_source_type : string;
  ssd_source_id : string;
  ssd_ext_params : dict pyval
}.

Record DiskTargetDefinition : Type := mkDiskTargetDefinition {
  dtd_file_path : string;
  dtd_file_id : string
}.

(** The four sort flags of [ListFilesParam] are always [False] in the engine
    and are left out. *)
Record ListFilesParam : Type := mkListFilesParam {
  lfp_drive_type : DriveType;
  lfp_file_path : string;
  lfp_file_id : string
}.

Record ListShareFilesParam : Type := mkListShareFilesParam {
  lsp_drive_type : DriveType;
  lsp_source_type : string;
  lsp_source_id : string;
  lsp_file_path : string
}.

Record MkdirParam : Type := mkMkdirParam {
  mkp_drive_type : DriveType;
  mkp_file_path : string;
  mkp_parent_id : option string;
  mkp_file_name : option string;
  mkp_return_if_exist : bool
}.

Record RemoveParam : Type := mkRemoveParam {
  rmp_drive_type : DriveType;
  rmp_file_paths : option (list string);
  rmp_file_ids : option (list string);
  rmp_parent_id : option string;
  rmp_file_name : option string
}.

Record TransferParam : Type := mkTransferParam {
  tp_drive_type : DriveType;
  tp_source_type : string;
  tp_source_id : string;
  tp_source_path : string;
  tp_target_path : string;
  tp_target_id : option string;
  tp_file_ids : option (list pyval);
  tp_ext : dict pyval
}.

(** ** Results and exceptions *)

(** The outcome of a call that may raise: the value, or [str(e)] of the
    exception. *)
Inductive res (A : Type) : Type :=
| Ok (a : A)
| Raise (e : string).
Arguments Ok {A} a.
Arguments Raise {A} e.

(** The text of a pydantic [ValidationError].  Modelled from the spec: the
    library's exact rendering is not reproduced, one failing field is
    reported. *)
Definition validation_error (model field detail : string) : string :=
  "1 validation error for " ^^ model ^^ " " ^^ field ^^ " " ^^ detail.

(** [check_disk_file_path] and [validate_target_path] *)
Definition check_path (empty_msg prefix_msg v : string) : res string :=
  if String.eqb v "" then Raise empty_msg
  else if negb (startswith "/" v) then Raise prefix_msg
  else Ok v.

(** [DiskTargetDefinition(file_path=..., file_id=...)] *)
Definition new_DiskTargetDefinition (file_path file_id : string) : res DiskTargetDefinition :=
  match check_path "用户云盘路径不能为空" "用户云盘路径必须以 '/' 开头" file_path with
  | Raise e => Raise (validation_error "DiskTargetDefinition" "file_path" e)
  | Ok p => Ok (mkDiskTargetDefinition p file_id)
  end.

(** [check_share_source_type] *)
Definition new_ShareSourceDefinition (file_path source_type source_id : string)
    (ext_params : dict pyval) : res ShareSourceDefinition :=
  if str_in source_type ["friend"; "group"; "link"]
  then Ok (mkShareSourceDefinition file_path source_type source_id ext_params)
  else Raise (validation_error "ShareSourceDefinition" "source_type"
                "分享来源类型必须是 'friend' 或 'group' 或 'link'").

(** A field declared [str] given a Python value. *)
Definition as_str (model field : string) (v : pyval) : res string :=
  match v with
  | VStr s => Ok s
  | _ => Raise (validation_error model field "Input should be a valid string")
  end.

(** [list[int | str]] *)
Definition is_int_or_str (v : pyval) : bool :=
  match v with VInt _ | VStr _ => true | _ => false end.

(** [TransferParam(...)], with its two validators and the types of the fields
    the engine fills from dictionaries. *)
Definition new_TransferParam (drive_type : DriveType) (source_type source_id : string)
    (source_path target_path : pyval) (target_id : string) (file_ids : list pyval)
    (ext : dict pyval) : res TransferParam :=
  if negb (str_in source_type ["link"; "friend"; "group"])
  then Raise (validation_error "TransferParam" "source_type"
                "source_type 必须是 'link', 'friend' 或 'group' 之一")
  else
    match as_str "TransferParam" "source_path" source_path with
    | Raise e => Raise e
    | Ok sp =>
        match as_str "TransferParam" "target_path" target_path with
        | Raise e => Raise e
        | Ok tp0 =>
            match check_path "目标路径不能为空" "目标路径必须以 '/' 开头" tp0 with
            | Raise e => Raise (validation_error "TransferParam" "target_path" e)
            | Ok tp =>
                if forallb is_int_or_str file_ids
                then Ok (mkTransferParam drive_type source_type source_id sp tp
                           (Some target_id) (Some file_ids) ext)
                else Raise (validation_error "TransferParam" "file_ids"
                              "Input should be a valid integer or string")
            end
        end
    end.

(** One entry of [files_to_delete]; the engine builds it with exactly these
    four keys. *)
Record DeleteInfo : Type := mkDeleteInfo {
  di_file_name : string;
  di_file_size : pyval;
  di_target_path : string;
  di_file_id : pyval
}.

Fixpoint all_str (l : list pyval) : res (list string) :=
  match l with
  | [] => Ok []
  | VStr s :: r =>
      match all_str r with
      | Ok r' => Ok (s :: r')
      | Raise e => Raise e
      end
  | _ :: _ => Raise (validation_error "RemoveParam" "file_ids" "Input should be a valid string")
  end.

(** [x if x else None] for a list. *)
Definition none_if_empty {A} (l : list A) : option (list A) :=
  match l with [] => None | _ => Some l end.

(** [RemoveParam(...)] as [delete_files] builds it. *)
Definition new_RemoveParam (drive_type : DriveType) (file_paths : list string)
    (file_ids : list pyval) (parent_id : string) : res RemoveParam :=
  match all_str file_ids with
  | Raise e => Raise e
  | Ok ids =>
      Ok (mkRemoveParam drive_type (none_if_empty file_paths) (none_if_empty ids)
            (Some parent_id) None)
  end.

(** ** The provider and the trace of a job *)

(** The arguments of one [record_task_item] call.  The values read from the
    file dictionaries are kept as they are. *)
Record TaskItemCall : Type := mkTaskItemCall {
  ti_task_id : Z;
  ti_operation_type : string;
  ti_src_path : pyval;
  ti_dst_path : pyval;
  ti_file_name : pyval;
  ti_file_size : pyval;
  ti_status : string;
  ti_err_msg : option string
}.

(** What a job does that can be observed from outside, in the order it does
    it: the calls on the drive manager, the pauses, the audit rows and the
    depth warning. *)
Inductive event : Type :=
| EGetShareList (p : ListShareFilesParam)
| EGetDiskList (p : ListFilesParam)
| ECreateMkdir (p : MkdirParam)
| ETransferFiles (p : TransferParam)
| ERemoveFiles (p : RemoveParam)
| ESleep (seconds : nat)
| ERecordTaskItem (c : TaskItemCall)
| EDepthWarning (max_depth : nat).

(** Kinds of events. *)
Definition is_listing (e : event) : bool :=
  match e with EGetShareList _ | EGetDiskList _ => true | _ => false end.

Definition is_mkdir (e : event) : bool :=
  match e with ECreateMkdir _ => true | _ => false end.

Definition is_transfer (e : event) : bool :=
  match e with ETransferFiles _ => true | _ => false end.

Definition is_remove (e : event) : bool :=
  match e with ERemoveFiles _ => true | _ => false end.

Definition is_mutation (e : event) : bool := is_mkdir e || is_transfer e || is_remove e.

(** The events after the loop of a level, in two runs: first the batched
    transfer with its audit rows and pauses, at most one call and nothing
    else of the provider; then the batched delete, at most one call, and
    none unless the method is [full]. *)
Definition transfer_phase (t : list event) : Prop :=
  forallb (fun e => negb (is_listing e || is_mkdir e || is_remove e)) t = true /\
  length (filter is_transfer t) <= 1.

Definition delete_phase (method : string) (t : list event) : Prop :=
  forallb (fun e => negb (is_listing e || is_mkdir e || is_transfer e)) t = true /\
  length (filter is_remove t) <= 1 /\
  (String.eqb method "full" = false -> t = []).

(** The calls that change the provider, summarised. *)
Inductive provider_op : Type :=
| OpMkdir (parent name : string)
| OpTransfer (target_path : string) (file_ids : list pyval)
| OpRemove (file_paths : list string).

Fixpoint provider_ops (t : list event) : list provider_op :=
  match t with
  | [] => []
  | ECreateMkdir p :: r =>
      OpMkdir (mkp_file_path p) (match mkp_file_name p with Some n => n | None => "" end)
        :: provider_ops r
  | ETransferFiles p :: r =>
      OpTransfer (tp_target_path p) (match tp_file_ids p with Some l => l | None => [] end)
        :: provider_ops r
  | ERemoveFiles p :: r =>
      OpRemove (match rmp_file_paths p with Some l => l | None => [] end) :: provider_ops r
  | _ :: r => provider_ops r
  end.

(** The number of consecutive errors of a class at the end of the error
    list, the count the specification's "consecutive" cap speaks of. *)
Fixpoint leading_run (p : string -> bool) (l : list string) : nat :=
  match l with
  | [] => 0
  | x :: r => if p x then S (leading_run p r) else 0
  end.

Definition spec_consecutive (p : string -> bool) (l : list string) : nat :=
  leading_run p (rev l).

(** Modelled from the spec: the drive manager ([service/yp_service.py]) is not
    under src/.  It is the [DriveClient] capability set of the spec: each call
    takes the token and the parameter object, may change the provider's state
    [W], and returns its value or raises. *)
Record DriveManager (W : Type) : Type := mkDriveManager {
  get_share_list : string -> ListShareFilesParam -> W -> res (list BaseFileInfo) * W;
  get_disk_list : string -> ListFilesParam -> W -> res (list BaseFileInfo) * W;
  create_mkdir : string -> MkdirParam -> W -> res (option BaseFileInfo) * W;
  transfer_files_api : string -> TransferParam -> W -> res bool * W;
  remove_files : string -> RemoveParam -> W -> res bool * W
}.
Arguments get_share_list {W} _ _ _ _.
Arguments get_disk_list {W} _ _ _ _.
Arguments create_mkdir {W} _ _ _ _.
Arguments transfer_files_api {W} _ _ _ _.
Arguments remove_files {W} _ _ _ _.

(** The [stats] dictionary of [perform_sync] (its time stamps left out). *)
Record Stats : Type := mkStats {
  files_processed : nat;
  folder_created : nat;
  files_transferred : nat;
  files_deleted : nat;
  files_skipped : nat;
  errors : list string
}.

Definition empty_stats : Stats := mkStats 0 0 0 0 0 [].

(** The arguments that every call of a job passes on unchanged. *)
Record Job : Type := mkJob {
  x_token : string;
  drive_type : DriveType;
  source_definition : ShareSourceDefinition;
  sync_method : string;
  recursion_speed : RecursionSpeed;
  item_filter : option (BaseFileInfo -> bool);
  max_depth : nat;
  task_id : option Z;
  db : bool
}.

(** ** Rows and results of a job ([filesync_service.py]) *)

(** The fields of a [SyncConfig] row that the job reads, [src_meta] and
    [dst_meta] as [json.loads] returns them ([{}] when the column is empty). *)
Record SyncConfig : Type := mkSyncConfig {
  cfg_method : option string;
  cfg_speed : Z;
  cfg_src_path : string;
  cfg_src_meta : dict pyval;
  cfg_dst_path : string;
  cfg_dst_meta : dict pyval
}.

(** The [UpdateSyncTaskParam] written at the end of a job ([dura_time] and
    [start_time] left out). *)
Record UpdateSyncTaskParam : Type := mkUpdateSyncTaskParam {
  utp_status : string;
  utp_err_msg : option string;
  utp_task_num : Stats
}.

(** The dictionary [execute_sync_by_config_id] returns, and the update of the
    task row when one was written. *)
Record ExecResult : Type := mkExecResult {
  er_success : bool;
  er_error : option string;
  er_stats : option Stats;
  er_task_update : option UpdateSyncTaskParam
}.

(** What [perform_sync] returns: [success], [stats] and [error]. *)
Record SyncResult : Type := mkSyncResult {
  sr_success : bool;
  sr_stats : Stats;
  sr_error : option string
}.

(** ** Rename rules ([rule_template_service.py]) *)

Inductive MatchTarget : Type := NAME | PATH | EXTENSION.

Record RenameRuleDefinition : Type := mkRenameRuleDefinition {
  rrd_match_regex : string;
  rrd_replace_string : string;
  rrd_target_scope : MatchTarget;
  rrd_case_sensitive : bool
}.

(** A compiled [RenameRule]: its fields; the compiled pattern is the pair of
    [match_regex] and [case_sensitive]. *)
Record RenameRule : Type := mkRenameRule {
  rr_match_regex : string;
  rr_replace_string : string;
  rr_target_scope : MatchTarget;
  rr_case_sensitive : bool
}.

(** [parse_rename_rules]: one rule per definition, [None] for no rules. *)
Definition parse_rename_rules (rules_def : option (list RenameRuleDefinition))
    : option (list RenameRule) :=
  match rules_def with
  | None => None
  | Some [] => None
  | Some defs =>
      Some (map (fun d => mkRenameRule (rrd_match_regex d) (rrd_replace_string d)
                            (rrd_target_scope d) (rrd_case_sensitive d)) defs)
  end.

Section Rename.

(** The regular-expression library: [re_sub pattern case_sensitive repl s] is
    [re.compile(pattern, flags).sub(repl, s)]. *)
Variable re_sub : string -> bool -> string -> string -> string.

(** [RenameRule.generate_new_path] *)
Definition generate_new_path (rule : RenameRule) (item : BaseFileInfo) : option string :=
  match
    match rr_target_scope rule with
    | NAME => Some (bfi_file_name item)
    | PATH => Some (bfi_file_path item)
    | EXTENSION => None
    end
  with
  | None => None
  | Some original_value =>
      if String.eqb original_value "" then None
      else
        let new_value :=
          re_sub (rr_match_regex rule) (rr_case_sensitive rule) (rr_replace_string rule)
            original_value in
        if String.eqb new_value original_value then None else Some new_value
  end.

(** The planned transform as the specification words it: the name an item is
    compared under is the result of the first rule that changes it, and its
    own name when no rule does. *)
Fixpoint spec_renamed_name (rules : list RenameRule) (item : BaseFileInfo) : string :=
  match rules with
  | [] => bfi_file_name item
  | rule :: rest =>
      match generate_new_path rule item with
      | Some new_value => new_value
      | None => spec_renamed_name rest item
      end
  end.

End Rename.

(** A regular-expression engine for patterns without metacharacters, matched
    case-sensitively: every occurrence of the pattern, left to right and
    without overlap, is replaced. *)
Fixpoint drop_string (n : nat) (s : string) : string :=
  match n, s with
  | O, _ => s
  | S n', String _ r => drop_string n' r
  | S _, EmptyString => EmptyString
  end.

Fixpoint literal_sub_fuel (fuel : nat) (pattern repl s : string) : string :=
  match fuel with
  | O => s
  | S fuel' =>
      match s with
      | EmptyString => EmptyString
      | String c r =>
          if startswith pattern s
          then repl ^^ literal_sub_fuel fuel' pattern repl
                         (drop_string (String.length pattern) s)
          else String c (literal_sub_fuel fuel' pattern repl r)
      end
  end.

Definition literal_sub (pattern : string) (case_sensitive : bool) (repl s : string) : string :=
  match pattern with
  | EmptyString => s
  | _ => literal_sub_fuel (String.length s) pattern repl s
  end.

(** ** Exclusion rules ([rule_template_service.py]) *)

Inductive ItemType : Type := FILE | FOLDER | ANY.

Inductive MatchMode : Type := CONTAINS | STARTS_WITH | ENDS_WITH | REGEX | EXACT.

(** An [ExclusionRule]: its fields; the compiled pattern of a [REGEX] rule
    is the pair of [pattern] and [case_sensitive]. *)
Record ExclusionRule : Type := mkExclusionRule {
  xr_pattern : string;
  xr_target : MatchTarget;
  xr_item_type : ItemType;
  xr_mode : MatchMode;
  xr_case_sensitive : bool
}.

(** [v.endswith(p)] *)
Fixpoint endswith (p v : string) : bool :=
  String.eqb p v ||
  match v with
  | EmptyString => false
  | String _ r => endswith p r
  end.

(** [s.split('.')[-1]]: the text after the last dot. *)
Fixpoint after_last_dot_aux (s acc : string) : string :=
  match s with
  | EmptyString => acc
  | String c r =>
      if Ascii.eqb c "."%char then after_last_dot_aux r EmptyString
      else after_last_dot_aux r (acc ^^ String c EmptyString)
  end.

Definition after_last_dot (s : string) : string := after_last_dot_aux s EmptyString.

(** [ExclusionRule._get_value_to_match] *)
Definition _get_value_to_match (rule : ExclusionRule) (item : BaseFileInfo) : option string :=
  match xr_target rule with
  | NAME => Some (bfi_file_name item)
  | PATH => Some (bfi_file_path item)
  | EXTENSION =>
      if contains "." (bfi_file_name item) then Some (after_last_dot (bfi_file_name item))
      else None
  end.

Section Rules.

(** The interpreter's [str.lower] and the regular-expression library:
    [re_search pattern case_sensitive s] tells whether
    [re.compile(pattern, flags).search(s)] finds a match. *)
Variable lower : string -> string.
Variable re_search : string -> bool -> string -> bool.

(** [ExclusionRule.matches] *)
Definition matches (rule : ExclusionRule) (item : BaseFileInfo) : bool :=
  if match xr_item_type rule with
     | ANY => false
     | FILE => bfi_is_folder item
     | FOLDER => negb (bfi_is_folder item)
     end
  then false
  else
    match _get_value_to_match rule item with
    | None => false
    | Some value =>
        let value := if xr_case_sensitive rule then value else lower value in
        let pattern :=
          if xr_case_sensitive rule then xr_pattern rule else lower (xr_pattern rule) in
        match xr_mode rule with
        | CONTAINS => contains pattern value
        | STARTS_WITH => startswith pattern value
        | ENDS_WITH => endswith pattern value
        | EXACT => String.eqb value pattern
        | REGEX => re_search (xr_pattern rule) (xr_case_sensitive rule) value
        end
    end.

(** [ItemFilter.should_exclude] over the rules of the filter. *)
Definition should_exclude (exclusion_rules : list ExclusionRule) (item : BaseFileInfo) : bool :=
  existsb (fun rule => matches rule item) exclusion_rules.

(** [ItemFilter.add_rule] *)
Definition add_rule (exclusion_rules : list ExclusionRule) (rule : ExclusionRule)
    : list ExclusionRule :=
  exclusion_rules ++ [rule].

End Rules.

(** Sample rules and items. *)
Definition txt_files_rule : ExclusionRule := mkExclusionRule ".txt" EXTENSION FILE EXACT true.

Definition tmp_rule : ExclusionRule := mkExclusionRule "TMP" NAME ANY CONTAINS false.

Definition everything_rule : ExclusionRule := mkExclusionRule "" NAME ANY CONTAINS false.

Definition notes_file : BaseFileInfo :=
  mkBaseFileInfo "f1" "notes.txt" "/docs/notes.txt" false (Some 10%Z) "" "" "" [].

Definition docs_folder : BaseFileInfo :=
  mkBaseFileInfo "d1" "docs" "/docs" true None "" "" "" [].

(** A regular-expression engine that finds nothing. *)
Definition no_search (_ : string) (_ : bool) (_ : string) : bool := false.

(** ** The dispatcher's test ([tasks/filesync/tasks.py]) *)

Section Scheduler.

(** Naive [datetime] values are counted in microseconds.  The cron library is
    a parameter: [cron_prev expr t] is what [croniter(expr, t).get_prev]
    returns, [cron_next expr t] what a following [get_next] returns from
    there, and [None] stands for an exception of the library. *)
Variable cron_prev : string -> Z -> option Z.
Variable cron_next : string -> Z -> option Z.

Definition execution_window_minutes : Z := 5.

Definition microseconds_per_minute : Z := 60000000.

(** [0 <= time_diff_minutes <= execution_window_minutes], the quotient
    [total_seconds() / 60] compared exactly: with a difference counted in
    whole microseconds the two floating-point divisions do not change the
    outcome of either comparison. *)
Definition in_execution_window (current_time prev_execution_time : Z) : bool :=
  let diff := (current_time - prev_execution_time)%Z in
  (Z.leb 0 diff && Z.leb diff (execution_window_minutes * microseconds_per_minute))%bool.

(** [last_sync] is the [datetime] of the configuration row or [None]; a
    [datetime] is true, and [datetime.fromisoformat(str(d))] is [d] again.
    The try block ends in [return False] for whatever the library raises. *)
Definition _should_execute_now (cron_expr : string) (last_sync : option Z) (current_time : Z)
    : bool :=
  match cron_prev cron_expr current_time with
  | None => false
  | Some prev_execution_time =>
      match cron_next cron_expr prev_execution_time with
      | None => false
      | Some _next_execution_time =>
          let in_window := in_execution_window current_time prev_execution_time in
          match last_sync with
          | None => in_window
          | Some last_sync_dt =>
              if (Z.ltb last_sync_dt prev_execution_time && in_window)%bool then true
              else false
          end
      end
  end.

End Scheduler.

(** A sample schedule, every five minutes on the minute: the latest such
    instant before [t], and the first one after it. *)
Definition five_minutes : Z := 300000000.

Definition every_five_prev (_ : string) (t : Z) : option Z :=
  Some (five_minutes * ((t - 1) / five_minutes))%Z.

Definition every_five_next (_ : string) (t : Z) : option Z :=
  Some (five_minutes * (t / five_minutes + 1))%Z.

(** *** Cron schedules *)

(** The schedule of a cron expression is the set of its firing instants.
    [latest_before fires now prev]: [prev] is the latest firing strictly
    before [now].  That is the instant [croniter(expr, now).get_prev]
    returns: a [now] that is itself a firing is passed over. *)
Definition latest_before (fires : Z -> Prop) (now prev : Z) : Prop :=
  fires prev /\ (prev < now)%Z /\ forall t, fires t -> (t < now)%Z -> (t <= prev)%Z.

(** [prev_fire] as the specification words it: the latest cron instant at or
    before [now]. *)
Definition spec_prev_fire (fires : Z -> Prop) (now prev_fire : Z) : Prop :=
  fires prev_fire /\ (prev_fire <= now)%Z /\
  forall t, fires t -> (t <= now)%Z -> (t <= prev_fire)%Z.

(** Eligibility as the specification words it. *)
Definition spec_eligible (fires : Z -> Prop) (last_sync : option Z) (now : Z) : Prop :=
  exists prev_fire,
    spec_prev_fire fires now prev_fire /\
    (0 <= now - prev_fire <= execution_window_minutes * microseconds_per_minute)%Z /\
    (last_sync = None \/ exists t, last_sync = Some t /\ (t < prev_fire)%Z).

(** The schedule of [every_five_prev] and [every_five_next]: the multiples
    of five minutes. *)
Definition every_five_fires (t : Z) : Prop := (t mod five_minutes = 0)%Z.

(** ** The dispatcher's tick ([tasks/filesync/tasks.py]) *)

(** *** [_merge_execution_details] *)

(** [detail.get(k)] *)
Definition detail_get (detail : dict pyval) (k : string) : pyval :=
  dict_get_default detail k VNone.

(** The [TypeError] of [hash(v)], when there is one. *)
Definition unhashable (v : pyval) : option string :=
  match v with
  | VList _ => Some "unhashable type: 'list'"
  | VDict _ => Some "unhashable type: 'dict'"
  | _ => None
  end.

(** The key a detail is grouped under. *)
Definition group_key (detail : dict pyval) : pyval * pyval :=
  let status := detail_get detail "status" in
  if ((py_eqb status (VStr "skipped") || py_eqb status (VStr "failed"))
      && dict_mem detail "reason")%bool
  then (status, detail_get detail "reason")
  else if (py_eqb status (VStr "failed") && dict_mem detail "error")%bool
  then (status, detail_get detail "error")
  else (status, detail_get detail "config_id").

Definition key_eqb (a b : pyval * pyval) : bool :=
  (py_eqb (fst a) (fst b) && py_eqb (snd a) (snd b))%bool.

(** The dictionary [groups]: for each key, in the order the keys came, the
    configuration ids collected and the copy of the first detail. *)
Definition Groups : Type := list ((pyval * pyval) * (list pyval * dict pyval)).

(** [if group_key not in groups: groups[group_key] = {...}] and then
    [groups[group_key]["config_ids"].append(detail.get("config_id"))] *)
Fixpoint group_add (groups : Groups) (key : pyval * pyval) (detail : dict pyval) : Groups :=
  match groups with
  | [] => [(key, ([detail_get detail "config_id"], detail))]
  | (k, (config_ids, first_detail)) :: r =>
      if key_eqb key k
      then (k, (config_ids ++ [detail_get detail "config_id"], first_detail)) :: r
      else (k, (config_ids, first_detail)) :: group_add r key detail
  end.

(** The first loop.  Building the key hashes its two components. *)
Fixpoint group_details (details : list (dict pyval)) (groups : Groups) : res Groups :=
  match details with
  | [] => Ok groups
  | detail :: r =>
      let key := group_key detail in
      match unhashable (fst key) with
      | Some e => Raise e
      | None =>
          match unhashable (snd key) with
          | Some e => Raise e
          | None => group_details r (group_add groups key detail)
          end
      end
  end.

(** The second loop, for one group.  A group holds at least one id (the
    first loop appends one when it creates the group). *)
Definition merged_detail (group : (pyval * pyval) * (list pyval * dict pyval))
    : dict pyval :=
  let '(_, (config_ids, detail)) := group in
  dict_set detail "config_id"
    (match config_ids with
     | [] => VNone
     | [config_id] => config_id
     | _ => VList config_ids
     end).

(** [status_order.get(x.get("status"), 5)] *)
Definition status_rank (detail : dict pyval) : nat :=
  match detail_get detail "status" with
  | VStr s =>
      if String.eqb s "success" then 1
      else if String.eqb s "failed" then 2
      else if String.eqb s "error" then 3
      else if String.eqb s "skipped" then 4
      else 5
  | _ => 5
  end.

(** [list.sort(key=...)] is stable: the result is the one arrangement of the
    list in ascending order of the key that keeps elements of equal key in
    their order.  It is computed here by insertion. *)
Fixpoint insert_by_rank (x : dict pyval) (l : list (dict pyval)) : list (dict pyval) :=
  match l with
  | [] => [x]
  | y :: r =>
      if Nat.leb (status_rank x) (status_rank y) then x :: y :: r
      else y :: insert_by_rank x r
  end.

Fixpoint sort_by_rank (l : list (dict pyval)) : list (dict pyval) :=
  match l with
  | [] => []
  | x :: r => insert_by_rank x (sort_by_rank r)
  end.

Definition _merge_execution_details (details : list (dict pyval))
    : res (list (dict pyval)) :=
  match details with
  | [] => Ok []
  | _ :: _ =>
      match group_details details [] with
      | Raise e => Raise e
      | Ok groups => Ok (sort_by_rank (map merged_detail groups))
      end
  end.

(** The configuration ids an entry of the merged list stands for. *)
Definition ids_of (detail : dict pyval) : list pyval :=
  match detail_get detail "config_id" with
  | VList l => l
  | v => [v]
  end.

Definition is_int (v : pyval) : bool := match v with VInt _ => true | _ => false end.

(** The id a detail carries, and whether its key can be hashed. *)
Definition detail_id (detail : dict pyval) : pyval := detail_get detail "config_id".

Definition hashable_key (key : pyval * pyval) : bool :=
  match unhashable (fst key), unhashable (snd key) with
  | None, None => true
  | _, _ => false
  end.

(** The details filed under the key of [detail]. *)
Definition same_group (detail : dict pyval) (d : dict pyval) : bool :=
  key_eqb (group_key d) (group_key detail).

(** The groups after a run of the first loop over [seen]: one group for each
    key met, holding the ids of the details of that key in their order and a
    detail of that status. *)
Definition groups_of (seen : list (dict pyval)) (groups : Groups) : Prop :=
  NoDup (map fst groups) /\
  (forall k ids fd, In (k, (ids, fd)) groups ->
     hashable_key k = true /\ detail_get fd "status" = fst k /\ ids <> [] /\
     ids = map detail_id (filter (fun d => key_eqb (group_key d) k) seen)) /\
  (forall d, In d seen -> In (group_key d) (map fst groups)).

(** *** [_check_and_execute_filesync_cron_tasks] *)

(** The fields of a configuration row that the tick reads. *)
Record CronConfig : Type := mkCronConfig {
  cc_id : Z;
  cc_cron : option string;
  cc_end_time : option Z;
  cc_last_sync : option Z
}.

(** What the tick reads of the dictionary [execute_sync_by_config_id]
    returns: the truth of [success], and the values it copies. *)
Record ExecOutcome : Type := mkExecOutcome {
  xo_success : bool;
  xo_task_id : pyval;
  xo_stats : pyval;
  xo_elapsed_time : pyval;
  xo_error : pyval
}.

(** The dictionary the tick returns. *)
Record TickResult : Type := mkTickResult {
  checked_configs : nat;
  executed_tasks : nat;
  failed_tasks : nat;
  skipped_tasks : nat;
  execution_details : list (dict pyval);
  tick_error : option string
}.

Section Dispatcher.

(** The database and whatever else a job changes is [D].  The job itself is
    a parameter: [execute config_id] is
    [file_sync_service.execute_sync_by_config_id(config.id, db)]; and so is
    the cron library: [cron_valid expr] tells whether [croniter(expr)]
    accepts the expression. *)
Context {D : Type}.
Variable cron_valid : string -> bool.
Variable cron_prev : string -> Z -> option Z.
Variable cron_next : string -> Z -> option Z.
Variable execute : Z -> D -> res ExecOutcome * D.

(** The state of the loop: the three counters, [temp_details] and [D]. *)
Record TickState : Type := mkTickState {
  ts_executed : nat;
  ts_failed : nat;
  ts_skipped : nat;
  ts_details : list (dict pyval);
  ts_db : D
}.

Definition skip (st : TickState) (config : CronConfig) (reason : string) : TickState :=
  mkTickState (ts_executed st) (ts_failed st) (ts_skipped st + 1)
    (ts_details st ++ [[("config_id", VInt (cc_id config)); ("status", VStr "skipped");
                        ("reason", VStr reason)]])
    (ts_db st).

(** [if end_time and current_time > end_time] *)
Definition expired (config : CronConfig) (current_time : Z) : bool :=
  match cc_end_time config with
  | Some end_time => Z.ltb end_time current_time
  | None => false
  end.

(** The body of the loop for one configuration. *)
Definition tick_step (current_time : Z) (st : TickState) (config : CronConfig) : TickState :=
  match cc_cron config with
  | None => skip st config "没有设置cron表达式"
  | Some cron =>
      if String.eqb cron "" then skip st config "没有设置cron表达式"
      else if expired config current_time then skip st config "任务已过期"
      else if negb (cron_valid cron) then
        mkTickState (ts_executed st) (ts_failed st + 1) (ts_skipped st)
          (ts_details st ++ [[("config_id", VInt (cc_id config)); ("status", VStr "failed");
                              ("reason", VStr "cron表达式无效")]])
          (ts_db st)
      else if negb (_should_execute_now cron_prev cron_next cron (cc_last_sync config)
                      current_time)
      then skip st config "未到执行时间"
      else
        match execute (cc_id config) (ts_db st) with
        | (Ok sync_result, db') =>
            if xo_success sync_result then
              mkTickState (ts_executed st + 1) (ts_failed st) (ts_skipped st)
                (ts_details st ++ [[("config_id", VInt (cc_id config));
                                    ("status", VStr "success");
                                    ("task_id", xo_task_id sync_result);
                                    ("stats", xo_stats sync_result);
                                    ("elapsed_time", xo_elapsed_time sync_result)]])
                db'
            else
              mkTickState (ts_executed st) (ts_failed st + 1) (ts_skipped st)
                (ts_details st ++ [[("config_id", VInt (cc_id config));
                                    ("status", VStr "failed");
                                    ("error", xo_error sync_result);
                                    ("task_id", xo_task_id sync_result)]])
                db'
        | (Raise e, db') =>
            mkTickState (ts_executed st) (ts_failed st + 1) (ts_skipped st)
              (ts_details st ++ [[("config_id", VInt (cc_id config));
                                  ("status", VStr "error"); ("error", VStr e)]])
              db'
        end
  end.

Definition tick_loop (current_time : Z) (configs : list CronConfig) (db : D) : TickState :=
  fold_left (tick_step current_time) configs (mkTickState 0 0 0 [] db).

(** [_check_and_execute_filesync_cron_tasks]: [enabled_configs] is what
    [sync_config_dao.get_enabled_configs] returned or raised, [current_time]
    is [datetime.now()].  An exception of the merge is not caught here. *)
Definition _check_and_execute_filesync_cron_tasks (enabled_configs : res (list CronConfig))
    (current_time : Z) (db : D) : res TickResult * D :=
  match enabled_configs with
  | Raise e => (Ok (mkTickResult 0 0 0 0 [] (Some e)), db)
  | Ok configs =>
      let st := tick_loop current_time configs db in
      match _merge_execution_details (ts_details st) with
      | Raise e => (Raise e, ts_db st)
      | Ok details =>
          (Ok (mkTickResult (length configs) (ts_executed st) (ts_failed st) (ts_skipped st)
                 details None),
           ts_db st)
      end
  end.

(** The configurations the tick starts a job for. *)
Definition due (current_time : Z) (config : CronConfig) : bool :=
  match cc_cron config with
  | None => false
  | Some cron =>
      negb (String.eqb cron "") && negb (expired config current_time) && cron_valid cron
      && _should_execute_now cron_prev cron_next cron (cc_last_sync config) current_time
  end.

End Dispatcher.

(** Sample data: a job that succeeds for every configuration but number 3. *)
Definition sample_execute (config_id : Z) (db : nat) : res ExecOutcome * nat :=
  if Z.eqb config_id 3
  then (Ok (mkExecOutcome false (VInt 30) VNone (VInt 0) (VStr "网盘账户不存在")), S db)
  else (Ok (mkExecOutcome true (VInt (10 * config_id)) (VDict []) (VInt 1) VNone), S db).

Definition sample_configs : list CronConfig :=
  [mkCronConfig 1 (Some "*/5 * * * *") None None;
   mkCronConfig 2 None None None;
   mkCronConfig 3 (Some "*/5 * * * *") None (Some 600000000%Z);
   mkCronConfig 4 (Some "*/5 * * * *") (Some 100%Z) None;
   mkCronConfig 5 (Some "*/5 * * * *") None (Some 950000000%Z);
   mkCronConfig 6 None None None].

Definition sample_details : list (dict pyval) :=
  [[("config_id", VInt 1); ("status", VStr "skipped"); ("reason", VStr "未到执行时间")];
   [("config_id", VInt 2); ("status", VStr "success"); ("task_id", VInt 20)];
   [("config_id", VInt 3); ("status", VStr "skipped"); ("reason", VStr "未到执行时间")]].

(** ** An in-memory provider *)

(** Modelled from the spec: a fake adapter, the kind the design notes ask
    tests to build.  The share is a table from a path to its listing.  The
    user's drive is addressed by folder id, as the Quark client addresses it
    ([pdir_fid], [to_pdir_fid]): a table from a folder id to its entries.
    [md_newcopy] chooses what a transfer does with a name that is taken: keep
    both, the new one under a numbered name (the Baidu client's default,
    [ondup = "newcopy"]), or replace the old entry. *)
Record MemDrive : Type := mkMemDrive {
  md_share : dict (list BaseFileInfo);
  md_folders : dict (list BaseFileInfo);
  md_newcopy : bool
}.

Definition mem_get_share_list (_ : string) (p : ListShareFilesParam) (w : MemDrive)
    : res (list BaseFileInfo) * MemDrive :=
  (Ok (dict_get_default (md_share w) (rstrip_slash (lsp_file_path p)) []), w).

Definition mem_get_disk_list (_ : string) (p : ListFilesParam) (w : MemDrive)
    : res (list BaseFileInfo) * MemDrive :=
  (Ok (dict_get_default (md_folders w) (lfp_file_id p) []), w).

Definition opt_default (o : option string) (d : string) : string :=
  match o with Some s => s | None => d end.

Definition mem_create_mkdir (_ : string) (p : MkdirParam) (w : MemDrive)
    : res (option BaseFileInfo) * MemDrive :=
  let parent := match mkp_parent_id p with
                | Some s => if String.eqb s "" then "0" else s
                | None => "0"
                end in
  let name := opt_default (mkp_file_name p) "" in
  let entries := dict_get_default (md_folders w) parent [] in
  match find (fun e => (bfi_is_folder e && String.eqb (bfi_file_name e) name)%bool) entries with
  | Some e => (Ok (Some e), w)
  | None =>
      let new_id := parent ^^ "/" ^^ name in
      let info := mkBaseFileInfo new_id name (rstrip_slash (mkp_file_path p) ^^ "/" ^^ name)
                    true (Some 0%Z) parent "" "" [] in
      (Ok (Some info),
       mkMemDrive (md_share w)
         (dict_set (dict_set (md_folders w) parent (entries ++ [info])) new_id [])
         (md_newcopy w))
  end.

Definition id_text (v : pyval) : string := py_str v.

(** The share item with a given id, wherever it is listed. *)
Definition find_shared (w : MemDrive) (id : pyval) : option BaseFileInfo :=
  find (fun e => String.eqb (bfi_file_id e) (id_text id)) (concat (map snd (md_share w))).

Fixpoint find_all_shared (w : MemDrive) (ids : list pyval) : option (list BaseFileInfo) :=
  match ids with
  | [] => Some []
  | id :: r =>
      match find_shared w id, find_all_shared w r with
      | Some e, Some es => Some (e :: es)
      | _, _ => None
      end
  end.

(** One item saved into a folder. *)
Definition store_entry (newcopy : bool) (target : string) (entries : list BaseFileInfo)
    (e : BaseFileInfo) : list BaseFileInfo :=
  let saved name := mkBaseFileInfo (target ^^ "/" ^^ name) name ("/" ^^ name)
                      (bfi_is_folder e) (bfi_file_size e) target "" "" [] in
  let taken := existsb (fun o => String.eqb (bfi_file_name o) (bfi_file_name e)) entries in
  if negb taken then entries ++ [saved (bfi_file_name e)]
  else if newcopy then
    let n := length (filter (fun o => startswith (bfi_file_name e) (bfi_file_name o)) entries) in
    entries ++ [saved (bfi_file_name e ^^ "(" ^^ str_of_nat n ^^ ")")]
  else
    map (fun o => if String.eqb (bfi_file_name o) (bfi_file_name e)
                  then saved (bfi_file_name e) else o) entries.

Definition mem_transfer_files (_ : string) (p : TransferParam) (w : MemDrive)
    : res bool * MemDrive :=
  let target := opt_default (tp_target_id p) "" in
  match dict_get (md_folders w) target,
        find_all_shared w (match tp_file_ids p with Some l => l | None => [] end) with
  | Some entries, Some items =>
      (Ok true,
       mkMemDrive (md_share w)
         (dict_set (md_folders w) target
            (fold_left (store_entry (md_newcopy w) target) items entries))
         (md_newcopy w))
  | _, _ => (Ok false, w)
  end.

Definition mem_remove_files (_ : string) (p : RemoveParam) (w : MemDrive)
    : res bool * MemDrive :=
  let parent := opt_default (rmp_parent_id p) "0" in
  let ids := match rmp_file_ids p with Some l => l | None => [] end in
  let entries := dict_get_default (md_folders w) parent [] in
  (Ok true,
   mkMemDrive (md_share w)
     (dict_set (md_folders w) parent
        (filter (fun e => negb (str_in (bfi_file_id e) ids)) entries))
     (md_newcopy w)).

Definition mem_drive : DriveManager MemDrive :=
  mkDriveManager MemDrive mem_get_share_list mem_get_disk_list mem_create_mkdir
    mem_transfer_files mem_remove_files.

(** *** Scenario data *)

(** A file of a share, with the token a link share attaches to it. *)
Definition shared_file (id name path : string) (size : Z) : BaseFileInfo :=
  mkBaseFileInfo id name path false (Some size) "" "" ""
    [("stoken", VStr "st"); ("share_fid_token", VStr ("tok-" ^^ id))].

Definition shared_folder (id name path : string) : BaseFileInfo :=
  mkBaseFileInfo id name path true None "" "" ""
    [("stoken", VStr "st"); ("share_fid_token", VStr ("tok-" ^^ id))].

(** A file of the user's drive. *)
Definition disk_file (id name : string) (size : Z) : BaseFileInfo :=
  mkBaseFileInfo id name ("/dst/" ^^ name) false (Some size) "d0" "" "" [].

Definition disk_folder (id name : string) : BaseFileInfo :=
  mkBaseFileInfo id name ("/dst/" ^^ name) true (Some 0%Z) "d0" "" "" [].

Definition demo_source : ShareSourceDefinition :=
  mkShareSourceDefinition "/root" "link" "https://pan.example/s/abc" [].

Definition demo_target : DiskTargetDefinition := mkDiskTargetDefinition "/dst" "d0".

Definition demo_job (method : string) (depth : nat) : Job :=
  mkJob "cookie" QUARK demo_source method FAST None depth (Some 7%Z) true.

(** Scenario 1 of the specification: [/root/a.txt (10)], [/root/b/c.txt (20)],
    an empty target root. *)
Definition fresh_world : MemDrive :=
  mkMemDrive
    [("/root", [shared_file "s1" "a.txt" "/root/a.txt" 10;
                shared_folder "s2" "b" "/root/b"]);
     ("/root/b", [shared_file "s3" "c.txt" "/root/b/c.txt" 20])]
    [("d0", [])]
    false.

(** Scenario 4: source [a.txt (12)], target [a.txt (10)]; the provider keeps
    both files when a name is taken. *)
Definition mismatch_world : MemDrive :=
  mkMemDrive
    [("/root", [shared_file "s1" "a.txt" "/root/a.txt" 12])]
    [("d0", [disk_file "t1" "a.txt" 10])]
    true.

(** Source [a.txt (10)], target [b.txt (10)]. *)
Definition rename_world : MemDrive :=
  mkMemDrive
    [("/root", [shared_file "s1" "a.txt" "/root/a.txt" 10])]
    [("d0", [disk_file "t1" "b.txt" 10])]
    false.

(** A target that already holds what the source holds. *)
Definition mirrored_world : MemDrive :=
  mkMemDrive
    [("/root", [shared_file "s1" "a.txt" "/root/a.txt" 10;
                shared_folder "s2" "b" "/root/b"]);
     ("/root/b", [shared_file "s3" "c.txt" "/root/b/c.txt" 20])]
    [("d0", [disk_file "t1" "a.txt" 10; disk_folder "t2" "b"]);
     ("t2", [disk_file "t3" "c.txt" 20])]
    false.

(** Source [d/x.txt] and [f.txt], the folder listed first; an empty target. *)
Definition order_world : MemDrive :=
  mkMemDrive
    [("/root", [shared_folder "s1" "d" "/root/d";
                shared_file "s2" "f.txt" "/root/f.txt" 5]);
     ("/root/d", [shared_file "s3" "x.txt" "/root/d/x.txt" 7])]
    [("d0", [])]
    false.

(** The rule "a" -> "b" on names, case-sensitive. *)
Definition demo_rename_rule : RenameRuleDefinition :=
  mkRenameRuleDefinition "a" "b" NAME true.

Definition demo_config (method : option string) : SyncConfig :=
  mkSyncConfig method 2 "/root"
    [("source_type", VStr "link"); ("source_id", VStr "https://pan.example/s/abc")]
    "/dst" [("file_id", VStr "d0")].

(** An entry of a file list whose provider metadata has a key named
    [files_ext_info]. *)
Definition stray_key_file : dict pyval :=
  [("file_name", VStr "a.txt"); ("file_size", VInt 10); ("source_path", VStr "/root");
   ("target_path", VStr "/dst"); ("file_id", VStr "f1"); ("files_ext_info", VList [])].

(** The errors of a job in which a batched transfer failed, then a directory
    could not be created, then two more batched transfers failed. *)
Definition interleaved_errors : list string :=
  ["批量转存失败：API返回False，涉及 1 个文件";
   "创建目录失败: /dst/x/";
   "批量转存失败：API返回False，涉及 2 个文件";
   "批量转存失败：API返回False，涉及 1 个文件"].

(** Source [b/c.txt]; the target has the folder [b], empty. *)
Definition nested_world : MemDrive :=
  mkMemDrive
    [("/root", [shared_folder "s2" "b" "/root/b"]);
     ("/root/b", [shared_file "s3" "c.txt" "/root/b/c.txt" 20])]
    [("d0", [disk_folder "t2" "b"]); ("t2", [])]
    false.

(** A provider that cannot be reached: every call raises. *)
Definition offline_error : string := "HTTPSConnectionPool: Read timed out.".

Definition offline_drive : DriveManager unit :=
  mkDriveManager unit
    (fun _ _ w => (Raise offline_error, w))
    (fun _ _ w => (Raise offline_error, w))
    (fun _ _ w => (Raise offline_error, w))
    (fun _ _ w => (Raise offline_error, w))
    (fun _ _ w => (Raise offline_error, w)).




(** ** The engine ([FileSyncService]) *)

Section Engine.

Context {W : Type} (dm : DriveManager W).

(** The state a job threads: the provider, the [stats] dictionary (one
    object, shared by every recursive call) and the trace. *)
Record St : Type := mkSt {
  world : W;
  stats : Stats;
  trace : list event
}.

(** A computation that reads and writes the state and may raise. *)
Definition M (A : Type) : Type := St -> res A * St.

Definition ret {A} (a : A) : M A := fun s => (Ok a, s).

Definition bind {A B} (m : M A) (f : A -> M B) : M B :=
  fun s =>
    match m s with
    | (Ok a, s') => f a s'
    | (Raise e, s') => (Raise e, s')
    end.

(** [try: m  except Exception as e: h(str(e))].  What [m] changed before it
    raised stays changed. *)
Definition try_except {A} (m : M A) (h : string -> M A) : M A :=
  fun s =>
    match m s with
    | (Ok a, s') => (Ok a, s')
    | (Raise e, s') => h e s'
    end.

Definition lift_res {A} (r : res A) : M A := fun s => (r, s).

Notation "x <- m ;; k" := (bind m (fun x => k))
  (at level 61, m at next level, right associativity).
Notation "m ;; k" := (bind m (fun _ => k))
  (at level 61, right associativity).

Definition emit (e : event) : M unit :=
  fun s => (Ok tt, mkSt (world s) (stats s) (trace s ++ [e])).

Definition get_stats : M Stats := fun s => (Ok (stats s), s).

Definition modify_stats (f : Stats -> Stats) : M unit :=
  fun s => (Ok tt, mkSt (world s) (f (stats s)) (trace s)).

(** A call on the drive manager: it is logged, the provider moves on, and its
    value or exception comes back. *)
Definition call {A} (op : W -> res A * W) (e : event) : M A :=
  fun s =>
    let '(r, w) := op (world s) in
    (r, mkSt w (stats s) (trace s ++ [e])).

Fixpoint foldM {A B} (f : B -> A -> M B) (l : list A) (b : B) : M B :=
  match l with
  | [] => ret b
  | x :: r => b' <- f b x ;; foldM f r b'
  end.

(** [stats["errors"].append(msg)] and the counters *)
Definition add_error (msg : string) : M unit :=
  modify_stats (fun s => mkStats (files_processed s) (folder_created s) (files_transferred s)
                           (files_deleted s) (files_skipped s) (errors s ++ [msg])).

Definition incr_files_processed : M unit :=
  modify_stats (fun s => mkStats (files_processed s + 1) (folder_created s) (files_transferred s)
                           (files_deleted s) (files_skipped s) (errors s)).

Definition incr_folder_created : M unit :=
  modify_stats (fun s => mkStats (files_processed s) (folder_created s + 1) (files_transferred s)
                           (files_deleted s) (files_skipped s) (errors s)).

Definition add_files_transferred (n : nat) : M unit :=
  modify_stats (fun s => mkStats (files_processed s) (folder_created s) (files_transferred s + n)
                           (files_deleted s) (files_skipped s) (errors s)).

Definition add_files_deleted (n : nat) : M unit :=
  modify_stats (fun s => mkStats (files_processed s) (folder_created s) (files_transferred s)
                           (files_deleted s + n) (files_skipped s) (errors s)).

Definition incr_files_skipped : M unit :=
  modify_stats (fun s => mkStats (files_processed s) (folder_created s) (files_transferred s)
                           (files_deleted s) (files_skipped s + 1) (errors s)).

(** [await asyncio.sleep(n)] *)
Definition sleep (n : nat) : M unit := emit (ESleep n).

(** [if task_id and db: await self.record_task_item(...)].  The method
    catches whatever the insertion raises. *)
Definition record_task_item (j : Job) (operation_type : string)
    (src_path dst_path file_name file_size : pyval) (status : string)
    (err_msg : option string) : M unit :=
  match task_id j with
  | Some t =>
      if (negb (Z.eqb t 0) && db j)%bool
      then emit (ERecordTaskItem (mkTaskItemCall t operation_type src_path dst_path
                                    file_name file_size status err_msg))
      else ret tt
  | None => ret tt
  end.

(** *** [list_dir] *)

(** The loop of [list_dir] over the listing: filtered entries are dropped, a
    folder is keyed by its name and a final slash, and a later entry of the
    same key replaces the earlier one. *)
Definition build_file_map (flt : option (BaseFileInfo -> bool)) (is_src : bool)
    (files : list BaseFileInfo) : dict (dict pyval) :=
  fold_left
    (fun file_map file =>
       if match flt with Some f => f file | None => false end then file_map
       else
         let file_name :=
           if bfi_is_folder file then bfi_file_name file ^^ "/" else bfi_file_name file in
         let file_size :=
           if bfi_is_folder file then VInt 0
           else match bfi_file_size file with Some z => VInt z | None => VNone end in
         let file_info := [("file_size", file_size); ("file_id", VStr (bfi_file_id file))] in
         let file_info :=
           if (is_src && match bfi_file_ext file with [] => false | _ => true end)%bool
           then dict_update file_info (bfi_file_ext file)
           else file_info in
         dict_set file_map file_name file_info)
    files [].

(** [target_id or ""] *)
Definition or_empty (v : pyval) : pyval := if truthy v then v else VStr "".

Definition list_dir (j : Job) (path : string) (is_src : bool) (target_id : pyval)
    : M (dict (dict pyval)) :=
  files <-
    (if is_src then
       let params := mkListShareFilesParam (drive_type j)
                       (ssd_source_type (source_definition j))
                       (ssd_source_id (source_definition j)) path in
       call (get_share_list dm (x_token j) params) (EGetShareList params)
     else
       fid <- lift_res (as_str "ListFilesParam" "file_id" (or_empty target_id)) ;;
       let params := mkListFilesParam (drive_type j) path fid in
       call (get_disk_list dm (x_token j) params) (EGetDiskList params)) ;;
  ret (build_file_map (item_filter j) is_src files).

(** *** [transfer_files] *)

Definition reserved_keys : list string :=
  ["file_name"; "file_size"; "source_path"; "target_path"; "file_id"].

(** [for key, value in src.items(): if key not in skip: dst[key] = value] *)
Definition copy_keys_except (skip : list string) (src dst : dict pyval) : dict pyval :=
  fold_left (fun acc kv => if str_in (fst kv) skip then acc else dict_set acc (fst kv) (snd kv))
    src dst.

(** The first loop of [transfer_files]: the ids in order, or the first file
    whose id is missing or empty. *)
Fixpoint collect_file_ids (files : list (dict pyval)) (file_ids : list pyval)
    : dict pyval + list pyval :=
  match files with
  | [] => inr file_ids
  | file_info :: r =>
      let file_id := dict_get_default file_info "file_id" (VStr "") in
      if truthy file_id then collect_file_ids r (file_ids ++ [file_id]) else inl file_info
  end.

(** One entry of [files_ext_info]. *)
Definition file_ext_info_of (file_info : dict pyval) : pyval :=
  VDict [("file_id", match dict_get file_info "file_id" with Some v => v | None => VNone end);
         ("file_ext", VDict (copy_keys_except reserved_keys file_info []))].

(** The [ext] of the batched transfer: the source's [ext_params], then
    [files_ext_info], then the extra keys of the first file. *)
Definition build_ext_params (base : dict pyval) (files : list (dict pyval)) : dict pyval :=
  let ext_params := dict_set base "files_ext_info" (VList (map file_ext_info_of files)) in
  match files with
  | [] => ext_params
  | first_file :: _ => copy_keys_except reserved_keys first_file ext_params
  end.

Definition record_copy_item (j : Job) (status : string) (err_msg : option string)
    (file_info : dict pyval) : M unit :=
  record_task_item j "copy"
    (dict_get_default file_info "source_path" (VStr ""))
    (dict_get_default file_info "target_path" (VStr ""))
    (dict_get_default file_info "file_name" (VStr ""))
    (dict_get_default file_info "file_size" (VInt 0)) status err_msg.

Definition record_copy_items (j : Job) (status : string) (err_msg : option string)
    (files : list (dict pyval)) : M unit :=
  foldM (fun _ file_info => record_copy_item j status err_msg file_info) files tt.

Definition transfer_files (j : Job) (target_definition : DiskTargetDefinition)
    (files : list (dict pyval)) : M bool :=
  match files with
  | [] => ret true
  | first_file :: _ =>
      try_except
        (match collect_file_ids files [] with
         | inl file_info =>
             let error_msg :=
               "文件 " ^^ py_str (dict_get_default file_info "file_name" (VStr ""))
                 ^^ " 缺少file_id" in
             add_error error_msg ;;
             record_copy_item j "failed" (Some error_msg) file_info ;;
             ret false
         | inr file_ids =>
             let ext_params := build_ext_params (ssd_ext_params (source_definition j)) files in
             params <- lift_res
               (new_TransferParam (drive_type j)
                  (ssd_source_type (source_definition j))
                  (ssd_source_id (source_definition j))
                  (dict_get_default first_file "source_path" (VStr ""))
                  (dict_get_default first_file "target_path"
                     (VStr (dtd_file_path target_definition)))
                  (dtd_file_id target_definition) file_ids ext_params) ;;
             result <- call (transfer_files_api dm (x_token j) params) (ETransferFiles params) ;;
             (if result : bool then
                add_files_transferred (length files) ;;
                record_copy_items j "completed" None files
              else
                let error_msg :=
                  "批量转存失败：API返回False，涉及 " ^^ str_of_nat (length files) ^^ " 个文件" in
                add_error error_msg ;;
                record_copy_items j "failed" (Some error_msg) files) ;;
             match recursion_speed j with
             | SLOW => sleep 2
             | NORMAL => sleep 1
             | FAST => ret tt
             end ;;
             ret result
         end)
        (fun e =>
           let error_msg := "批量转存异常: " ^^ e in
           add_error error_msg ;;
           record_copy_items j "failed" (Some error_msg) files ;;
           ret false)
  end.

(** *** [delete_files] *)

Definition record_delete_items (j : Job) (status : string) (err_msg : option string)
    (files : list DeleteInfo) : M unit :=
  foldM (fun _ file_info =>
           record_task_item j "delete" (VStr "") (VStr (di_target_path file_info))
             (VStr (di_file_name file_info)) (di_file_size file_info) status err_msg)
    files tt.

Definition delete_files (j : Job) (target_definition : DiskTargetDefinition)
    (files : list DeleteInfo) : M bool :=
  match files with
  | [] => ret true
  | _ :: _ =>
      try_except
        (let file_paths :=
           map (fun file_info =>
                  rstrip_slash (di_target_path file_info) ^^ "/" ^^ di_file_name file_info)
             files in
         let file_ids :=
           map di_file_id (filter (fun file_info => truthy (di_file_id file_info)) files) in
         params <- lift_res
           (new_RemoveParam (drive_type j) file_paths file_ids (dtd_file_id target_definition)) ;;
         result <- call (remove_files dm (x_token j) params) (ERemoveFiles params) ;;
         (if result : bool then
            add_files_deleted (length files) ;;
            record_delete_items j "completed" None files
          else
            let error_msg := "批量删除失败，涉及 " ^^ str_of_nat (length files) ^^ " 个文件" in
            add_error error_msg ;;
            record_delete_items j "failed" (Some error_msg) files) ;;
         match recursion_speed j with
         | SLOW => sleep 3
         | NORMAL => sleep 1
         | FAST => ret tt
         end ;;
         ret result)
        (fun e =>
           add_error e ;;
           record_delete_items j "failed" (Some e) files ;;
           ret false)
  end.

(** *** [create_directory] *)

Definition create_directory (j : Job) (target_definition : DiskTargetDefinition)
    (dir_name : string) : M (option BaseFileInfo) :=
  try_except
    (let params := mkMkdirParam (drive_type j) (dtd_file_path target_definition)
                     (Some (dtd_file_id target_definition)) (Some dir_name) true in
     call (create_mkdir dm (x_token j) params) (ECreateMkdir params))
    (fun _ => ret None).

(** *** [_handle_transfer_error] *)

Definition is_conflict_error (e : string) : bool :=
  contains "error_code: 111" e || contains "当前还有未完成的任务" e.

Definition is_transfer_error_latest (e : string) : bool :=
  contains "批量转存失败：API返回False" e || contains "转存失败" e.

Definition is_transfer_error (e : string) : bool :=
  contains "批量转存失败" e || contains "转存失败" e.

Definition is_delete_error (e : string) : bool :=
  contains "批量删除失败" e || contains "删除失败" e || contains "error_code: 31066" e.

Definition is_network_error (e : string) : bool :=
  contains "error_code: 6" e || contains "网络" e || contains "timeout" (str_lower e)
  || contains "Expecting value" e.

(** [sum(1 for error in stats["errors"] if p(error))] *)
Definition count_errors (p : string -> bool) (l : list string) : nat := length (filter p l).

(** [True] = go on, [False] = stop the job. *)
Definition _handle_transfer_error (j : Job) (current_path : string) : M bool :=
  st <- get_stats ;;
  match errors st with
  | [] => ret true
  | _ :: _ =>
      if Nat.leb 5 (length (errors st)) then
        add_error ("任务终止：总错误数量达到" ^^ str_of_nat (length (errors st)) ^^ "个") ;;
        ret false
      else
        let latest_error := last (errors st) "" in
        if is_conflict_error latest_error then
          sleep 30 ;;
          let conflict_count := count_errors is_conflict_error (errors st) in
          if Nat.leb 3 conflict_count then
            add_error ("任务终止：连续" ^^ str_of_nat conflict_count ^^ "次账户冲突") ;;
            ret false
          else ret true
        else if is_transfer_error_latest latest_error then
          sleep 30 ;;
          let transfer_fail_count := count_errors is_transfer_error (errors st) in
          if Nat.leb 3 transfer_fail_count then
            add_error ("任务终止：连续" ^^ str_of_nat transfer_fail_count ^^ "次转存失败") ;;
            ret false
          else ret true
        else if is_delete_error latest_error then ret true
        else if is_network_error latest_error then
          sleep 10 ;;
          let network_error_count := count_errors is_network_error (errors st) in
          if Nat.leb 2 network_error_count then
            add_error ("任务终止：网络错误达到" ^^ str_of_nat network_error_count ^^ "次") ;;
            ret false
          else ret true
        else ret true
  end.

(** *** [sync_with_have] and [sync_without_have] *)

(** The entry appended to [files_to_transfer] for one source file. *)
Definition make_transfer_file_info (file_name : string) (source_file_size : pyval)
    (source_path target_path : string) (file_info : dict pyval) : dict pyval :=
  copy_keys_except ["file_size"; "file_id"] file_info
    [("file_name", VStr file_name);
     ("file_size", source_file_size);
     ("source_path", VStr source_path);
     ("target_path", VStr target_path);
     ("file_id", dict_get_default file_info "file_id" (VStr ""))].

(** The test of [sync_with_have] on one source file:
    [file_name not in target_file_map or target_file_size != source_file_size]. *)
Definition needs_transfer (target_file_map : dict (dict pyval)) (file_name : string)
    (file_info : dict pyval) : bool :=
  let target_file_info := dict_get_default target_file_map file_name [] in
  let source_file_size := dict_get_default file_info "file_size" (VInt 0) in
  let target_file_size := dict_get_default target_file_info "file_size" (VInt (-1)) in
  negb (dict_mem target_file_map file_name) || negb (py_eqb target_file_size source_file_size).

(** [parent.rstrip('/') + '/' + dir_name + '/'] *)
Definition sub_path (parent dir_name : string) : string :=
  rstrip_slash parent ^^ "/" ^^ dir_name ^^ "/".

(** The batched transfer after the loop and the consultation of the error
    policy: [true] when the caller goes on, [false] when it returns. *)
Definition transfer_collected (j : Job) (target_definition : DiskTargetDefinition)
    (target_path : string) (files_to_transfer : list (dict pyval)) : M bool :=
  match files_to_transfer with
  | [] => ret true
  | _ :: _ =>
      transfer_result <- transfer_files j target_definition files_to_transfer ;;
      if transfer_result : bool then ret true
      else _handle_transfer_error j target_path
  end.

(** The body of the loop of [sync_with_have] for one entry of the source
    listing; [rec_with] and [rec_without] are the two recursive calls. *)
Definition with_have_item (j : Job)
    (rec_with : DiskTargetDefinition -> string -> string -> pyval -> nat -> M unit)
    (rec_without : DiskTargetDefinition -> string -> string -> nat -> M unit)
    (target_definition : DiskTargetDefinition) (source_path target_path : string)
    (current_depth : nat) (target_file_map : dict (dict pyval))
    (files_to_transfer : list (dict pyval)) (item : string * dict pyval)
    : M (list (dict pyval)) :=
  let '(file_name, file_info) := item in
  if negb (endswith_slash file_name) then
    incr_files_processed ;;
    if needs_transfer target_file_map file_name file_info then
      ret (files_to_transfer ++
             [make_transfer_file_info file_name
                (dict_get_default file_info "file_size" (VInt 0))
                source_path target_path file_info])
    else
      incr_files_skipped ;;
      ret files_to_transfer
  else
    let dir_name := rstrip_slash file_name in
    let source_sub_path := sub_path source_path dir_name in
    let target_sub_path := sub_path target_path dir_name in
    (if negb (dict_mem target_file_map file_name) then
       rec_without target_definition source_sub_path target_sub_path (current_depth + 1)
     else
       let target_sub_file_id :=
         dict_get_default (dict_get_default target_file_map file_name []) "file_id" (VStr "") in
       rec_with target_definition source_sub_path target_sub_path target_sub_file_id
         (current_depth + 1)) ;;
    ret files_to_transfer.

(** The body of the loop of [sync_without_have]. *)
Definition without_have_item (j : Job)
    (rec_without : DiskTargetDefinition -> string -> string -> nat -> M unit)
    (target_definition : DiskTargetDefinition) (source_path target_path : string)
    (current_depth : nat) (files_to_transfer : list (dict pyval))
    (item : string * dict pyval) : M (list (dict pyval)) :=
  let '(file_name, file_info) := item in
  if endswith_slash file_name then
    let dir_name := rstrip_slash file_name in
    rec_without target_definition (sub_path source_path dir_name)
      (sub_path target_path dir_name) (current_depth + 1) ;;
    ret files_to_transfer
  else
    incr_files_processed ;;
    ret (files_to_transfer ++
           [make_transfer_file_info file_name
              (dict_get_default file_info "file_size" (VInt 0))
              source_path target_path file_info]).

(** The entries of the target listing that the full strategy deletes. *)
Definition files_to_delete_of (source_file_map target_file_map : dict (dict pyval))
    (target_path : string) : list DeleteInfo :=
  map (fun kv =>
         mkDeleteInfo (fst kv) (dict_get_default (snd kv) "file_size" (VInt 0)) target_path
           (dict_get_default (snd kv) "file_id" (VStr "")))
    (filter (fun kv => negb (dict_mem source_file_map (fst kv))) target_file_map).

(** What [sync_with_have] does after its loop: the batched transfer, the
    error policy, and the batched delete of the full strategy. *)
Definition with_have_tail (j : Job) (target_definition : DiskTargetDefinition)
    (target_path : string) (source_file_map target_file_map : dict (dict pyval))
    (files_to_transfer : list (dict pyval)) : M unit :=
  go_on <- transfer_collected j target_definition target_path files_to_transfer ;;
  if go_on : bool then
    if String.eqb (sync_method j) "full" then
      match files_to_delete_of source_file_map target_file_map target_path with
      | [] => ret tt
      | files_to_delete => delete_files j target_definition files_to_delete ;; ret tt
      end
    else ret tt
  else ret tt.

(** What [sync_without_have] does after its loop. *)
Definition without_have_tail (j : Job) (target_definition : DiskTargetDefinition)
    (target_path : string) (files_to_transfer : list (dict pyval)) : M unit :=
  transfer_collected j target_definition target_path files_to_transfer ;;
  ret tt.

(** The two listings at the head of [sync_with_have], inside its [try]:
    [None] when one of them raised and the error was recorded. *)
Definition scan_both (j : Job) (source_path target_path : string) (target_id : pyval)
    : M (option (dict (dict pyval) * dict (dict pyval))) :=
  try_except
    (source_file_map <- list_dir j source_path true VNone ;;
     target_file_map <- list_dir j target_path false target_id ;;
     ret (Some (source_file_map, target_file_map)))
    (fun e =>
       add_error ("扫描目录失败: " ^^ source_path ^^ " -> " ^^ target_path
                    ^^ ", 错误: " ^^ e) ;;
       ret None).

(** The listing of [sync_without_have], inside its [try]. *)
Definition scan_source (j : Job) (source_path : string) : M (option (dict (dict pyval))) :=
  try_except
    (source_file_map <- list_dir j source_path true VNone ;;
     ret (Some source_file_map))
    (fun e =>
       add_error ("扫描源目录失败: " ^^ source_path ^^ ", 错误: " ^^ e) ;;
       ret None).

(** The two procedures.  Every recursive call is one level deeper, and a call
    at [max_depth] or deeper returns at once, so [max_depth - current_depth]
    levels of recursion are all a call can use: [fuel] counts them, and the
    wrappers below start it there. *)
Fixpoint sync_without_have_fuel (fuel : nat) (j : Job) (target_definition : DiskTargetDefinition)
    (source_path target_path : string) (current_depth : nat) {struct fuel} : M unit :=
  if Nat.leb (max_depth j) current_depth then emit (EDepthWarning (max_depth j))
  else
    match fuel with
    | O => ret tt
    | S fuel' =>
        let dir_name := last_component (rstrip_slash target_path) in
        created_dir_info <- create_directory j target_definition dir_name ;;
        match created_dir_info with
        | None => add_error ("创建目录失败: " ^^ target_path)
        | Some info =>
            incr_folder_created ;;
            record_task_item j "create" (VStr source_path) (VStr target_path) (VStr dir_name)
              (VInt 0) "completed" None ;;
            target_definition' <- lift_res (new_DiskTargetDefinition target_path
                                              (bfi_file_id info)) ;;
            listed <- scan_source j source_path ;;
            match listed with
            | None => ret tt
            | Some source_file_map =>
                files_to_transfer <-
                  foldM (without_have_item j (sync_without_have_fuel fuel' j)
                           target_definition' source_path target_path current_depth)
                    source_file_map [] ;;
                without_have_tail j target_definition' target_path files_to_transfer
            end
        end
    end.

Fixpoint sync_with_have_fuel (fuel : nat) (j : Job) (target_definition : DiskTargetDefinition)
    (source_path target_path : string) (target_id : pyval) (current_depth : nat)
    {struct fuel} : M unit :=
  if Nat.leb (max_depth j) current_depth then emit (EDepthWarning (max_depth j))
  else
    match fuel with
    | O => ret tt
    | S fuel' =>
        listed <- scan_both j source_path target_path target_id ;;
        match listed with
        | None => ret tt
        | Some (source_file_map, target_file_map) =>
            files_to_transfer <-
              foldM (with_have_item j (sync_with_have_fuel fuel' j)
                       (sync_without_have_fuel fuel' j) target_definition source_path
                       target_path current_depth target_file_map)
                source_file_map [] ;;
            with_have_tail j target_definition target_path source_file_map target_file_map
              files_to_transfer
        end
    end.

Definition sync_with_have (j : Job) (target_definition : DiskTargetDefinition)
    (source_path target_path : string) (target_id : pyval) (current_depth : nat) : M unit :=
  sync_with_have_fuel (max_depth j - current_depth) j target_definition source_path
    target_path target_id current_depth.

Definition sync_without_have (j : Job) (target_definition : DiskTargetDefinition)
    (source_path target_path : string) (current_depth : nat) : M unit :=
  sync_without_have_fuel (max_depth j - current_depth) j target_definition source_path
    target_path current_depth.

(** *** [_handle_overwrite_sync] *)

Definition _handle_overwrite_sync (j : Job) (target_definition : DiskTargetDefinition) : M unit :=
  try_except
    (target_file_map <- list_dir j (dtd_file_path target_definition) false
                          (VStr (dtd_file_id target_definition)) ;;
     match target_file_map with
     | [] => ret tt
     | _ :: _ =>
         let files_to_delete :=
           map (fun kv =>
                  mkDeleteInfo (fst kv) (dict_get_default (snd kv) "file_size" (VInt 0))
                    (dtd_file_path target_definition)
                    (dict_get_default (snd kv) "file_id" (VStr "")))
             target_file_map in
         delete_files j target_definition files_to_delete ;; ret tt
     end ;;
     source_file_map <- list_dir j (ssd_file_path (source_definition j)) true VNone ;;
     match source_file_map with
     | [] => ret tt
     | _ :: _ =>
         all_files_to_transfer <-
           foldM (fun acc kv =>
                    incr_files_processed ;;
                    ret (acc ++ [make_transfer_file_info (fst kv)
                                   (dict_get_default (snd kv) "file_size" (VInt 0))
                                   (ssd_file_path (source_definition j))
                                   (dtd_file_path target_definition) (snd kv)]))
             source_file_map [] ;;
         transfer_collected j target_definition (dtd_file_path target_definition)
           all_files_to_transfer ;;
         ret tt
     end)
    (fun e => add_error ("覆盖同步失败: " ^^ e)).

(** *** [perform_sync] *)

(** The strategy chosen by [perform_sync], inside its [try]. *)
Definition perform_sync_body (j : Job) (target_definition : DiskTargetDefinition) : M unit :=
  try_except
    (if String.eqb (sync_method j) "overwrite"
     then _handle_overwrite_sync j target_definition
     else sync_with_have j target_definition (ssd_file_path (source_definition j))
            (dtd_file_path target_definition) (VStr (dtd_file_id target_definition)) 0)
    (fun e => add_error ("同步失败: " ^^ e)).

(** [perform_sync] starts from fresh [stats]; the result is read off the
    [stats] the body leaves. *)
Definition perform_sync (j : Job) (target_definition : DiskTargetDefinition) (w : W)
    : SyncResult * St :=
  let s := snd (perform_sync_body j target_definition (mkSt w empty_stats [])) in
  (mkSyncResult (Nat.eqb (length (errors (stats s))) 0) (stats s) (hd_error (errors (stats s))),
   s).

(** *** [execute_sync_by_config_id] *)

(** [method_str.lower() if method_str else ""] *)
Definition method_lower_of (method_str : option string) : string :=
  match method_str with
  | Some m => if String.eqb m "" then "" else str_lower m
  | None => ""
  end.

Definition _parse_sync_method (method_str : option string) : string :=
  let method_lower := method_lower_of method_str in
  if String.eqb method_lower SyncMethod_INCREMENTAL then SyncMethod_INCREMENTAL
  else if String.eqb method_lower SyncMethod_FULL then SyncMethod_FULL
  else if String.eqb method_lower SyncMethod_OVERWRITE then SyncMethod_OVERWRITE
  else SyncMethod_INCREMENTAL.

Definition _parse_recursion_speed (speed_value : Z) : RecursionSpeed :=
  if Z.eqb speed_value 1 then SLOW
  else if Z.eqb speed_value 2 then FAST
  else NORMAL.

(** [str | dict] fields of the two definitions built from the metadata. *)
Definition as_dict (model field : string) (v : pyval) : res (dict pyval) :=
  match v with
  | VDict d => Ok d
  | _ => Raise (validation_error model field "Input should be a valid dictionary")
  end.

Definition build_definitions (config : SyncConfig)
    : res (ShareSourceDefinition * DiskTargetDefinition) :=
  match as_str "ShareSourceDefinition" "source_type"
          (dict_get_default (cfg_src_meta config) "source_type" (VStr "")) with
  | Raise e => Raise e
  | Ok source_type =>
  match as_str "ShareSourceDefinition" "source_id"
          (dict_get_default (cfg_src_meta config) "source_id" (VStr "")) with
  | Raise e => Raise e
  | Ok source_id =>
  match as_dict "ShareSourceDefinition" "ext_params"
          (dict_get_default (cfg_src_meta config) "ext_params" (VDict [])) with
  | Raise e => Raise e
  | Ok ext_params =>
  match new_ShareSourceDefinition (cfg_src_path config) source_type source_id ext_params with
  | Raise e => Raise e
  | Ok sd =>
  match as_str "DiskTargetDefinition" "file_id"
          (dict_get_default (cfg_dst_meta config) "file_id" (VStr "")) with
  | Raise e => Raise e
  | Ok file_id =>
  match new_DiskTargetDefinition (cfg_dst_path config) file_id with
  | Raise e => Raise e
  | Ok td => Ok (sd, td)
  end end end end end end.

(** The job of [execute_sync_by_config_id] from the point where the task row
    exists and [last_sync] is written (lines 136 to 240): the configuration is
    parsed, [perform_sync] runs, and the task row gets its final status.  The
    rows read before that point are arguments: the configuration, the
    account's cookies and provider, the task id, and the two results of
    [parse_rule_templates], the exclusion rules as the filter [perform_sync]
    compiles from them.  An exception on the way is caught by the outer
    handler, which returns without touching the task row. *)
Definition execute_sync_by_config_id (config : SyncConfig) (cookies : string)
    (account_type : DriveType) (exclude_filter : option (BaseFileInfo -> bool))
    (rename_rules : option (list RenameRuleDefinition)) (task : Z) (w : W)
    : ExecResult * W * list event :=
  let sync_method := _parse_sync_method (cfg_method config) in
  let recursion_speed := _parse_recursion_speed (cfg_speed config) in
  match build_definitions config with
  | Raise e =>
      (mkExecResult false (Some ("执行同步任务时发生异常: " ^^ e)) None None, w, [])
  | Ok (source_definition, target_definition) =>
      let j := mkJob cookies account_type source_definition sync_method recursion_speed
                 exclude_filter 100 (Some task) true in
      let '(sync_result, s) := perform_sync j target_definition w in
      if sr_success sync_result then
        (mkExecResult true None (Some (sr_stats sync_result))
           (Some (mkUpdateSyncTaskParam "completed" None (sr_stats sync_result))),
         world s, trace s)
      else
        let error_msg := sr_error sync_result in
        (mkExecResult false error_msg (Some (sr_stats sync_result))
           (Some (mkUpdateSyncTaskParam "failed" error_msg (sr_stats sync_result))),
         world s, trace s)
  end.

(** ** Notions the properties are stated with *)

(** The state a call at or beyond the depth limit leaves: the warning is
    logged and nothing else changes. *)
Definition warned (j : Job) (s : St) : St :=
  mkSt (world s) (stats s) (trace s ++ [EDepthWarning (max_depth j)]).

(** [sync_with_have] up to the end of its loop, recursive calls included:
    the listings and what the loop collected, or [None] when a listing
    failed. *)
Definition with_have_until_tail (fuel' : nat) (j : Job)
    (target_definition : DiskTargetDefinition) (source_path target_path : string)
    (target_id : pyval) (current_depth : nat)
    : M (option (dict (dict pyval) * dict (dict pyval) * list (dict pyval))) :=
  listed <- scan_both j source_path target_path target_id ;;
  match listed with
  | None => ret None
  | Some (source_file_map, target_file_map) =>
      files_to_transfer <-
        foldM (with_have_item j (sync_with_have_fuel fuel' j)
                 (sync_without_have_fuel fuel' j) target_definition source_path
                 target_path current_depth target_file_map)
          source_file_map [] ;;
      ret (Some (source_file_map, target_file_map, files_to_transfer))
  end.

(** [sync_without_have] up to the end of its loop, recursive calls
    included: the refreshed target definition and what the loop collected,
    or [None] when the directory could not be created or listed. *)
Definition without_have_until_tail (fuel' : nat) (j : Job)
    (target_definition : DiskTargetDefinition) (source_path target_path : string)
    (current_depth : nat) : M (option (DiskTargetDefinition * list (dict pyval))) :=
  let dir_name := last_component (rstrip_slash target_path) in
  created_dir_info <- create_directory j target_definition dir_name ;;
  match created_dir_info with
  | None => add_error ("创建目录失败: " ^^ target_path) ;; ret None
  | Some info =>
      incr_folder_created ;;
      record_task_item j "create" (VStr source_path) (VStr target_path) (VStr dir_name)
        (VInt 0) "completed" None ;;
      target_definition' <- lift_res (new_DiskTargetDefinition target_path
                                        (bfi_file_id info)) ;;
      listed <- scan_source j source_path ;;
      match listed with
      | None => ret None
      | Some source_file_map =>
          files_to_transfer <-
            foldM (without_have_item j (sync_without_have_fuel fuel' j)
                     target_definition' source_path target_path current_depth)
              source_file_map [] ;;
          ret (Some (target_definition', files_to_transfer))
      end
  end.

(** [at_most c k m]: a run of [m] adds at most [k] events of kind [c]. *)
Definition at_most (c : event -> bool) (k : nat) {A} (m : M A) : Prop :=
  forall s, exists t, trace (snd (m s)) = trace s ++ t /\ length (filter c t) <= k.

(** A target that holds what the source holds, as far down as [levels]
    levels: both listings succeed and leave the provider as it is, every
    source file has a target entry of its name and size, and every source
    folder has a target entry under which the same holds. *)
Fixpoint Mirrors (levels : nat) (j : Job) (w : W) (source_path target_path : string)
    (target_id : pyval) : Prop :=
  match levels with
  | O => True
  | S levels' =>
      exists source_files target_files fid,
        get_share_list dm (x_token j)
          (mkListShareFilesParam (drive_type j) (ssd_source_type (source_definition j))
             (ssd_source_id (source_definition j)) source_path) w
          = (Ok source_files, w) /\
        as_str "ListFilesParam" "file_id" (or_empty target_id) = Ok fid /\
        get_disk_list dm (x_token j) (mkListFilesParam (drive_type j) target_path fid) w
          = (Ok target_files, w) /\
        let target_file_map := build_file_map (item_filter j) false target_files in
        Forall
          (fun item : string * dict pyval =>
             if endswith_slash (fst item) then
               dict_mem target_file_map (fst item) = true /\
               Mirrors levels' j w (sub_path source_path (rstrip_slash (fst item)))
                 (sub_path target_path (rstrip_slash (fst item)))
                 (dict_get_default (dict_get_default target_file_map (fst item) [])
                    "file_id" (VStr ""))
             else needs_transfer target_file_map (fst item) (snd item) = false)
          (build_file_map (item_filter j) true source_files)
  end.

(** The relation between the states before and after a run that changed
    nothing on the provider: no folder created, nothing transferred or
    deleted, no error, every file that was processed was skipped, and no
    [mkdir], [transfer] or [remove] was called. *)
Definition quiet_step (s s' : St) : Prop :=
  world s' = world s /\
  folder_created (stats s') = folder_created (stats s) /\
  files_transferred (stats s') = files_transferred (stats s) /\
  files_deleted (stats s') = files_deleted (stats s) /\
  errors (stats s') = errors (stats s) /\
  files_skipped (stats s') + files_processed (stats s)
    = files_skipped (stats s) + files_processed (stats s') /\
  exists t, trace s' = trace s ++ t /\ forallb (fun e => negb (is_mutation e)) t = true.

(** [appends P s s']: from [s] to [s'] the trace only grew, by events that
    satisfy [P]; [keeps P m]: every run of [m] does that. *)
Definition appends (P : event -> bool) (s s' : St) : Prop :=
  exists t, trace s' = trace s ++ t /\ forallb P t = true.

Definition keeps (P : event -> bool) {A} (m : M A) : Prop :=
  forall s, appends P s (snd (m s)).

Definition any_event : event -> bool := fun _ => true.

(** [starts_with e m]: whatever the state, the first thing [m] adds to the
    trace is [e]. *)
Definition starts_with (e : event) {A} (m : M A) : Prop :=
  forall s, exists t, trace (snd (m s)) = trace s ++ e :: t.

(** The [file_id] of one entry of [files_ext_info]. *)
Definition ext_info_file_id (v : pyval) : pyval :=
  match v with
  | VDict d => dict_get_default d "file_id" VNone
  | _ => VNone
  end.

(** The token correspondence of a batched transfer: [ext["files_ext_info"]]
    is a list as long as [file_ids] whose entry [i] has the [file_id]
    [file_ids[i]]. *)
Definition token_correspondence (p : TransferParam) : Prop :=
  exists file_ids files_ext_info,
    tp_file_ids p = Some file_ids /\
    dict_get (tp_ext p) "files_ext_info" = Some (VList files_ext_info) /\
    map ext_info_file_id files_ext_info = file_ids.

(** ** Notions for the counters of a job *)

(** [l'] continues [l]. *)
Definition prefix_of {A} (l l' : list A) : Prop := exists t, l' = l ++ t.

(** No counter of [st'] is below its value in [st], and the errors of [st]
    are still there, in place, at the head of those of [st']. *)
Definition stats_grow (st st' : Stats) : Prop :=
  files_processed st <= files_processed st' /\
  folder_created st <= folder_created st' /\
  files_transferred st <= files_transferred st' /\
  files_deleted st <= files_deleted st' /\
  files_skipped st <= files_skipped st' /\
  prefix_of (errors st) (errors st').

(** The files counted as processed that are neither counted as transferred
    nor as skipped. *)
Definition unaccounted (st : Stats) : Z :=
  (Z.of_nat (files_processed st) - Z.of_nat (files_transferred st)
   - Z.of_nat (files_skipped st))%Z.

(** [accounts pending pend m]: a run of [m] that starts with [pending] files
    collected but not yet transferred and returns [a] with [pend a] such
    files only lets the statistics grow, never leaves fewer files
    unaccounted than are pending, and leaves exactly the pending ones
    unaccounted when it records no error. *)
Definition accounts {A} (pending : Z) (pend : A -> Z) (m : M A) : Prop :=
  forall s,
    stats_grow (stats s) (stats (snd (m s))) /\
    match fst (m s) with
    | Ok a =>
        (unaccounted (stats s) - pending <= unaccounted (stats (snd (m s))) - pend a)%Z /\
        (errors (stats (snd (m s))) = errors (stats s) ->
         unaccounted (stats (snd (m s))) - pend a = unaccounted (stats s) - pending)%Z
    | Raise _ =>
        (unaccounted (stats s) - pending <= unaccounted (stats (snd (m s))))%Z
    end.

(** [silent m]: a run of [m] leaves the statistics as they are. *)
Definition silent {A} (m : M A) : Prop := forall s, stats (snd (m s)) = stats s.

(** [adds_error pend m]: a run of [m] records at least one more error and
    changes nothing else of the statistics; what it returns has nothing
    pending. *)
Definition adds_error {A} (pend : A -> Z) (m : M A) : Prop :=
  forall s,
    (exists msg rest, errors (stats (snd (m s))) = errors (stats s) ++ msg :: rest) /\
    files_processed (stats (snd (m s))) = files_processed (stats s) /\
    folder_created (stats (snd (m s))) = folder_created (stats s) /\
    files_transferred (stats (snd (m s))) = files_transferred (stats s) /\
    files_deleted (stats (snd (m s))) = files_deleted (stats s) /\
    files_skipped (stats (snd (m s))) = files_skipped (stats s) /\
    match fst (m s) with
    | Ok a => pend a = 0%Z
    | Raise _ => True
    end.

(** The number of files a pending list holds. *)
Definition pending_of (files : list (dict pyval)) : Z := Z.of_nat (length files).

(** [steady m]: [accounts] with nothing pending before or after. *)
Definition steady {A} (m : M A) : Prop := accounts 0 (fun _ => 0%Z) m.

(** ** Notions for the listings *)

(** [item_filter and item_filter.should_exclude(file)] *)
Definition excluded (flt : option (BaseFileInfo -> bool)) (file : BaseFileInfo) : bool :=
  match flt with Some f => f file | None => false end.

(** The key [list_dir] files an entry under: a folder's name gets a final
    slash. *)
Definition entry_key (file : BaseFileInfo) : string :=
  if bfi_is_folder file then bfi_file_name file ^^ "/" else bfi_file_name file.

(** The dictionary [list_dir] stores for an entry. *)
Definition entry_info (is_src : bool) (file : BaseFileInfo) : dict pyval :=
  let file_size :=
    if bfi_is_folder file then VInt 0
    else match bfi_file_size file with Some z => VInt z | None => VNone end in
  let file_info := [("file_size", file_size); ("file_id", VStr (bfi_file_id file))] in
  if (is_src && match bfi_file_ext file with [] => false | _ => true end)%bool
  then dict_update file_info (bfi_file_ext file)
  else file_info.

(** An event that is a call on the provider. *)
Definition is_call (e : event) : bool := is_listing e || is_mutation e.

(** [s] with one more error. *)
Definition with_error (msg : string) (s : St) : St :=
  mkSt (world s)
    (mkStats (files_processed (stats s)) (folder_created (stats s))
       (files_transferred (stats s)) (files_deleted (stats s)) (files_skipped (stats s))
       (errors (stats s) ++ [msg]))
    (trace s).

Definition is_share_listing (e : event) : bool :=
  match e with EGetShareList _ => true | _ => false end.

Definition is_disk_listing (e : event) : bool :=
  match e with EGetDiskList _ => true | _ => false end.

(** ** The diff of a level as the specification words it *)

(** An entry of a listing map that is a file: its key has no final slash. *)
Definition is_file_entry (kv : string * dict pyval) : bool := negb (endswith_slash (fst kv)).

(** [f ∉ T ∨ T[f].size ≠ S[f].size], for an entry [f] of the source map [S]
    and the target map [T]; the sizes are the [file_size] of the two
    entries, compared with Python's [==]. *)
Definition spec_collects (target_file_map : dict (dict pyval)) (kv : string * dict pyval)
    : bool :=
  match dict_get target_file_map (fst kv) with
  | None => true
  | Some target_file_info =>
      negb (py_eqb (dict_get_default target_file_info "file_size" (VInt (-1)))
                   (dict_get_default (snd kv) "file_size" (VInt 0)))
  end.

(** [filesToTransfer = { f ∈ S.files : f ∉ T ∨ T[f].size ≠ S[f].size }], in
    the order of the listing, and the rest of [S.files]. *)
Definition spec_files_to_transfer (source_file_map target_file_map : dict (dict pyval))
    : list (string * dict pyval) :=
  filter (fun kv => is_file_entry kv && spec_collects target_file_map kv)%bool source_file_map.

Definition spec_files_skipped (source_file_map target_file_map : dict (dict pyval))
    : list (string * dict pyval) :=
  filter (fun kv => is_file_entry kv && negb (spec_collects target_file_map kv))%bool
    source_file_map.

(** What the loop of a level does with one entry of the source map besides
    collecting: a file is counted as processed, and as skipped when the
    specification does not collect it; a folder is entered, by
    [sync_without_have] when the target has no entry of its name and by
    [sync_with_have] when it has one. *)
Definition with_have_visit (j : Job) (target_definition : DiskTargetDefinition)
    (source_path target_path : string) (current_depth : nat)
    (target_file_map : dict (dict pyval)) (_ : unit) (kv : string * dict pyval) : M unit :=
  if is_file_entry kv then
    incr_files_processed ;;
    (if spec_collects target_file_map kv then ret tt else incr_files_skipped)
  else
    let dir_name := rstrip_slash (fst kv) in
    if negb (dict_mem target_file_map (fst kv)) then
      sync_without_have j target_definition (sub_path source_path dir_name)
        (sub_path target_path dir_name) (current_depth + 1)
    else
      sync_with_have j target_definition (sub_path source_path dir_name)
        (sub_path target_path dir_name)
        (dict_get_default (dict_get_default target_file_map (fst kv) []) "file_id" (VStr ""))
        (current_depth + 1).

(** ** The token correspondence over a run *)

(** The parameters of a transfer follow the list [files]: [file_ids] is the
    list of the [file_id]s of [files], and [ext["files_ext_info"]] is a
    list of the same length whose entries carry those [file_id]s, both in
    the order of [files]. *)
Definition follows_the_list (files : list (dict pyval)) (p : TransferParam) : Prop :=
  tp_file_ids p = Some (map (fun f => dict_get_default f "file_id" (VStr "")) files) /\
  exists files_ext_info,
    dict_get (tp_ext p) "files_ext_info" = Some (VList files_ext_info) /\
    length files_ext_info = length files /\
    map ext_info_file_id files_ext_info
    = map (fun f => dict_get_default f "file_id" (VStr "")) files.

(** Every transfer among the events [t] satisfies the correspondence. *)
Definition transfers_correspond (t : list event) : Prop :=
  forall p, In (ETransferFiles p) t -> token_correspondence p.

(** [corresponds post m]: every transfer a run of [m] issues satisfies the
    correspondence, and a value it returns satisfies [post]. *)
Definition corresponds {A} (post : A -> Prop) (m : M A) : Prop :=
  forall s,
    (exists t, trace (snd (m s)) = trace s ++ t /\ transfers_correspond t) /\
    match fst (m s) with
    | Ok a => post a
    | Raise _ => True
    end.



(** ** Properties of the engine *)

(** *** The trace only grows *)

Lemma appends_refl P s : appends P s s.
Proof. exists []. rewrite app_nil_r. auto. Qed.

Lemma appends_trans P s1 s2 s3 : appends P s1 s2 -> appends P s2 s3 -> appends P s1 s3.
Proof.
  intros [t1 [E1 F1]] [t2 [E2 F2]]. exists (t1 ++ t2). split.
  - rewrite E2, E1, app_assoc. reflexivity.
  - rewrite forallb_app, F1, F2. reflexivity.
Qed.

Lemma keeps_ret P {A} (a : A) : keeps P (ret a).
Proof. intros s. apply appends_refl. Qed.

Lemma keeps_bind P {A B} (m : M A) (f : A -> M B) :
  keeps P m -> (forall a, keeps P (f a)) -> keeps P (bind m f).
Proof.
  intros Hm Hf s. unfold bind. specialize (Hm s).
  destruct (m s) as [[a | e] s1]; simpl in *.
  - eapply appends_trans; [exact Hm | apply Hf].
  - exact Hm.
Qed.

Lemma keeps_try_except P {A} (m : M A) (h : string -> M A) :
  keeps P m -> (forall e, keeps P (h e)) -> keeps P (try_except m h).
Proof.
  intros Hm Hh s. unfold try_except. specialize (Hm s).
  destruct (m s) as [[a | e] s1]; simpl in *.
  - exact Hm.
  - eapply appends_trans; [exact Hm | apply Hh].
Qed.

Lemma keeps_lift_res P {A} (r : res A) : keeps P (lift_res r).
Proof. intros s. apply appends_refl. Qed.

Lemma keeps_get_stats P : keeps P get_stats.
Proof. intros s. apply appends_refl. Qed.

Lemma keeps_modify_stats P f : keeps P (modify_stats f).
Proof. intros s. exists []. simpl. rewrite app_nil_r. auto. Qed.

Lemma keeps_emit P e : P e = true -> keeps P (emit e).
Proof. intros H s. exists [e]. simpl. rewrite H. auto. Qed.

Lemma keeps_call P {A} (op : W -> res A * W) e : P e = true -> keeps P (call op e).
Proof.
  intros H s. unfold call. destruct (op (world s)) as [r w]. exists [e]. simpl.
  rewrite H. auto.
Qed.

Lemma keeps_foldM P {A B} (f : B -> A -> M B) l :
  (forall b x, keeps P (f b x)) -> forall b, keeps P (foldM f l b).
Proof.
  intros Hf. induction l as [| x l IH]; intros b; simpl.
  - apply keeps_ret.
  - apply keeps_bind; [apply Hf | intros; apply IH].
Qed.

Create HintDb keepsdb.

(** Splits a goal [keeps P m] along the structure of [m]; the lemmas proved
    for the pieces of the engine are in [keepsdb]. *)
Ltac keeps_step :=
  first
    [ solve [ auto with keepsdb ]
    | lazymatch goal with
      | |- keeps _ (ret _) => apply keeps_ret
      | |- keeps _ (lift_res _) => apply keeps_lift_res
      | |- keeps _ get_stats => apply keeps_get_stats
      | |- keeps _ (modify_stats _) => apply keeps_modify_stats
      | |- keeps _ (bind _ _) => apply keeps_bind; [| intros ]
      | |- keeps _ (try_except _ _) => apply keeps_try_except; [| intros ]
      | |- keeps _ (foldM _ _ _) => apply keeps_foldM; intros
      | |- keeps _ (emit _) => apply keeps_emit; solve [ auto ]
      | |- keeps _ (call _ _) => apply keeps_call; solve [ auto ]
      | |- keeps _ (match ?x with _ => _ end) => destruct x
      end ].

Ltac keeps_tac := repeat keeps_step.

Section Keeps.

Variable P : event -> bool.
Hypothesis P_share : forall p, P (EGetShareList p) = true.
Hypothesis P_disk : forall p, P (EGetDiskList p) = true.
Hypothesis P_mkdir : forall p, P (ECreateMkdir p) = true.
Hypothesis P_transfer : forall p, P (ETransferFiles p) = true.
Hypothesis P_remove : forall p, P (ERemoveFiles p) = true.
Hypothesis P_sleep : forall n, P (ESleep n) = true.
Hypothesis P_item : forall c, P (ERecordTaskItem c) = true.
Hypothesis P_warning : forall n, P (EDepthWarning n) = true.

Lemma keeps_record_task_item j o a b c d st e :
  keeps P (record_task_item j o a b c d st e).
Proof. unfold record_task_item. keeps_tac. Qed.
#[local] Hint Resolve keeps_record_task_item : keepsdb.

Lemma keeps_list_dir j path is_src tid : keeps P (list_dir j path is_src tid).
Proof. unfold list_dir. keeps_tac. Qed.
#[local] Hint Resolve keeps_list_dir : keepsdb.

Lemma keeps_record_copy_items j st e files : keeps P (record_copy_items j st e files).
Proof. unfold record_copy_items, record_copy_item. keeps_tac. Qed.
#[local] Hint Resolve keeps_record_copy_items : keepsdb.

Lemma keeps_transfer_files j td files : keeps P (transfer_files j td files).
Proof.
  unfold transfer_files, add_error, add_files_transferred, sleep, record_copy_item.
  keeps_tac.
Qed.
#[local] Hint Resolve keeps_transfer_files : keepsdb.

Lemma keeps_record_delete_items j st e files : keeps P (record_delete_items j st e files).
Proof. unfold record_delete_items. keeps_tac. Qed.
#[local] Hint Resolve keeps_record_delete_items : keepsdb.

Lemma keeps_delete_files j td files : keeps P (delete_files j td files).
Proof. unfold delete_files, add_error, add_files_deleted, sleep. keeps_tac. Qed.
#[local] Hint Resolve keeps_delete_files : keepsdb.

Lemma keeps_create_directory j td name : keeps P (create_directory j td name).
Proof. unfold create_directory. keeps_tac. Qed.
#[local] Hint Resolve keeps_create_directory : keepsdb.

Lemma keeps_handle_transfer_error j path : keeps P (_handle_transfer_error j path).
Proof. unfold _handle_transfer_error, add_error, sleep. keeps_tac. Qed.
#[local] Hint Resolve keeps_handle_transfer_error : keepsdb.

Lemma keeps_transfer_collected j td path files : keeps P (transfer_collected j td path files).
Proof. unfold transfer_collected. keeps_tac. Qed.
#[local] Hint Resolve keeps_transfer_collected : keepsdb.

Lemma keeps_without_have_tail j td path files : keeps P (without_have_tail j td path files).
Proof. unfold without_have_tail. keeps_tac. Qed.
#[local] Hint Resolve keeps_without_have_tail : keepsdb.

Lemma keeps_with_have_tail_not_full j td path smap tmap files :
  String.eqb (sync_method j) "full" = false ->
  keeps P (with_have_tail j td path smap tmap files).
Proof. intros H. unfold with_have_tail. rewrite H. keeps_tac. Qed.
#[local] Hint Resolve keeps_with_have_tail_not_full : keepsdb.

Lemma keeps_with_have_tail j td path smap tmap files :
  keeps P (with_have_tail j td path smap tmap files).
Proof. unfold with_have_tail. keeps_tac. Qed.

Lemma keeps_scan_both j sp tp tid : keeps P (scan_both j sp tp tid).
Proof. unfold scan_both, add_error. keeps_tac. Qed.
#[local] Hint Resolve keeps_scan_both : keepsdb.

Lemma keeps_scan_source j sp : keeps P (scan_source j sp).
Proof. unfold scan_source, add_error. keeps_tac. Qed.
#[local] Hint Resolve keeps_scan_source : keepsdb.

Lemma keeps_sync_without_have_fuel fuel :
  forall j td sp tp d, keeps P (sync_without_have_fuel fuel j td sp tp d).
Proof.
  induction fuel as [| fuel IH]; intros j td sp tp d; simpl.
  - keeps_tac.
  - unfold add_error, incr_folder_created. keeps_tac.
    unfold without_have_item, incr_files_processed. keeps_tac.
Qed.
#[local] Hint Resolve keeps_sync_without_have_fuel : keepsdb.

Lemma keeps_sync_with_have_fuel_not_full fuel :
  forall j td sp tp tid d,
    String.eqb (sync_method j) "full" = false ->
    keeps P (sync_with_have_fuel fuel j td sp tp tid d).
Proof.
  induction fuel as [| fuel IH]; intros j td sp tp tid d H; simpl.
  - keeps_tac.
  - keeps_tac.
    unfold with_have_item, incr_files_processed, incr_files_skipped. keeps_tac.
Qed.

Lemma keeps_sync_with_have_fuel fuel :
  forall j td sp tp tid d, keeps P (sync_with_have_fuel fuel j td sp tp tid d).
Proof.
  induction fuel as [| fuel IH]; intros j td sp tp tid d; simpl.
  - keeps_tac.
  - keeps_tac; try apply keeps_with_have_tail.
    unfold with_have_item, incr_files_processed, incr_files_skipped. keeps_tac.
Qed.

End Keeps.

(** Every computation of the engine only appends to the trace. *)
Ltac by_keeps L := intros; apply L; intros; reflexivity.

Lemma any_list_dir j path is_src tid : keeps any_event (list_dir j path is_src tid).
Proof. by_keeps keeps_list_dir. Qed.

Lemma any_scan_both j sp tp tid : keeps any_event (scan_both j sp tp tid).
Proof. by_keeps keeps_scan_both. Qed.

Lemma any_scan_source j sp : keeps any_event (scan_source j sp).
Proof. by_keeps keeps_scan_source. Qed.

Lemma any_record_task_item j o a b c d st e :
  keeps any_event (record_task_item j o a b c d st e).
Proof. by_keeps keeps_record_task_item. Qed.

Lemma any_create_directory j td name : keeps any_event (create_directory j td name).
Proof. by_keeps keeps_create_directory. Qed.

Lemma any_transfer_files j td files : keeps any_event (transfer_files j td files).
Proof. by_keeps keeps_transfer_files. Qed.

Lemma any_delete_files j td files : keeps any_event (delete_files j td files).
Proof. by_keeps keeps_delete_files. Qed.

Lemma any_handle_transfer_error j path : keeps any_event (_handle_transfer_error j path).
Proof. by_keeps keeps_handle_transfer_error. Qed.

Lemma any_transfer_collected j td path files :
  keeps any_event (transfer_collected j td path files).
Proof. by_keeps keeps_transfer_collected. Qed.

Lemma any_with_have_tail j td path smap tmap files :
  keeps any_event (with_have_tail j td path smap tmap files).
Proof. by_keeps keeps_with_have_tail. Qed.

Lemma any_without_have_tail j td path files :
  keeps any_event (without_have_tail j td path files).
Proof. by_keeps keeps_without_have_tail. Qed.

Lemma any_sync_without_have_fuel fuel j td sp tp d :
  keeps any_event (sync_without_have_fuel fuel j td sp tp d).
Proof. by_keeps keeps_sync_without_have_fuel. Qed.

Lemma any_sync_with_have_fuel fuel j td sp tp tid d :
  keeps any_event (sync_with_have_fuel fuel j td sp tp tid d).
Proof. by_keeps keeps_sync_with_have_fuel. Qed.

#[local] Hint Resolve any_list_dir any_scan_both any_scan_source any_record_task_item
  any_create_directory any_transfer_files any_delete_files any_handle_transfer_error
  any_transfer_collected any_with_have_tail any_without_have_tail
  any_sync_without_have_fuel any_sync_with_have_fuel : keepsdb.

(** Closes a goal [keeps any_event m] for a piece [m] of the engine. *)
Ltac keeps_all :=
  intros;
  unfold with_have_item, without_have_item, add_error, incr_folder_created,
    incr_files_processed, incr_files_skipped, sleep;
  keeps_tac.

(** *** The first event of a computation *)

Lemma starts_call e {A} (op : W -> res A * W) : starts_with e (call op e).
Proof.
  intros s. unfold call. destruct (op (world s)) as [r w]. exists []. reflexivity.
Qed.

Lemma starts_emit e : starts_with e (emit e).
Proof. intros s. exists []. reflexivity. Qed.

Lemma starts_bind e {A B} (m : M A) (f : A -> M B) :
  starts_with e m -> (forall a, keeps any_event (f a)) -> starts_with e (bind m f).
Proof.
  intros Hm Hf s. unfold bind. destruct (Hm s) as [t Et].
  destruct (m s) as [[a | x] s1]; simpl in *.
  - destruct (Hf a s1) as [t' [Et' _]]. exists (t ++ t').
    rewrite Et', Et, <- app_assoc. reflexivity.
  - exists t. exact Et.
Qed.

Lemma starts_try_except e {A} (m : M A) (h : string -> M A) :
  starts_with e m -> (forall x, keeps any_event (h x)) ->
  starts_with e (try_except m h).
Proof.
  intros Hm Hh s. unfold try_except. destruct (Hm s) as [t Et].
  destruct (m s) as [[a | x] s1]; simpl in *.
  - exists t. exact Et.
  - destruct (Hh x s1) as [t' [Et' _]]. exists (t ++ t').
    rewrite Et', Et, <- app_assoc. reflexivity.
Qed.

(** *** The depth limit *)

(** C9 (as amended).  A call of [sync_with_have] or [sync_without_have] at
    recursion depth [max_depth] or deeper does nothing but log the warning:
    the provider, the counters and [Stats.errors] are left as they are, so a
    directory reached at depth exactly [max_depth] is not processed. *)
Theorem depth_limit_stops_silently j td sp tp tid current_depth s :
  max_depth j <= current_depth ->
  sync_with_have j td sp tp tid current_depth s = (Ok tt, warned j s) /\
  sync_without_have j td sp tp current_depth s = (Ok tt, warned j s).
Proof.
  intros H. unfold sync_with_have, sync_without_have.
  replace (max_depth j - current_depth) with 0 by lia. simpl.
  apply Nat.leb_le in H. rewrite H. split; reflexivity.
Qed.

(** Below the limit the directory is processed: the first thing
    [sync_with_have] does is to list the source directory. *)
Lemma below_depth_limit_lists_source j td sp tp tid current_depth :
  current_depth < max_depth j ->
  starts_with
    (EGetShareList (mkListShareFilesParam (drive_type j)
                      (ssd_source_type (source_definition j))
                      (ssd_source_id (source_definition j)) sp))
    (sync_with_have j td sp tp tid current_depth).
Proof.
  intros H. unfold sync_with_have.
  destruct (max_depth j - current_depth) as [| fuel] eqn:E; [lia |].
  simpl. assert (L : Nat.leb (max_depth j) current_depth = false) by (apply Nat.leb_gt; lia).
  rewrite L. apply starts_bind; [| keeps_all].
  unfold scan_both. apply starts_try_except; [| keeps_all].
  apply starts_bind; [| keeps_all].
  unfold list_dir. apply starts_bind; [| keeps_all].
  apply starts_call.
Qed.

(** *** The method of a job *)

Lemma parse_sync_method_default method_str :
  method_lower_of method_str <> "incremental" ->
  method_lower_of method_str <> "full" ->
  method_lower_of method_str <> "overwrite" ->
  _parse_sync_method method_str = "incremental".
Proof.
  intros H1 H2 H3. unfold _parse_sync_method, SyncMethod_INCREMENTAL, SyncMethod_FULL,
    SyncMethod_OVERWRITE.
  apply String.eqb_neq in H1, H2, H3. rewrite H1, H2, H3. reflexivity.
Qed.

Lemma no_remove_in_incremental_sync j td w :
  sync_method j = "incremental" ->
  forallb (fun e => negb (is_remove e)) (trace (snd (perform_sync j td w))) = true.
Proof.
  intros Hm. unfold perform_sync. simpl.
  assert (K : keeps (fun e => negb (is_remove e)) (perform_sync_body j td)).
  { unfold perform_sync_body, add_error. rewrite Hm. simpl.
    apply keeps_try_except; [| intros; keeps_tac].
    unfold sync_with_have. apply keeps_sync_with_have_fuel_not_full; intros;
      try reflexivity. rewrite Hm. reflexivity. }
  destruct (K (mkSt w empty_stats [])) as [t [Et Ft]]. rewrite Et. exact Ft.
Qed.

(** C10.  A method string that is none of [incremental], [full] and
    [overwrite] in any letter case (the empty string and null included) is
    parsed as [incremental], and a job run for a configuration with such a
    method calls no [remove] on the provider. *)
Theorem unknown_method_is_incremental_and_never_deletes method_str :
  method_lower_of method_str <> "incremental" ->
  method_lower_of method_str <> "full" ->
  method_lower_of method_str <> "overwrite" ->
  _parse_sync_method method_str = "incremental" /\
  forall config cookies account_type exclude_filter rename_rules task w,
    cfg_method config = method_str ->
    forallb (fun e => negb (is_remove e))
      (snd (execute_sync_by_config_id config cookies account_type exclude_filter
              rename_rules task w)) = true.
Proof.
  intros H1 H2 H3. pose proof (parse_sync_method_default _ H1 H2 H3) as Hp.
  split; [exact Hp |].
  intros config cookies ty flt rr task w Hc. unfold execute_sync_by_config_id.
  rewrite Hc, Hp. destruct (build_definitions config) as [[sd td] | e]; [| reflexivity].
  match goal with
  | |- context [perform_sync ?j ?td ?w] =>
      pose proof (no_remove_in_incremental_sync j td w eq_refl) as N;
      destruct (perform_sync j td w) as [r s]
  end.
  simpl in N. destruct (sr_success r); exact N.
Qed.

(** *** The status of the task *)

Lemma perform_sync_result j td w :
  let r := fst (perform_sync j td w) in
  let errs := errors (stats (snd (perform_sync j td w))) in
  sr_stats r = stats (snd (perform_sync j td w)) /\
  (sr_success r = true <-> errs = []) /\
  sr_error r = hd_error errs.
Proof.
  unfold perform_sync. simpl. repeat split.
  - intros H. apply Nat.eqb_eq in H. apply length_zero_iff_nil. exact H.
  - intros H. rewrite H. reflexivity.
Qed.

(** C5.  When the configuration yields valid source and target definitions,
    so that [perform_sync] runs, the task row is updated to [completed]
    exactly when [Stats.errors] is empty at the end of [perform_sync];
    otherwise it is updated to [failed] with the first collected error as
    [err_msg], whatever was transferred or deleted before. *)
Theorem task_status_follows_errors config cookies account_type exclude_filter rename_rules
    task w source_definition target_definition :
  build_definitions config = Ok (source_definition, target_definition) ->
  let j := mkJob cookies account_type source_definition
             (_parse_sync_method (cfg_method config))
             (_parse_recursion_speed (cfg_speed config)) exclude_filter 100 (Some task) true in
  let errs := errors (stats (snd (perform_sync j target_definition w))) in
  let r := fst (fst (execute_sync_by_config_id config cookies account_type exclude_filter
                       rename_rules task w)) in
  exists u,
    er_task_update r = Some u /\
    utp_task_num u = stats (snd (perform_sync j target_definition w)) /\
    (utp_status u = "completed" <-> errs = []) /\
    (errs = [] -> utp_err_msg u = None /\ er_success r = true) /\
    (errs <> [] ->
     utp_status u = "failed" /\ utp_err_msg u = hd_error errs /\ er_success r = false).
Proof.
  intros Hb j errs r. subst r errs. unfold execute_sync_by_config_id. rewrite Hb. fold j.
  pose proof (perform_sync_result j target_definition w) as [Hs [Hok He]].
  destruct (perform_sync j target_definition w) as [res s] eqn:E. simpl in *.
  destruct (sr_success res) eqn:S; simpl; eexists; (split; [reflexivity |]); simpl.
  - assert (N : errors (stats s) = []) by (apply Hok; reflexivity).
    repeat split; auto; try (intros; congruence).
  - assert (N : errors (stats s) <> []).
    { intros C. apply Hok in C. congruence. }
    repeat split; auto; try (intros; congruence); try (intros; discriminate).
Qed.

(** *** The decision on one source file *)

Lemma needs_transfer_spec tmap name info :
  needs_transfer tmap name info =
  (negb (dict_mem tmap name)
   || negb (py_eqb (dict_get_default (dict_get_default tmap name []) "file_size" (VInt (-1)))
                   (dict_get_default info "file_size" (VInt 0))))%bool.
Proof. reflexivity. Qed.

(** For an entry of the source listing that is a file (its key does not
    end with a slash), one pass of the loop of [sync_with_have] counts the
    file as processed and then either appends it to [files_to_transfer],
    exactly when its name is absent from the target listing or the target
    entry's [file_size] differs from the source entry's, or else adds one to
    [files_skipped]; the provider is not called, and the decision is the
    same for any target listing and source entry that agree on the presence
    of the name and on the two sizes. *)
Lemma file_collected_iff_absent_or_size_differs j rec_with rec_without td sp tp d
    tmap acc name info s :
  endswith_slash name = false ->
  let absent := negb (dict_mem tmap name) in
  let differs :=
    negb (py_eqb (dict_get_default (dict_get_default tmap name []) "file_size" (VInt (-1)))
                 (dict_get_default info "file_size" (VInt 0))) in
  let r := fst (with_have_item j rec_with rec_without td sp tp d tmap acc (name, info) s) in
  let s' := snd (with_have_item j rec_with rec_without td sp tp d tmap acc (name, info) s) in
  world s' = world s /\ trace s' = trace s /\
  files_processed (stats s') = files_processed (stats s) + 1 /\
  (absent || differs = true ->
   r = Ok (acc ++ [make_transfer_file_info name (dict_get_default info "file_size" (VInt 0))
                     sp tp info]) /\
   files_skipped (stats s') = files_skipped (stats s)) /\
  (absent || differs = false ->
   r = Ok acc /\ files_skipped (stats s') = files_skipped (stats s) + 1) /\
  (forall (tmap' : dict (dict pyval)) (info' : dict pyval),
     dict_mem tmap' name = dict_mem tmap name ->
     dict_get_default (dict_get_default tmap' name []) "file_size" (VInt (-1))
     = dict_get_default (dict_get_default tmap name []) "file_size" (VInt (-1)) ->
     dict_get_default info' "file_size" (VInt 0) = dict_get_default info "file_size" (VInt 0) ->
     needs_transfer tmap' name info' = needs_transfer tmap name info).
Proof.
  intros Hf absent differs r s'.
  assert (NI : forall (tmap' : dict (dict pyval)) (info' : dict pyval),
             dict_mem tmap' name = dict_mem tmap name ->
             dict_get_default (dict_get_default tmap' name []) "file_size" (VInt (-1))
             = dict_get_default (dict_get_default tmap name []) "file_size" (VInt (-1)) ->
             dict_get_default info' "file_size" (VInt 0)
             = dict_get_default info "file_size" (VInt 0) ->
             needs_transfer tmap' name info' = needs_transfer tmap name info).
  { intros tmap' info' H1 H2 H3. unfold needs_transfer, dict in *.
    rewrite H1, H2, H3. reflexivity. }
  change (absent || differs)%bool with (needs_transfer tmap name info).
  subst r s'. clear absent differs. unfold with_have_item. rewrite Hf.
  unfold bind, incr_files_processed, incr_files_skipped, modify_stats, ret. simpl.
  destruct (needs_transfer tmap name info); simpl;
    (split; [reflexivity |]); (split; [reflexivity |]); (split; [reflexivity |]);
    (split; [intros; try discriminate; split; reflexivity |]);
    (split; [intros; try discriminate; split; reflexivity |]); exact NI.
Qed.

(** The list the loop of [sync_with_have] hands to the batched transfer is
    made of the files that need a transfer, in the order of the listing,
    whatever the recursive calls on the folders do. *)
Lemma with_have_loop_collects j rec_with rec_without td sp tp d tmap smap :
  forall acc s files s',
    foldM (with_have_item j rec_with rec_without td sp tp d tmap) smap acc s = (Ok files, s') ->
    files =
    acc ++ map (fun kv => make_transfer_file_info (fst kv)
                            (dict_get_default (snd kv) "file_size" (VInt 0)) sp tp (snd kv))
             (filter (fun kv => negb (endswith_slash (fst kv))
                                && needs_transfer tmap (fst kv) (snd kv))%bool smap).
Proof.
  induction smap as [| [name info] smap IH]; intros acc s files s' H; cbn [foldM] in H.
  - unfold ret in H. inversion H. simpl. rewrite app_nil_r. reflexivity.
  - unfold bind in H at 1.
    destruct (with_have_item j rec_with rec_without td sp tp d tmap acc (name, info) s)
      as [[acc' | e] s1] eqn:E; [| discriminate].
    apply IH in H. subst files.
    unfold with_have_item in E. cbn [filter fst snd].
    destruct (endswith_slash name) eqn:F; cbn [negb andb] in *.
    + unfold bind, ret in E.
      match type of E with
      | (match ?x with _ => _ end) = _ => destruct x as [[u | e] s2]
      end; inversion E; subst. reflexivity.
    + unfold bind, incr_files_processed, incr_files_skipped, modify_stats, ret in E.
      simpl in E.
      destruct (needs_transfer tmap name info); simpl in *; inversion E; subst.
      * rewrite <- app_assoc. reflexivity.
      * reflexivity.
Qed.

(** *** Counting the calls of a computation *)

Lemma at_most_weaken c k k' {A} (m : M A) : k <= k' -> at_most c k m -> at_most c k' m.
Proof. intros L H s. destruct (H s) as [t [E C]]. exists t. split; [exact E | lia]. Qed.

Lemma at_most_of_keeps c {A} (m : M A) : keeps (fun e => negb (c e)) m -> at_most c 0 m.
Proof.
  intros K s. destruct (K s) as [t [E F]]. exists t. split; [exact E |].
  assert (N : filter c t = []).
  { clear E. induction t as [| e t IH]; simpl in *; [reflexivity |].
    apply andb_true_iff in F. destruct F as [F1 F2]. apply negb_true_iff in F1.
    rewrite F1. auto. }
  rewrite N. simpl. lia.
Qed.

Lemma at_most_call c {A} (op : W -> res A * W) e : at_most c 1 (call op e).
Proof.
  intros s. unfold call. destruct (op (world s)) as [r w]. exists [e]. split; [reflexivity |].
  simpl. destruct (c e); simpl; lia.
Qed.

Lemma at_most_bind c k1 k2 {A B} (m : M A) (f : A -> M B) :
  at_most c k1 m -> (forall a, at_most c k2 (f a)) -> at_most c (k1 + k2) (bind m f).
Proof.
  intros Hm Hf s. unfold bind. destruct (Hm s) as [t [E C]].
  destruct (m s) as [[a | x] s1]; simpl in *.
  - destruct (Hf a s1) as [t' [E' C']]. exists (t ++ t'). split.
    + rewrite E', E, app_assoc. reflexivity.
    + rewrite filter_app, length_app. lia.
  - exists t. split; [exact E | lia].
Qed.

Lemma at_most_try_except c k1 k2 {A} (m : M A) (h : string -> M A) :
  at_most c k1 m -> (forall x, at_most c k2 (h x)) -> at_most c (k1 + k2) (try_except m h).
Proof.
  intros Hm Hh s. unfold try_except. destruct (Hm s) as [t [E C]].
  destruct (m s) as [[a | x] s1]; simpl in *.
  - exists t. split; [exact E | lia].
  - destruct (Hh x s1) as [t' [E' C']]. exists (t ++ t'). split.
    + rewrite E', E, app_assoc. reflexivity.
    + rewrite filter_app, length_app. lia.
Qed.

(** Closes [at_most c 0 m] for a piece [m] of the engine that does not make
    a call of kind [c]. *)
Ltac no_call L := apply at_most_of_keeps; apply L; intros; reflexivity.

Lemma transfer_files_at_most_one j td files : at_most is_transfer 1 (transfer_files j td files).
Proof.
  unfold transfer_files. destruct files as [| first_file rest].
  - apply at_most_weaken with 0; [lia |]. apply at_most_of_keeps. apply keeps_ret.
  - apply (at_most_try_except is_transfer 1 0).
    + destruct (collect_file_ids (first_file :: rest) []) as [file_info | file_ids].
      * apply at_most_weaken with 0; [lia |]. apply at_most_of_keeps.
        unfold add_error, record_copy_item. keeps_tac.
        apply keeps_record_task_item. intros; reflexivity.
      * apply (at_most_bind is_transfer 0 1).
        { apply at_most_of_keeps. apply keeps_lift_res. }
        intros params. apply (at_most_bind is_transfer 1 0).
        { apply at_most_call. }
        intros result. apply at_most_of_keeps.
        unfold add_files_transferred, add_error, sleep. keeps_tac;
          apply keeps_record_copy_items; intros; reflexivity.
    + intros x. apply at_most_of_keeps. unfold add_error. keeps_tac.
      apply keeps_record_copy_items; intros; reflexivity.
Qed.

Lemma delete_files_at_most_one j td files : at_most is_remove 1 (delete_files j td files).
Proof.
  unfold delete_files. destruct files as [| first_file rest].
  - apply at_most_weaken with 0; [lia |]. apply at_most_of_keeps. apply keeps_ret.
  - apply (at_most_try_except is_remove 1 0).
    + apply (at_most_bind is_remove 0 1).
      { apply at_most_of_keeps. apply keeps_lift_res. }
      intros params. apply (at_most_bind is_remove 1 0).
      { apply at_most_call. }
      intros result. apply at_most_of_keeps.
      unfold add_files_deleted, add_error, sleep. keeps_tac;
        apply keeps_record_delete_items; intros; reflexivity.
    + intros x. apply at_most_of_keeps. unfold add_error. keeps_tac.
      apply keeps_record_delete_items; intros; reflexivity.
Qed.

Lemma transfer_collected_at_most_one j td path files :
  at_most is_transfer 1 (transfer_collected j td path files).
Proof.
  unfold transfer_collected. destruct files as [| f rest].
  - apply at_most_weaken with 0; [lia |]. apply at_most_of_keeps. apply keeps_ret.
  - apply (at_most_bind is_transfer 1 0).
    + apply transfer_files_at_most_one.
    + intros [|]; apply at_most_of_keeps; [apply keeps_ret |].
      apply keeps_handle_transfer_error. intros; reflexivity.
Qed.

(** *** The order of the calls within a level *)

Lemma transfer_collected_phase j td path files s :
  exists t,
    trace (snd (transfer_collected j td path files s)) = trace s ++ t /\ transfer_phase t.
Proof.
  destruct (transfer_collected_at_most_one j td path files s) as [t [E C]].
  assert (K : keeps (fun e => negb (is_listing e || is_mkdir e || is_remove e))
                (transfer_collected j td path files)).
  { apply keeps_transfer_collected; intros; reflexivity. }
  destruct (K s) as [t' [E' F]]. rewrite E in E'. apply app_inv_head in E'. subst t'.
  exists t. split; [exact E |]. split; assumption.
Qed.

Lemma delete_part_phase j td path smap tmap s :
  let m :=
    if String.eqb (sync_method j) "full" then
      match files_to_delete_of smap tmap path with
      | [] => ret tt
      | files_to_delete => bind (delete_files j td files_to_delete) (fun _ => ret tt)
      end
    else ret tt in
  exists t, trace (snd (m s)) = trace s ++ t /\ delete_phase (sync_method j) t.
Proof.
  simpl. destruct (String.eqb (sync_method j) "full") eqn:Hm.
  - destruct (files_to_delete_of smap tmap path) as [| f rest] eqn:Hd.
    + exists []. simpl. rewrite app_nil_r. unfold delete_phase; repeat split; auto; try (intros; congruence); simpl; lia.
    + assert (C : at_most is_remove 1
                    (bind (delete_files j td (f :: rest)) (fun _ => ret tt))).
      { apply (at_most_bind is_remove 1 0); [apply delete_files_at_most_one |].
        intros. apply at_most_of_keeps. apply keeps_ret. }
      assert (K : keeps (fun e => negb (is_listing e || is_mkdir e || is_transfer e))
                    (bind (delete_files j td (f :: rest)) (fun _ => ret tt))).
      { apply keeps_bind; [| intros; apply keeps_ret].
        apply keeps_delete_files; intros; reflexivity. }
      destruct (C s) as [t [E L]]. destruct (K s) as [t' [E' F]].
      rewrite E in E'. apply app_inv_head in E'. subst t'.
      exists t. split; [exact E |]. unfold delete_phase; repeat split; auto; try (intros; congruence); simpl; lia.
  - exists []. simpl. rewrite app_nil_r. unfold delete_phase; repeat split; auto; try (intros; congruence); simpl; lia.
Qed.

Lemma with_have_tail_phases j td path smap tmap files s :
  exists t_transfer t_delete,
    trace (snd (with_have_tail j td path smap tmap files s))
    = trace s ++ t_transfer ++ t_delete /\
    transfer_phase t_transfer /\ delete_phase (sync_method j) t_delete.
Proof.
  unfold with_have_tail. unfold bind at 1.
  destruct (transfer_collected_phase j td path files s) as [t [E Ph]].
  destruct (transfer_collected j td path files s) as [[go_on | e] s1]; simpl in E.
  - destruct go_on.
    + destruct (delete_part_phase j td path smap tmap s1) as [t' [E' Ph']].
      exists t, t'. split; [| split; assumption].
      simpl in E'. rewrite E in E'. rewrite <- app_assoc in E'. exact E'.
    + exists t, []. simpl. rewrite app_nil_r. split; [exact E |]. split; [exact Ph |].
      unfold delete_phase; repeat split; auto; try (intros; congruence); simpl; lia.
  - exists t, []. simpl. rewrite app_nil_r. split; [exact E |]. split; [exact Ph |].
    unfold delete_phase; repeat split; auto; try (intros; congruence); simpl; lia.
Qed.

Lemma with_have_level_order fuel' j td sp tp tid d s :
  Nat.leb (max_depth j) d = false ->
  match with_have_until_tail fuel' j td sp tp tid d s with
  | (Ok (Some (smap, tmap, files)), s1) =>
      exists t_transfer t_delete,
        trace (snd (sync_with_have_fuel (S fuel') j td sp tp tid d s))
        = trace s1 ++ t_transfer ++ t_delete /\
        transfer_phase t_transfer /\ delete_phase (sync_method j) t_delete
  | (_, s1) => snd (sync_with_have_fuel (S fuel') j td sp tp tid d s) = s1
  end.
Proof.
  intros L. cbn [sync_with_have_fuel]. rewrite L. unfold with_have_until_tail.
  unfold bind, ret.
  destruct (scan_both j sp tp tid s) as [[[[smap tmap] |] | e] s0]; cbn [fst snd];
    try reflexivity.
  match goal with
  | |- context [foldM ?f smap [] s0] => destruct (foldM f smap [] s0) as [[files | e] s1]
  end; cbn [fst snd]; try reflexivity.
  apply with_have_tail_phases.
Qed.

Lemma without_have_tail_phase j td path files s :
  exists t,
    trace (snd (without_have_tail j td path files s)) = trace s ++ t /\ transfer_phase t.
Proof.
  unfold without_have_tail. unfold bind.
  destruct (transfer_collected_phase j td path files s) as [t [E Ph]].
  destruct (transfer_collected j td path files s) as [[go_on | e] s1]; simpl in *;
    exists t; split; assumption.
Qed.

Lemma without_have_level_order fuel' j td sp tp d s :
  Nat.leb (max_depth j) d = false ->
  match without_have_until_tail fuel' j td sp tp d s with
  | (Ok (Some (td', files)), s1) =>
      exists t_transfer,
        trace (snd (sync_without_have_fuel (S fuel') j td sp tp d s))
        = trace s1 ++ t_transfer /\ transfer_phase t_transfer
  | (_, s1) => snd (sync_without_have_fuel (S fuel') j td sp tp d s) = s1
  end.
Proof.
  intros L. cbn [sync_without_have_fuel]. rewrite L. unfold without_have_until_tail.
  cbv zeta. unfold bind, ret.
  destruct (create_directory j td (last_component (rstrip_slash tp)) s)
    as [[[info |] | e] s0]; cbn [fst snd]; try reflexivity.
  destruct (incr_folder_created s0) as [[u | e] s1]; cbn [fst snd]; try reflexivity.
  match goal with
  | |- context [record_task_item ?a ?b ?c ?d0 ?e0 ?f ?g ?h s1] =>
      destruct (record_task_item a b c d0 e0 f g h s1) as [[u' | e] s2]
  end; cbn [fst snd]; try reflexivity.
  destruct (lift_res (new_DiskTargetDefinition tp (bfi_file_id info)) s2)
    as [[td' | e] s3]; cbn [fst snd]; try reflexivity.
  destruct (scan_source j sp s3) as [[[smap |] | e] s4]; cbn [fst snd]; try reflexivity.
  match goal with
  | |- context [foldM ?f smap [] s4] => destruct (foldM f smap [] s4) as [[files | e] s5]
  end; cbn [fst snd]; try reflexivity.
  apply without_have_tail_phase.
Qed.

Lemma without_have_starts_with_mkdir fuel' j td sp tp d :
  Nat.leb (max_depth j) d = false ->
  starts_with
    (ECreateMkdir (mkMkdirParam (drive_type j) (dtd_file_path td) (Some (dtd_file_id td))
                     (Some (last_component (rstrip_slash tp))) true))
    (sync_without_have_fuel (S fuel') j td sp tp d).
Proof.
  intros L. cbn [sync_without_have_fuel]. rewrite L. cbv zeta.
  apply starts_bind; [| keeps_all].
  unfold create_directory. apply starts_try_except; [| keeps_all].
  apply starts_call.
Qed.

(** C8 (as amended).  Within one level below the depth limit:
    [sync_without_have] calls [mkdir] for the directory before anything
    else; in both procedures the batched transfer of the level's files comes
    after the loop over the source listing, hence after the recursion into
    every subdirectory of the level, and what follows the loop is that one
    transfer (with its audit rows and pauses) and then, for [sync_with_have]
    under the full strategy only, the one batched delete, last. *)
Theorem level_order j td sp tp tid current_depth s :
  current_depth < max_depth j ->
  let fuel' := max_depth j - current_depth - 1 in
  match with_have_until_tail fuel' j td sp tp tid current_depth s with
  | (Ok (Some (smap, tmap, files)), s1) =>
      exists t_transfer t_delete,
        trace (snd (sync_with_have j td sp tp tid current_depth s))
        = trace s1 ++ t_transfer ++ t_delete /\
        transfer_phase t_transfer /\ delete_phase (sync_method j) t_delete
  | (_, s1) => snd (sync_with_have j td sp tp tid current_depth s) = s1
  end /\
  starts_with
    (ECreateMkdir (mkMkdirParam (drive_type j) (dtd_file_path td) (Some (dtd_file_id td))
                     (Some (last_component (rstrip_slash tp))) true))
    (sync_without_have j td sp tp current_depth) /\
  match without_have_until_tail fuel' j td sp tp current_depth s with
  | (Ok (Some (td', files)), s1) =>
      exists t_transfer,
        trace (snd (sync_without_have j td sp tp current_depth s))
        = trace s1 ++ t_transfer /\ transfer_phase t_transfer
  | (_, s1) => snd (sync_without_have j td sp tp current_depth s) = s1
  end.
Proof.
  intros H fuel'. unfold sync_with_have, sync_without_have.
  assert (E : max_depth j - current_depth = S fuel') by (unfold fuel'; lia).
  assert (L : Nat.leb (max_depth j) current_depth = false) by (apply Nat.leb_gt; lia).
  rewrite E. split; [| split].
  - apply with_have_level_order. exact L.
  - apply without_have_starts_with_mkdir. exact L.
  - apply without_have_level_order. exact L.
Qed.

(** *** An incremental run on a target that mirrors the source *)

Lemma quiet_refl s : quiet_step s s.
Proof.
  unfold quiet_step. repeat (split; [reflexivity |]).
  exists []. rewrite app_nil_r. split; reflexivity.
Qed.

Lemma quiet_trans s1 s2 s3 : quiet_step s1 s2 -> quiet_step s2 s3 -> quiet_step s1 s3.
Proof.
  intros (W1 & A1 & B1 & C1 & D1 & E1 & t1 & T1 & F1)
         (W2 & A2 & B2 & C2 & D2 & E2 & t2 & T2 & F2).
  unfold quiet_step. repeat (split; [congruence || lia |]).
  exists (t1 ++ t2). rewrite T2, T1, app_assoc. split; [reflexivity |].
  rewrite forallb_app, F1, F2. reflexivity.
Qed.

Lemma quiet_emit e s : is_mutation e = false -> quiet_step s (snd (emit e s)).
Proof.
  intros H. unfold quiet_step, emit. cbn [snd world stats trace].
  repeat (split; [reflexivity |]).
  exists [e]. split; [reflexivity |]. cbn [forallb]. rewrite H. reflexivity.
Qed.

Lemma Mirrors_intro levels j w sp tp tid source_files target_files fid :
  get_share_list dm (x_token j)
    (mkListShareFilesParam (drive_type j) (ssd_source_type (source_definition j))
       (ssd_source_id (source_definition j)) sp) w = (Ok source_files, w) ->
  as_str "ListFilesParam" "file_id" (or_empty tid) = Ok fid ->
  get_disk_list dm (x_token j) (mkListFilesParam (drive_type j) tp fid) w
    = (Ok target_files, w) ->
  Forall
    (fun item : string * dict pyval =>
       if endswith_slash (fst item) then
         dict_mem (build_file_map (item_filter j) false target_files) (fst item) = true /\
         Mirrors levels j w (sub_path sp (rstrip_slash (fst item)))
           (sub_path tp (rstrip_slash (fst item)))
           (dict_get_default
              (dict_get_default (build_file_map (item_filter j) false target_files)
                 (fst item) []) "file_id" (VStr ""))
       else needs_transfer (build_file_map (item_filter j) false target_files)
              (fst item) (snd item) = false)
    (build_file_map (item_filter j) true source_files) ->
  Mirrors (S levels) j w sp tp tid.
Proof.
  intros H1 H2 H3 HF. cbn [Mirrors]. exists source_files, target_files, fid.
  repeat (split; [assumption |]). exact HF.
Qed.

Lemma scan_both_mirrored j sp tp tid s source_files target_files fid :
  let share_params := mkListShareFilesParam (drive_type j)
                        (ssd_source_type (source_definition j))
                        (ssd_source_id (source_definition j)) sp in
  let disk_params := mkListFilesParam (drive_type j) tp fid in
  get_share_list dm (x_token j) share_params (world s) = (Ok source_files, world s) ->
  as_str "ListFilesParam" "file_id" (or_empty tid) = Ok fid ->
  get_disk_list dm (x_token j) disk_params (world s) = (Ok target_files, world s) ->
  scan_both j sp tp tid s
  = (Ok (Some (build_file_map (item_filter j) true source_files,
               build_file_map (item_filter j) false target_files)),
     mkSt (world s) (stats s)
       ((trace s ++ [EGetShareList share_params]) ++ [EGetDiskList disk_params])).
Proof.
  intros share_params disk_params H1 H2 H3. subst share_params disk_params.
  unfold scan_both, try_except, list_dir. unfold bind, call, lift_res, ret.
  cbv beta iota. rewrite H1. cbn [world stats trace]. rewrite H2.
  cbv beta iota. cbn [world stats trace]. rewrite H3. reflexivity.
Qed.

Lemma mirrored_file_step j rec_with rec_without td sp tp d
    (tmap : dict (dict pyval)) name (info : dict pyval) s :
  endswith_slash name = false ->
  needs_transfer tmap name info = false ->
  exists s',
    with_have_item j rec_with rec_without td sp tp d tmap [] (name, info) s = (Ok [], s') /\
    quiet_step s s'.
Proof.
  intros Hn Ht. unfold with_have_item. rewrite Hn, Ht. cbn [negb].
  unfold bind, incr_files_processed, incr_files_skipped, modify_stats, ret.
  eexists. split; [reflexivity |].
  unfold quiet_step. cbn [world stats trace files_processed folder_created files_transferred
                            files_deleted files_skipped errors].
  repeat (split; [reflexivity || lia |]).
  exists []. rewrite app_nil_r. split; reflexivity.
Qed.

Lemma mirrored_loop fuel' j td sp tp d (tmap : dict (dict pyval)) w :
  (forall sp' tp' tid' d' s,
      Mirrors fuel' j (world s) sp' tp' tid' ->
      exists s', sync_with_have_fuel fuel' j td sp' tp' tid' d' s = (Ok tt, s') /\
                 quiet_step s s') ->
  forall (smap : dict (dict pyval)) s,
    world s = w ->
    Forall
      (fun item : string * dict pyval =>
         if endswith_slash (fst item) then
           dict_mem tmap (fst item) = true /\
           Mirrors fuel' j w (sub_path sp (rstrip_slash (fst item)))
             (sub_path tp (rstrip_slash (fst item)))
             (dict_get_default (dict_get_default tmap (fst item) []) "file_id" (VStr ""))
         else needs_transfer tmap (fst item) (snd item) = false)
      smap ->
    exists s',
      foldM (with_have_item j (sync_with_have_fuel fuel' j) (sync_without_have_fuel fuel' j)
               td sp tp d tmap) smap [] s = (Ok [], s') /\
      quiet_step s s'.
Proof.
  intros IH smap. induction smap as [| [name info] rest IHrest]; intros s Hw HF.
  - exists s. split; [reflexivity | apply quiet_refl].
  - inversion HF as [| x l Hx Hl]; subst x l. cbn [fst snd] in Hx.
    assert (Hitem : exists s1,
               with_have_item j (sync_with_have_fuel fuel' j) (sync_without_have_fuel fuel' j)
                 td sp tp d tmap [] (name, info) s = (Ok [], s1) /\ quiet_step s s1).
    { destruct (endswith_slash name) eqn:Hn.
      - destruct Hx as [Hmem Hsub]. rewrite <- Hw in Hsub.
        destruct (IH _ _ _ (d + 1) s Hsub) as [s1 [E1 Q1]].
        exists s1. split; [| exact Q1].
        unfold with_have_item. rewrite Hn, Hmem. cbn [negb]. unfold bind. rewrite E1.
        reflexivity.
      - apply mirrored_file_step; assumption. }
    destruct Hitem as [s1 [E1 Q1]].
    assert (Hw1 : world s1 = w) by (destruct Q1 as [Q _]; congruence).
    destruct (IHrest s1 Hw1 Hl) as [s2 [E2 Q2]].
    exists s2. split; [| eapply quiet_trans; eassumption].
    cbn [foldM]. unfold bind at 1. rewrite E1. exact E2.
Qed.

Lemma sync_with_have_fuel_mirrored j td :
  String.eqb (sync_method j) "full" = false ->
  forall fuel sp tp tid d s,
    Mirrors fuel j (world s) sp tp tid ->
    exists s', sync_with_have_fuel fuel j td sp tp tid d s = (Ok tt, s') /\ quiet_step s s'.
Proof.
  intros Hm. induction fuel as [| fuel' IH]; intros sp tp tid d s HM.
  - cbn [sync_with_have_fuel]. destruct (Nat.leb (max_depth j) d).
    + eexists. split; [reflexivity |]. apply (quiet_emit (EDepthWarning (max_depth j)) s).
      reflexivity.
    + exists s. split; [reflexivity | apply quiet_refl].
  - cbn [sync_with_have_fuel]. destruct (Nat.leb (max_depth j) d).
    + eexists. split; [reflexivity |]. apply (quiet_emit (EDepthWarning (max_depth j)) s).
      reflexivity.
    + cbn [Mirrors] in HM. destruct HM as (sf & tf & fid & H1 & H2 & H3 & HF).
      cbv zeta in HF.
      pose proof (scan_both_mirrored j sp tp tid s sf tf fid H1 H2 H3) as Hscan.
      cbv zeta in Hscan.
      match type of Hscan with
      | _ = (_, ?s0) =>
          destruct (mirrored_loop fuel' j td sp tp d
                      (build_file_map (item_filter j) false tf) (world s) IH
                      (build_file_map (item_filter j) true sf) s0 eq_refl HF)
            as [s2 [E2 Q2]]
      end.
      exists s2. split.
      * unfold bind at 1. rewrite Hscan. unfold bind at 1. rewrite E2.
        unfold with_have_tail, transfer_collected, bind, ret. rewrite Hm. reflexivity.
      * eapply quiet_trans; [| exact Q2].
        unfold quiet_step. cbn [world stats trace].
        repeat (split; [reflexivity |]).
        eexists. split; [rewrite <- app_assoc; reflexivity |]. reflexivity.
Qed.

(** C2 (as amended).  When the target mirrors the source (every source file
    has a target entry of its name and size, every source folder a target
    folder under which the same holds, and the listings succeed), a run of the
    incremental strategy succeeds, transfers nothing, creates and deletes
    nothing, calls neither [mkdir] nor [transfer] nor [remove], leaves the
    provider as it was, and counts every file it processed as skipped. *)
Theorem incremental_run_on_mirror_transfers_nothing j td w :
  sync_method j = "incremental" ->
  Mirrors (max_depth j) j w (ssd_file_path (source_definition j)) (dtd_file_path td)
    (VStr (dtd_file_id td)) ->
  sr_success (fst (perform_sync j td w)) = true /\
  files_transferred (sr_stats (fst (perform_sync j td w))) = 0 /\
  files_skipped (sr_stats (fst (perform_sync j td w)))
    = files_processed (sr_stats (fst (perform_sync j td w))) /\
  folder_created (sr_stats (fst (perform_sync j td w))) = 0 /\
  files_deleted (sr_stats (fst (perform_sync j td w))) = 0 /\
  world (snd (perform_sync j td w)) = w /\
  forallb (fun e => negb (is_mutation e)) (trace (snd (perform_sync j td w))) = true.
Proof.
  intros Hm HM.
  assert (Hfull : String.eqb (sync_method j) "full" = false) by (rewrite Hm; reflexivity).
  assert (Hover : String.eqb (sync_method j) "overwrite" = false) by (rewrite Hm; reflexivity).
  destruct (sync_with_have_fuel_mirrored j td Hfull (max_depth j - 0)
              (ssd_file_path (source_definition j)) (dtd_file_path td)
              (VStr (dtd_file_id td)) 0 (mkSt w empty_stats []))
    as [s' [E Q]].
  { rewrite Nat.sub_0_r. exact HM. }
  unfold perform_sync, perform_sync_body, try_except. rewrite Hover.
  unfold sync_with_have. rewrite E. cbn [fst snd sr_success sr_stats].
  destruct Q as (Qw & Qc & Qt & Qd & Qe & Qs & t & Tt & Ft).
  cbn [world stats trace empty_stats files_processed folder_created files_transferred
         files_deleted files_skipped errors] in *.
  rewrite Qe, Qt, Qc, Qd, Qw, Tt. cbn [length Nat.eqb app].
  repeat split; try reflexivity; try lia. exact Ft.
Qed.

(** *** The parameters of a batched transfer *)

Lemma dict_get_set_same {V} (d : dict V) k v : dict_get (dict_set d k v) k = Some v.
Proof.
  induction d as [| [k' v'] r IH]; cbn [dict_set dict_get].
  - rewrite String.eqb_refl. reflexivity.
  - destruct (String.eqb k k') eqn:E; cbn [dict_get]; rewrite E; [reflexivity | exact IH].
Qed.

Lemma dict_get_set_other {V} (d : dict V) k k' v :
  String.eqb k k' = false -> dict_get (dict_set d k' v) k = dict_get d k.
Proof.
  intros N. induction d as [| [k0 v0] r IH]; cbn [dict_set dict_get].
  - rewrite N. reflexivity.
  - destruct (String.eqb k' k0) eqn:E; cbn [dict_get].
    + apply String.eqb_eq in E. subst k0. rewrite N. reflexivity.
    + destruct (String.eqb k k0); [reflexivity | exact IH].
Qed.

Lemma copy_keys_except_other skip (src : dict pyval) k :
  dict_mem src k = false ->
  forall dst, dict_get (copy_keys_except skip src dst) k = dict_get dst k.
Proof.
  unfold copy_keys_except, dict_mem.
  induction src as [| [k' v'] r IH]; intros H dst; cbn [fold_left fst snd].
  - reflexivity.
  - cbn [dict_get] in H. destruct (String.eqb k k') eqn:E; [discriminate |].
    rewrite (IH H). destruct (str_in k' skip); [reflexivity |].
    apply dict_get_set_other. exact E.
Qed.

Lemma collect_file_ids_ok files :
  forall acc file_ids,
    collect_file_ids files acc = inr file_ids ->
    file_ids = acc ++ map (fun f => dict_get_default f "file_id" (VStr "")) files /\
    Forall (fun f => truthy (dict_get_default f "file_id" (VStr "")) = true) files.
Proof.
  induction files as [| f r IH]; intros acc file_ids H; cbn [collect_file_ids] in H.
  - inversion H. rewrite app_nil_r. split; [reflexivity | constructor].
  - cbv zeta in H.
    destruct (truthy (dict_get_default f "file_id" (VStr ""))) eqn:T; [| discriminate].
    destruct (IH _ _ H) as [E F]. split.
    + rewrite E, <- app_assoc. reflexivity.
    + constructor; assumption.
Qed.

Lemma ext_info_file_id_of (f : dict pyval) :
  truthy (dict_get_default f "file_id" (VStr "")) = true ->
  ext_info_file_id (file_ext_info_of f) = dict_get_default f "file_id" (VStr "").
Proof.
  unfold ext_info_file_id, file_ext_info_of, dict_get_default. cbn.
  destruct (dict_get f "file_id"); [reflexivity | discriminate].
Qed.

Lemma new_TransferParam_fields dt st sid sp tp tid file_ids ext p :
  new_TransferParam dt st sid sp tp tid file_ids ext = Ok p ->
  tp_file_ids p = Some file_ids /\ tp_ext p = ext.
Proof.
  unfold new_TransferParam. intros H.
  destruct (negb (str_in st ["link"; "friend"; "group"])); [discriminate |].
  destruct (as_str "TransferParam" "source_path" sp); [| discriminate].
  destruct (as_str "TransferParam" "target_path" tp); [| discriminate].
  destruct (check_path _ _ _); [| discriminate].
  destruct (forallb is_int_or_str file_ids); [| discriminate].
  inversion H. split; reflexivity.
Qed.

(** The parameters [transfer_files] builds satisfy the correspondence as long
    as the first file has no key named [files_ext_info]. *)
Lemma built_params_correspond base dt st sid sp tp tid first rest file_ids p :
  dict_mem first "files_ext_info" = false ->
  collect_file_ids (first :: rest) [] = inr file_ids ->
  new_TransferParam dt st sid sp tp tid file_ids (build_ext_params base (first :: rest)) = Ok p ->
  token_correspondence p.
Proof.
  intros Hkey Hids Hp.
  destruct (new_TransferParam_fields _ _ _ _ _ _ _ _ _ Hp) as [Ei Ee].
  destruct (collect_file_ids_ok _ _ _ Hids) as [E F]. cbn [app] in E.
  exists file_ids, (map file_ext_info_of (first :: rest)).
  split; [exact Ei |]. split.
  - rewrite Ee. unfold build_ext_params.
    rewrite (copy_keys_except_other reserved_keys first "files_ext_info" Hkey).
    apply dict_get_set_same.
  - rewrite E, map_map. apply map_ext_in. intros f Hin.
    apply ext_info_file_id_of. rewrite Forall_forall in F. apply F. exact Hin.
Qed.

Lemma keeps_any P {A} (m : M A) : keeps P m -> keeps any_event m.
Proof.
  intros K s. destruct (K s) as [t [E _]]. exists t. split; [exact E |].
  apply forallb_forall. reflexivity.
Qed.

Lemma appends_in P s s' :
  appends P s s' -> exists t, trace s' = trace s ++ t /\ forall e, In e t -> P e = true.
Proof.
  intros [t [E F]]. exists t. split; [exact E |]. apply forallb_forall. exact F.
Qed.

Lemma keeps_transfer_files_tail j files result :
  keeps (fun e => negb (is_transfer e))
    ((if result : bool then
        add_files_transferred (length files) ;;
        record_copy_items j "completed" None files
      else
        let error_msg :=
          "批量转存失败：API返回False，涉及 " ^^ str_of_nat (length files) ^^ " 个文件" in
        add_error error_msg ;;
        record_copy_items j "failed" (Some error_msg) files) ;;
     match recursion_speed j with
     | SLOW => sleep 2
     | NORMAL => sleep 1
     | FAST => ret tt
     end ;;
     ret result).
Proof.
  assert (R : forall st e, keeps (fun e => negb (is_transfer e)) (record_copy_items j st e files)).
  { intros. apply keeps_record_copy_items. intros; reflexivity. }
  unfold add_files_transferred, add_error, sleep. cbv zeta.
  destruct result; keeps_tac.
Qed.

Lemma keeps_transfer_files_handler j files e :
  keeps (fun e => negb (is_transfer e))
    (let error_msg := "批量转存异常: " ^^ e in
     add_error error_msg ;;
     record_copy_items j "failed" (Some error_msg) files ;;
     ret false).
Proof.
  assert (R : forall st e, keeps (fun e => negb (is_transfer e)) (record_copy_items j st e files)).
  { intros. apply keeps_record_copy_items. intros; reflexivity. }
  unfold add_error. cbv zeta. keeps_tac.
Qed.

(** Every transfer that [transfer_files] issues on a list whose first entry
    has no key named [files_ext_info] satisfies the token correspondence. *)
Lemma transfer_files_corresponds j td first rest s :
  dict_mem first "files_ext_info" = false ->
  exists t,
    trace (snd (transfer_files j td (first :: rest) s)) = trace s ++ t /\
    forall p, In (ETransferFiles p) t -> token_correspondence p.
Proof.
  intros Hkey. unfold transfer_files.
  destruct (collect_file_ids (first :: rest) []) as [bad | file_ids] eqn:Hc.
  - assert (K : keeps (fun e => negb (is_transfer e))
                  (try_except
                     (let error_msg :=
                        "文件 " ^^ py_str (dict_get_default bad "file_name" (VStr ""))
                          ^^ " 缺少file_id" in
                      add_error error_msg ;;
                      record_copy_item j "failed" (Some error_msg) bad ;;
                      ret false)
                     (fun e =>
                        let error_msg := "批量转存异常: " ^^ e in
                        add_error error_msg ;;
                        record_copy_items j "failed" (Some error_msg) (first :: rest) ;;
                        ret false))).
    { apply keeps_try_except; [| intros; apply keeps_transfer_files_handler].
      unfold add_error, record_copy_item. cbv zeta.
      assert (R : forall o a b c d st e,
                 keeps (fun e => negb (is_transfer e)) (record_task_item j o a b c d st e)).
      { intros. apply keeps_record_task_item. intros; reflexivity. }
      keeps_tac. }
    destruct (appends_in _ _ _ (K s)) as [t [E F]].
    exists t. split; [exact E |]. intros p Hin. apply F in Hin. discriminate.
  - cbv zeta.
    destruct (new_TransferParam (drive_type j) (ssd_source_type (source_definition j))
                (ssd_source_id (source_definition j))
                (dict_get_default first "source_path" (VStr ""))
                (dict_get_default first "target_path" (VStr (dtd_file_path td)))
                (dtd_file_id td) file_ids
                (build_ext_params (ssd_ext_params (source_definition j)) (first :: rest)))
      as [params | e] eqn:Hp.
    + pose proof (built_params_correspond _ _ _ _ _ _ _ _ _ _ _ Hkey Hc Hp) as Hcorr.
      unfold try_except. unfold bind at 1. unfold lift_res at 1. unfold bind at 1.
      unfold call at 1.
      destruct (transfer_files_api dm (x_token j) params (world s)) as [[result | e] w'].
      * match goal with
        | |- context [bind ?m ?k ?s1] =>
            pose proof (keeps_transfer_files_tail j (first :: rest) result s1) as K
        end.
        apply appends_in in K. destruct K as [t [E F]].
        match goal with
        | |- context [trace (snd (match ?c with _ => _ end))] =>
            assert (Hs : exists t', trace (snd c) = trace s ++ ETransferFiles params :: t' /\
                                    forall e, In e t' -> negb (is_transfer e) = true)
        end.
        { exists t. cbn [trace] in E. rewrite E, <- app_assoc. split; [reflexivity | exact F]. }
        destruct Hs as [t' [E' F']].
        match goal with
        | |- context [trace (snd (match ?c with _ => _ end))] => destruct c as [[a | e] s2]
        end.
        -- exists (ETransferFiles params :: t'). split; [exact E' |].
           intros p [Hin | Hin]; [inversion Hin; subst; exact Hcorr |].
           apply F' in Hin. discriminate.
        -- cbn [snd] in E'.
           destruct (appends_in _ _ _ (keeps_transfer_files_handler j (first :: rest) e s2))
             as [t2 [E2 F2]].
           exists ((ETransferFiles params :: t') ++ t2). split.
           ++ etransitivity; [exact E2 |]. rewrite E', <- app_assoc. reflexivity.
           ++ intros p Hin. apply in_app_or in Hin. destruct Hin as [[Hin | Hin] | Hin].
              ** inversion Hin; subst; exact Hcorr.
              ** apply F' in Hin. discriminate.
              ** apply F2 in Hin. discriminate.
      * match goal with
        | |- context [trace (snd (?h ?s1))] =>
            destruct (appends_in _ _ _ (keeps_transfer_files_handler j (first :: rest) e s1))
              as [t2 [E2 F2]]
        end.
        exists (ETransferFiles params :: t2). split.
        -- etransitivity; [exact E2 |]. cbn [trace]. rewrite <- app_assoc. reflexivity.
        -- intros p [Hin | Hin]; [inversion Hin; subst; exact Hcorr |].
           apply F2 in Hin. discriminate.
    + unfold try_except. unfold bind at 1. unfold lift_res at 1.
      destruct (appends_in _ _ _ (keeps_transfer_files_handler j (first :: rest) e s))
        as [t2 [E2 F2]].
      exists t2. split; [exact E2 |]. intros p Hin. apply F2 in Hin. discriminate.
Qed.

(** The condition on the key is needed.  On the one-file list
    [stray_key_file], whose entry carries a non-empty [file_id] and a key
    named [files_ext_info], [transfer_files] called on its own issues a
    transfer whose [file_ids] has one element while [ext["files_ext_info"]]
    is the empty list the first file carried: the merge of the first file's
    keys has replaced the list built for the files.  The engine builds no
    such list from the listings of a provider that has no such key. *)
Lemma first_file_key_replaces_files_ext_info td :
  let p := mkTransferParam QUARK "link" "https://pan.example/s/abc" "/root" "/dst"
             (Some (dtd_file_id td)) (Some [VStr "f1"]) [("files_ext_info", VList [])] in
  starts_with (ETransferFiles p)
    (transfer_files (demo_job "incremental" 100) td [stray_key_file]) /\
  length (map file_ext_info_of [stray_key_file]) = 1 /\
  ~ token_correspondence p.
Proof.
  intros p. split; [| split].
  - unfold transfer_files. apply starts_try_except.
    2: { intros x. eapply keeps_any. apply keeps_transfer_files_handler. }
    change (collect_file_ids [stray_key_file] []) with (@inr (dict pyval) _ [VStr "f1"]).
    cbv iota zeta.
    change (new_TransferParam _ _ _ _ _ _ _ _) with (Ok p).
    intros s. unfold bind at 1. unfold lift_res. revert s.
    apply starts_bind; [apply starts_call |].
    intros result. eapply keeps_any. apply keeps_transfer_files_tail.
  - reflexivity.
  - intros (ids & infos & Hi & He & Hm). cbn in Hi, He.
    inversion Hi; inversion He; subst. discriminate.
Qed.

(** *** The error policy *)

(** C4 (the failing input).  With the four errors of [interleaved_errors],
    whose latest is a transfer failure that follows only one other transfer
    failure directly (two consecutive occurrences), [_handle_transfer_error]
    pauses 30 seconds and stops the job: it counts the three transfer
    failures of the whole list. *)
Theorem transfer_failures_are_counted_over_the_whole_list j current_path w a b c d e t :
  _handle_transfer_error j current_path (mkSt w (mkStats a b c d e interleaved_errors) t)
  = (Ok false,
     mkSt w (mkStats a b c d e (interleaved_errors ++ ["任务终止：连续3次转存失败"]))
       (t ++ [ESleep 30])) /\
  spec_consecutive is_transfer_error interleaved_errors = 2 /\
  count_errors is_transfer_error interleaved_errors = 3.
Proof.
  split; [| split]; reflexivity.
Qed.

(** The global cap: with five or more errors collected the job stops,
    whatever the latest error is, without a pause. *)
Lemma total_error_cap j current_path s :
  5 <= length (errors (stats s)) ->
  fst (_handle_transfer_error j current_path s) = Ok false /\
  trace (snd (_handle_transfer_error j current_path s)) = trace s.
Proof.
  intros H. unfold _handle_transfer_error, bind, get_stats.
  destruct (errors (stats s)) as [| x r] eqn:E; [cbn in H; lia |].
  apply Nat.leb_le in H. rewrite H. split; reflexivity.
Qed.

(** Below the cap the latest error decides the class, the pause and the
    count that is compared with the threshold; every count runs over the
    whole error list. *)
Lemma error_policy_below_cap j current_path s :
  errors (stats s) <> [] ->
  length (errors (stats s)) < 5 ->
  let errs := errors (stats s) in
  let latest := last errs "" in
  let r := _handle_transfer_error j current_path s in
  (is_conflict_error latest = true ->
   fst r = Ok (negb (Nat.leb 3 (count_errors is_conflict_error errs))) /\
   trace (snd r) = trace s ++ [ESleep 30]) /\
  (is_conflict_error latest = false -> is_transfer_error_latest latest = true ->
   fst r = Ok (negb (Nat.leb 3 (count_errors is_transfer_error errs))) /\
   trace (snd r) = trace s ++ [ESleep 30]) /\
  (is_conflict_error latest = false -> is_transfer_error_latest latest = false ->
   is_delete_error latest = true ->
   r = (Ok true, s)) /\
  (is_conflict_error latest = false -> is_transfer_error_latest latest = false ->
   is_delete_error latest = false -> is_network_error latest = true ->
   fst r = Ok (negb (Nat.leb 2 (count_errors is_network_error errs))) /\
   trace (snd r) = trace s ++ [ESleep 10]) /\
  (is_conflict_error latest = false -> is_transfer_error_latest latest = false ->
   is_delete_error latest = false -> is_network_error latest = false ->
   r = (Ok true, s)).
Proof.
  intros Hne Hlt errs latest r. subst r latest errs.
  unfold _handle_transfer_error, bind, get_stats, sleep, emit, add_error, modify_stats, ret.
  destruct (errors (stats s)) as [| x rest] eqn:E; [congruence |].
  assert (L : Nat.leb 5 (length (x :: rest)) = false) by (apply Nat.leb_gt; exact Hlt).
  rewrite L. clear L.
  repeat split; intros;
    repeat match goal with
           | H : _ = true |- _ => rewrite H
           | H : _ = false |- _ => rewrite H
           end;
    cbn [fst snd trace];
    try match goal with
        | |- context [Nat.leb ?a ?b] => destruct (Nat.leb a b)
        end;
    reflexivity.
Qed.

(** *** Rename rules *)

(** C7 (as amended).  The rename rules of a configuration do not reach the
    engine: whatever they are, [execute_sync_by_config_id] returns the same
    result, leaves the provider in the same state and makes the same calls;
    the diff compares every item under its own name. *)
Theorem rename_rules_do_not_reach_the_diff config cookies account_type exclude_filter
    rules rules' task w :
  execute_sync_by_config_id config cookies account_type exclude_filter rules task w
  = execute_sync_by_config_id config cookies account_type exclude_filter rules' task w.
Proof.
  reflexivity.
Qed.


(** ** The counters of a job *)

Lemma prefix_of_refl {A} (l : list A) : prefix_of l l.
Proof. exists []. rewrite app_nil_r. reflexivity. Qed.

Lemma prefix_of_trans {A} (l1 l2 l3 : list A) :
  prefix_of l1 l2 -> prefix_of l2 l3 -> prefix_of l1 l3.
Proof.
  intros [t1 E1] [t2 E2]. exists (t1 ++ t2). rewrite E2, E1, app_assoc. reflexivity.
Qed.

Lemma prefix_of_length {A} (l l' : list A) : prefix_of l l' -> length l <= length l'.
Proof. intros [t E]. rewrite E, length_app. lia. Qed.

(** Between a list and a continuation of it that is the list again, nothing
    was added. *)
Lemma prefix_of_squeeze {A} (l1 l2 l3 : list A) :
  prefix_of l1 l2 -> prefix_of l2 l3 -> l3 = l1 -> l2 = l1.
Proof.
  intros [t1 E1] [t2 E2] E. subst l3 l2.
  assert (L : length ((l1 ++ t1) ++ t2) = length l1) by (rewrite E; reflexivity).
  rewrite !length_app in L. destruct t1; [apply app_nil_r | simpl in L; lia].
Qed.

Lemma stats_grow_refl st : stats_grow st st.
Proof. unfold stats_grow. repeat split; try lia. apply prefix_of_refl. Qed.

Lemma stats_grow_trans st1 st2 st3 :
  stats_grow st1 st2 -> stats_grow st2 st3 -> stats_grow st1 st3.
Proof.
  intros (A1 & B1 & C1 & D1 & E1 & F1) (A2 & B2 & C2 & D2 & E2 & F2).
  unfold stats_grow. repeat split; try lia. eapply prefix_of_trans; eassumption.
Qed.

(** *** Computations that leave the statistics alone *)

Lemma silent_ret {A} (a : A) : silent (ret a).
Proof. intros s. reflexivity. Qed.

Lemma silent_lift_res {A} (r : res A) : silent (lift_res r).
Proof. intros s. reflexivity. Qed.

Lemma silent_emit e : silent (emit e).
Proof. intros s. reflexivity. Qed.

Lemma silent_call {A} (op : W -> res A * W) e : silent (call op e).
Proof. intros s. unfold call. destruct (op (world s)). reflexivity. Qed.

Lemma silent_bind {A B} (m : M A) (f : A -> M B) :
  silent m -> (forall a, silent (f a)) -> silent (bind m f).
Proof.
  intros Hm Hf s. unfold bind. specialize (Hm s).
  destruct (m s) as [[a | e] s1]; cbn [snd] in *; [rewrite Hf |]; exact Hm.
Qed.

Lemma silent_try_except {A} (m : M A) (h : string -> M A) :
  silent m -> (forall e, silent (h e)) -> silent (try_except m h).
Proof.
  intros Hm Hh s. unfold try_except. specialize (Hm s).
  destruct (m s) as [[a | e] s1]; cbn [snd] in *; [| rewrite Hh]; exact Hm.
Qed.

Lemma silent_foldM {A B} (f : B -> A -> M B) l :
  (forall b x, silent (f b x)) -> forall b, silent (foldM f l b).
Proof.
  intros Hf. induction l as [| x l IH]; intros b; cbn [foldM].
  - apply silent_ret.
  - apply silent_bind; [apply Hf | intros; apply IH].
Qed.

Lemma silent_record_task_item j o a b c d st e : silent (record_task_item j o a b c d st e).
Proof.
  unfold record_task_item. destruct (task_id j) as [t |]; [| apply silent_ret].
  destruct (negb (Z.eqb t 0) && db j)%bool; [apply silent_emit | apply silent_ret].
Qed.

Lemma silent_record_copy_items j st e files : silent (record_copy_items j st e files).
Proof.
  unfold record_copy_items, record_copy_item. apply silent_foldM. intros.
  apply silent_record_task_item.
Qed.

Lemma silent_record_delete_items j st e files : silent (record_delete_items j st e files).
Proof.
  unfold record_delete_items. apply silent_foldM. intros. apply silent_record_task_item.
Qed.

Lemma silent_list_dir j path is_src tid : silent (list_dir j path is_src tid).
Proof.
  unfold list_dir. apply silent_bind; [| intros; apply silent_ret].
  destruct is_src; [apply silent_call |].
  apply silent_bind; [apply silent_lift_res | intros; apply silent_call].
Qed.

Lemma silent_create_directory j td name : silent (create_directory j td name).
Proof.
  unfold create_directory. apply silent_try_except; [apply silent_call |].
  intros. apply silent_ret.
Qed.

Lemma silent_sleep n : silent (sleep n).
Proof. apply silent_emit. Qed.

(** *** The rules of [accounts] *)

Lemma accounts_silent {A} p (m : M A) :
  (0 <= p)%Z -> silent m -> accounts p (fun _ => p) m.
Proof.
  intros Hp H s. specialize (H s). cbv beta. rewrite H. split; [apply stats_grow_refl |].
  destruct (fst (m s)); [split; [lia | reflexivity] | lia].
Qed.

Lemma accounts_ret {A} (pend : A -> Z) (a : A) : accounts (pend a) pend (ret a).
Proof.
  intros s. cbn. split; [apply stats_grow_refl |]. split; [lia | reflexivity].
Qed.

Lemma accounts_bind {A B} p (q : A -> Z) (r : B -> Z) (m : M A) (f : A -> M B) :
  accounts p q m -> (forall a, accounts (q a) r (f a)) -> accounts p r (bind m f).
Proof.
  intros Hm Hf s. unfold bind. specialize (Hm s).
  destruct (m s) as [[a | e] s1]; cbn [fst snd] in *.
  - destruct Hm as [G1 [I1 E1]]. specialize (Hf a s1).
    destruct (f a s1) as [[b | e] s2]; cbn [fst snd] in *.
    + destruct Hf as [G2 [I2 E2]]. split; [eapply stats_grow_trans; eassumption |].
      split; [lia |]. intros E.
      assert (E' : errors (stats s1) = errors (stats s)).
      { destruct G1 as (_ & _ & _ & _ & _ & P1). destruct G2 as (_ & _ & _ & _ & _ & P2).
        eapply prefix_of_squeeze; eassumption. }
      rewrite E2 by congruence. apply E1. exact E'.
    + destruct Hf as [G2 I2]. split; [eapply stats_grow_trans; eassumption | lia].
  - exact Hm.
Qed.

(** More files pending before and after. *)
Lemma accounts_frame {A} c p (q : A -> Z) (m : M A) :
  (0 <= c)%Z -> accounts p q m -> accounts (p + c) (fun a => q a + c)%Z m.
Proof.
  intros Hc Hm s. specialize (Hm s). destruct Hm as [G H]. split; [exact G |].
  destruct (fst (m s)); [destruct H as [I E]; split; [lia | intros X; specialize (E X); lia]
                        | lia].
Qed.

Lemma accounts_unit_frame c (m : M unit) :
  (0 <= c)%Z -> accounts 0 (fun _ => 0%Z) m -> accounts c (fun _ => c) m.
Proof.
  intros Hc Hm. pose proof (accounts_frame c 0 (fun _ => 0%Z) m Hc Hm) as H.
  intros s. specialize (H s). cbn in H. exact H.
Qed.

Lemma accounts_try_except {A} p (q : A -> Z) (m : M A) (h : string -> M A) :
  accounts p q m -> (forall e, adds_error q (h e)) -> accounts p q (try_except m h).
Proof.
  intros Hm Hh s. unfold try_except. specialize (Hm s).
  destruct (m s) as [[a | e] s1]; cbn [fst snd] in *; [exact Hm |].
  destruct Hm as [G1 I1]. specialize (Hh e s1).
  destruct Hh as ([msg [rest Em]] & Hp & Hc & Ht & Hd & Hs & Hq).
  assert (G2 : stats_grow (stats s1) (stats (snd (h e s1)))).
  { unfold stats_grow. repeat split; try lia. exists (msg :: rest). exact Em. }
  assert (U : unaccounted (stats (snd (h e s1))) = unaccounted (stats s1)).
  { unfold unaccounted. rewrite Hp, Ht, Hs. reflexivity. }
  split; [eapply stats_grow_trans; eassumption |].
  destruct (fst (h e s1)) as [a | e'].
  - split; [lia |]. intros E. exfalso.
    destruct G1 as (_ & _ & _ & _ & _ & [t1 P1]).
    assert (L : length (errors (stats (snd (h e s1)))) = length (errors (stats s)))
      by (rewrite E; reflexivity).
    rewrite Em, P1, !length_app in L. simpl in L. lia.
  - lia.
Qed.

Lemma accounts_foldM {A} (f : list (dict pyval) -> A -> M (list (dict pyval))) l :
  (forall acc x, accounts (pending_of acc) pending_of (f acc x)) ->
  forall acc, accounts (pending_of acc) pending_of (foldM f l acc).
Proof.
  intros Hf. induction l as [| x l IH]; intros acc; cbn [foldM].
  - apply accounts_ret.
  - eapply accounts_bind; [apply Hf | intros; apply IH].
Qed.

(** The changes of the statistics, one by one. *)
Lemma accounts_add_error p msg : accounts p (fun _ => p) (add_error msg).
Proof.
  intros s. unfold add_error, modify_stats, stats_grow, unaccounted. cbn.
  split; [repeat split; try lia; exists [msg]; reflexivity |].
  split; [lia | intros; lia].
Qed.

Lemma accounts_incr_files_processed p :
  accounts p (fun _ => p + 1)%Z incr_files_processed.
Proof.
  intros s. unfold incr_files_processed, modify_stats, stats_grow, unaccounted. cbn.
  split; [repeat split; try lia; apply prefix_of_refl |].
  split; [lia | intros; lia].
Qed.

Lemma accounts_incr_files_skipped p :
  accounts p (fun _ => p - 1)%Z incr_files_skipped.
Proof.
  intros s. unfold incr_files_skipped, modify_stats, stats_grow, unaccounted. cbn.
  split; [repeat split; try lia; apply prefix_of_refl |].
  split; [lia | intros; lia].
Qed.

Lemma accounts_incr_folder_created p : accounts p (fun _ => p) incr_folder_created.
Proof.
  intros s. unfold incr_folder_created, modify_stats, stats_grow, unaccounted. cbn.
  split; [repeat split; try lia; apply prefix_of_refl |].
  split; [lia | intros; lia].
Qed.

Lemma accounts_add_files_transferred p n :
  accounts p (fun _ => p - Z.of_nat n)%Z (add_files_transferred n).
Proof.
  intros s. unfold add_files_transferred, modify_stats, stats_grow, unaccounted. cbn.
  split; [repeat split; try lia; apply prefix_of_refl |].
  split; [lia | intros; lia].
Qed.

Lemma accounts_add_files_deleted p n : accounts p (fun _ => p) (add_files_deleted n).
Proof.
  intros s. unfold add_files_deleted, modify_stats, stats_grow, unaccounted. cbn.
  split; [repeat split; try lia; apply prefix_of_refl |].
  split; [lia | intros; lia].
Qed.

Lemma accounts_get_stats p : (0 <= p)%Z -> accounts p (fun _ => p) get_stats.
Proof. intros Hp. apply accounts_silent; [exact Hp |]. intros s. reflexivity. Qed.

(** A computation that may only have lowered what is pending. *)
Lemma accounts_weaken {A} p p' (q : A -> Z) (m : M A) :
  (p <= p')%Z -> (forall s, errors (stats (snd (m s))) <> errors (stats s)) ->
  accounts p q m -> accounts p' q m.
Proof.
  intros Hp Hne Hm s. specialize (Hm s). destruct Hm as [G H]. split; [exact G |].
  destruct (fst (m s)).
  - destruct H as [I E]. split; [lia |]. intros X. exfalso. exact (Hne s X).
  - lia.
Qed.

(** *** Handlers *)

Lemma adds_error_then {A} (q : A -> Z) msg (k : M A) :
  silent k -> (forall s a, fst (k s) = Ok a -> q a = 0%Z) ->
  adds_error q (add_error msg ;; k).
Proof.
  intros Hk Hq s. unfold bind, add_error, modify_stats. cbn [fst snd].
  match goal with |- context [k ?s1] => set (s1' := s1) end.
  rewrite (Hk s1'). subst s1'. cbn [stats errors files_processed folder_created
    files_transferred files_deleted files_skipped].
  split; [exists msg, []; reflexivity |]. repeat (split; [reflexivity |]).
  match goal with |- context [k ?s1] => specialize (Hq s1) end.
  destruct (fst (k _)); [apply Hq; reflexivity | exact I].
Qed.

Lemma adds_error_alone (q : unit -> Z) msg : q tt = 0%Z -> adds_error q (add_error msg).
Proof.
  intros Hq s. unfold add_error, modify_stats. cbn.
  split; [exists msg, []; reflexivity |]. repeat (split; [reflexivity |]). exact Hq.
Qed.

Lemma accounts_ext {A} p p' (q q' : A -> Z) (m : M A) :
  p = p' -> (forall a, q a = q' a) -> accounts p q m -> accounts p' q' m.
Proof.
  intros Hp Hq Hm s. specialize (Hm s). subst p'. destruct Hm as [G H]. split; [exact G |].
  destruct (fst (m s)); [rewrite <- Hq |]; exact H.
Qed.

Lemma accounts_of_adds_error {A} p (q : A -> Z) (m : M A) :
  (0 <= p)%Z -> adds_error q m -> accounts p q m.
Proof.
  intros Hp Hm s. destruct (Hm s) as ([msg [rest Em]] & Ha & Hb & Hc & Hd & He & Hq).
  split.
  - unfold stats_grow. repeat split; try lia. exists (msg :: rest). exact Em.
  - assert (U : unaccounted (stats (snd (m s))) = unaccounted (stats s)).
    { unfold unaccounted. rewrite Ha, Hc, He. reflexivity. }
    destruct (fst (m s)).
    + split; [lia |]. intros E. exfalso.
      assert (L : length (errors (stats (snd (m s)))) = length (errors (stats s)))
        by (rewrite E; reflexivity).
      rewrite Em, length_app in L. simpl in L. lia.
    + lia.
Qed.

Lemma pending_of_nonneg files : (0 <= pending_of files)%Z.
Proof. unfold pending_of. lia. Qed.

Lemma pending_of_snoc files f : pending_of (files ++ [f]) = (pending_of files + 1)%Z.
Proof. unfold pending_of. rewrite length_app. simpl. lia. Qed.

(** *** The rules of [steady] *)

Lemma steady_ret {A} (a : A) : steady (ret a).
Proof. apply (accounts_ret (fun _ => 0%Z) a). Qed.

Lemma steady_silent {A} (m : M A) : silent m -> steady m.
Proof. apply accounts_silent. lia. Qed.

Lemma steady_bind {A B} (m : M A) (f : A -> M B) :
  steady m -> (forall a, steady (f a)) -> steady (bind m f).
Proof. intros Hm Hf. apply (accounts_bind 0 (fun _ => 0%Z) (fun _ => 0%Z)); assumption. Qed.

Lemma steady_try_except {A} (m : M A) (h : string -> M A) :
  steady m -> (forall e, adds_error (fun _ => 0%Z) (h e)) -> steady (try_except m h).
Proof. intros Hm Hh. apply accounts_try_except; assumption. Qed.

Lemma steady_foldM {A B} (f : B -> A -> M B) l :
  (forall b x, steady (f b x)) -> forall b, steady (foldM f l b).
Proof.
  intros Hf. induction l as [| x l IH]; intros b; cbn [foldM].
  - apply steady_ret.
  - apply steady_bind; [apply Hf | intros; apply IH].
Qed.

Lemma steady_add_error msg : steady (add_error msg).
Proof. apply accounts_add_error. Qed.

Lemma steady_incr_folder_created : steady incr_folder_created.
Proof. apply accounts_incr_folder_created. Qed.

Lemma steady_add_files_deleted n : steady (add_files_deleted n).
Proof. apply accounts_add_files_deleted. Qed.

Lemma steady_frame {A} c (m : M A) : (0 <= c)%Z -> steady m -> accounts c (fun _ => c) m.
Proof.
  intros Hc Hm. apply (accounts_ext (0 + c) c (fun _ => 0 + c)%Z (fun _ => c));
    [reflexivity | reflexivity |].
  apply (accounts_frame c 0 (fun _ => 0%Z)); assumption.
Qed.

Create HintDb steadydb.

#[local] Hint Resolve silent_ret silent_lift_res silent_emit silent_call silent_sleep
  silent_record_task_item silent_record_copy_items silent_record_delete_items
  silent_list_dir silent_create_directory : steadydb.

(** Splits a goal [steady m] or [silent m] along the structure of [m]. *)
Ltac steady_step :=
  first
    [ solve [ auto with steadydb ]
    | lazymatch goal with
      | |- silent (bind _ _) => apply silent_bind; [| intros ]
      | |- silent (match ?x with _ => _ end) => destruct x
      | |- steady (ret _) => apply steady_ret
      | |- steady (add_error _) => apply steady_add_error
      | |- steady incr_folder_created => apply steady_incr_folder_created
      | |- steady (add_files_deleted _) => apply steady_add_files_deleted
      | |- steady (bind _ _) => apply steady_bind; [| intros ]
      | |- steady (foldM _ _ _) => apply steady_foldM; intros
      | |- steady (match ?x with _ => _ end) => destruct x
      | |- steady _ => apply steady_silent
      end ].

Ltac steady_tac := repeat steady_step.

(** Reads a goal [accounts 0 (fun _ => 0) m] as [steady m]. *)
Ltac as_steady :=
  lazymatch goal with
  | |- accounts _ _ ?m => change (steady m)
  end.

(** The handlers of the engine: an error and audit rows. *)
Lemma adds_error_copy_handler j files msg :
  adds_error (fun _ : bool => 0%Z)
    (add_error msg ;; record_copy_items j "failed" (Some msg) files ;; ret false).
Proof. apply adds_error_then; [steady_tac | reflexivity]. Qed.

Lemma adds_error_delete_handler j files msg :
  adds_error (fun _ : bool => 0%Z)
    (add_error msg ;; record_delete_items j "failed" (Some msg) files ;; ret false).
Proof. apply adds_error_then; [steady_tac | reflexivity]. Qed.

(** *** The pieces of the engine *)

Lemma accounts_transfer_files j td files :
  accounts (pending_of files) (fun _ => 0%Z) (transfer_files j td files).
Proof.
  unfold transfer_files. destruct files as [| first_file rest].
  - apply steady_ret.
  - set (files := first_file :: rest).
    assert (P0 : (0 <= pending_of files)%Z) by apply pending_of_nonneg.
    apply accounts_try_except; [| intros e; apply adds_error_copy_handler].
    destruct (collect_file_ids files []) as [file_info | file_ids].
    + apply accounts_of_adds_error; [exact P0 |]. cbv zeta.
      apply adds_error_then; [unfold record_copy_item; steady_tac | reflexivity].
    + cbv zeta.
      apply (accounts_bind _ (fun _ => pending_of files) _);
        [apply accounts_silent; [exact P0 | apply silent_lift_res] |].
      intros params.
      apply (accounts_bind _ (fun _ => pending_of files) _);
        [apply accounts_silent; [exact P0 | apply silent_call] |].
      intros [|].
      * cbv iota.
        apply (accounts_bind _ (fun _ => 0%Z) _); [| intros; as_steady; steady_tac].
        apply (accounts_bind _ (fun _ => 0%Z) _); [| intros; as_steady; steady_tac].
        apply (accounts_ext (pending_of files) (pending_of files)
                 (fun _ => pending_of files - Z.of_nat (length files))%Z (fun _ => 0%Z));
          [reflexivity | intros; unfold pending_of; lia |].
        apply accounts_add_files_transferred.
      * apply accounts_of_adds_error; [exact P0 |]. cbv zeta.
        match goal with
        | |- adds_error _ (bind (bind (add_error ?msg) ?k1) ?k2) =>
            assert (E : bind (bind (add_error msg) k1) k2
                        = bind (add_error msg) (fun u => bind (k1 u) k2))
        end.
        { unfold bind, add_error, modify_stats. reflexivity. }
        rewrite E. apply adds_error_then; [steady_tac | ].
        intros s a _. reflexivity.
Qed.

Lemma steady_delete_files j td files : steady (delete_files j td files).
Proof.
  unfold delete_files. destruct files as [| f rest]; [apply steady_ret |].
  apply steady_try_except; [| intros e; apply adds_error_delete_handler].
  cbv zeta. steady_tac.
Qed.

Lemma steady_handle_transfer_error j path : steady (_handle_transfer_error j path).
Proof.
  unfold _handle_transfer_error.
  apply steady_bind; [apply steady_silent; intros s; reflexivity |].
  intros st. cbv zeta. steady_tac.
Qed.

Lemma accounts_transfer_collected j td path files :
  accounts (pending_of files) (fun _ => 0%Z) (transfer_collected j td path files).
Proof.
  unfold transfer_collected. destruct files as [| f rest]; [apply steady_ret |].
  apply (accounts_bind _ (fun _ => 0%Z) _); [apply accounts_transfer_files |].
  intros [|]; [apply steady_ret | apply steady_handle_transfer_error].
Qed.

Lemma accounts_with_have_tail j td path smap tmap files :
  accounts (pending_of files) (fun _ => 0%Z) (with_have_tail j td path smap tmap files).
Proof.
  unfold with_have_tail.
  apply (accounts_bind _ (fun _ => 0%Z) _); [apply accounts_transfer_collected |].
  intros go_on. change (steady (if go_on then
      if String.eqb (sync_method j) "full" then
        match files_to_delete_of smap tmap path with
        | [] => ret tt
        | f :: l => delete_files j td (f :: l) ;; ret tt
        end
      else ret tt else ret tt)).
  destruct go_on; [| apply steady_ret].
  destruct (String.eqb (sync_method j) "full"); [| apply steady_ret].
  destruct (files_to_delete_of smap tmap path); [apply steady_ret |].
  apply steady_bind; [apply steady_delete_files | intros; apply steady_ret].
Qed.

Lemma accounts_without_have_tail j td path files :
  accounts (pending_of files) (fun _ => 0%Z) (without_have_tail j td path files).
Proof.
  unfold without_have_tail.
  apply (accounts_bind _ (fun _ => 0%Z) _); [apply accounts_transfer_collected |].
  intros. apply steady_ret.
Qed.

Lemma steady_scan_both j sp tp tid : steady (scan_both j sp tp tid).
Proof.
  unfold scan_both. apply steady_try_except; [steady_tac |].
  intros e. apply adds_error_then; [steady_tac | reflexivity].
Qed.

Lemma steady_scan_source j sp : steady (scan_source j sp).
Proof.
  unfold scan_source. apply steady_try_except; [steady_tac |].
  intros e. apply adds_error_then; [steady_tac | reflexivity].
Qed.

Lemma accounts_with_have_item j rec_with rec_without td sp tp d tmap acc item :
  (forall td' sp' tp' tid' d', steady (rec_with td' sp' tp' tid' d')) ->
  (forall td' sp' tp' d', steady (rec_without td' sp' tp' d')) ->
  accounts (pending_of acc) pending_of
    (with_have_item j rec_with rec_without td sp tp d tmap acc item).
Proof.
  intros Hw Hwo. unfold with_have_item. destruct item as [file_name file_info].
  destruct (negb (endswith_slash file_name)).
  - apply (accounts_bind _ (fun _ => pending_of acc + 1)%Z _);
      [apply accounts_incr_files_processed |].
    intros _. destruct (needs_transfer tmap file_name file_info).
    + eapply accounts_ext; [| reflexivity | apply accounts_ret].
      apply pending_of_snoc.
    + apply (accounts_bind _ (fun _ => pending_of acc) _); [| intros; apply accounts_ret].
      eapply accounts_ext; [reflexivity | | apply accounts_incr_files_skipped].
      intros. cbv beta. lia.
  - cbv zeta.
    apply (accounts_bind _ (fun _ => pending_of acc) _); [| intros; apply accounts_ret].
    apply steady_frame; [apply pending_of_nonneg |].
    destruct (negb (dict_mem tmap file_name)); [apply Hwo | apply Hw].
Qed.

Lemma accounts_without_have_item j rec_without td sp tp d acc item :
  (forall td' sp' tp' d', steady (rec_without td' sp' tp' d')) ->
  accounts (pending_of acc) pending_of (without_have_item j rec_without td sp tp d acc item).
Proof.
  intros Hwo. unfold without_have_item. destruct item as [file_name file_info].
  destruct (endswith_slash file_name).
  - cbv zeta.
    apply (accounts_bind _ (fun _ => pending_of acc) _); [| intros; apply accounts_ret].
    apply steady_frame; [apply pending_of_nonneg | apply Hwo].
  - apply (accounts_bind _ (fun _ => pending_of acc + 1)%Z _);
      [apply accounts_incr_files_processed |].
    intros _. eapply accounts_ext; [| reflexivity | apply accounts_ret].
    apply pending_of_snoc.
Qed.

Lemma steady_sync_without_have_fuel fuel :
  forall j td sp tp d, steady (sync_without_have_fuel fuel j td sp tp d).
Proof.
  induction fuel as [| fuel IH]; intros j td sp tp d; cbn [sync_without_have_fuel];
    destruct (Nat.leb (max_depth j) d); try (apply steady_silent; apply silent_emit).
  - apply steady_ret.
  - cbv zeta. apply steady_bind; [apply steady_silent; apply silent_create_directory |].
    intros [info |]; [| apply steady_add_error].
    apply steady_bind; [apply steady_incr_folder_created |]. intros _.
    apply steady_bind; [apply steady_silent; apply silent_record_task_item |]. intros _.
    apply steady_bind; [apply steady_silent; apply silent_lift_res |]. intros td'.
    apply steady_bind; [apply steady_scan_source |].
    intros [smap |]; [| apply steady_ret].
    apply (accounts_bind 0 pending_of (fun _ => 0%Z)).
    + apply (accounts_foldM _ smap); intros acc x.
      apply accounts_without_have_item. intros. apply IH.
    + intros files. apply accounts_without_have_tail.
Qed.

Lemma steady_sync_with_have_fuel fuel :
  forall j td sp tp tid d, steady (sync_with_have_fuel fuel j td sp tp tid d).
Proof.
  induction fuel as [| fuel IH]; intros j td sp tp tid d; cbn [sync_with_have_fuel];
    destruct (Nat.leb (max_depth j) d); try (apply steady_silent; apply silent_emit).
  - apply steady_ret.
  - apply steady_bind; [apply steady_scan_both |].
    intros [[smap tmap] |]; [| apply steady_ret].
    apply (accounts_bind 0 pending_of (fun _ => 0%Z)).
    + apply (accounts_foldM _ smap); intros acc x.
      apply accounts_with_have_item; intros; [apply IH | apply steady_sync_without_have_fuel].
    + intros files. apply accounts_with_have_tail.
Qed.

Lemma steady_handle_overwrite_sync j td : steady (_handle_overwrite_sync j td).
Proof.
  unfold _handle_overwrite_sync.
  apply steady_try_except; [| intros e; apply adds_error_alone; reflexivity].
  apply steady_bind; [apply steady_silent; apply silent_list_dir |]. intros tmap.
  apply steady_bind.
  { destruct tmap; [apply steady_ret |]. cbv zeta.
    apply steady_bind; [apply steady_delete_files | intros; apply steady_ret]. }
  intros _.
  apply steady_bind; [apply steady_silent; apply silent_list_dir |]. intros smap.
  destruct smap as [| kv smap]; [apply steady_ret |].
  apply (accounts_bind 0 pending_of (fun _ => 0%Z)).
  - apply (accounts_foldM _ (kv :: smap)); intros acc x.
    apply (accounts_bind _ (fun _ => pending_of acc + 1)%Z _);
      [apply accounts_incr_files_processed |].
    intros _. eapply accounts_ext; [| reflexivity | apply accounts_ret].
    apply pending_of_snoc.
  - intros files.
    apply (accounts_bind _ (fun _ => 0%Z) _); [apply accounts_transfer_collected |].
    intros. apply steady_ret.
Qed.

Lemma steady_perform_sync_body j td : steady (perform_sync_body j td).
Proof.
  unfold perform_sync_body.
  apply steady_try_except; [| intros e; apply adds_error_alone; reflexivity].
  destruct (String.eqb (sync_method j) "overwrite");
    [apply steady_handle_overwrite_sync | apply steady_sync_with_have_fuel].
Qed.

Lemma perform_sync_body_returns j td s : fst (perform_sync_body j td s) = Ok tt.
Proof.
  unfold perform_sync_body, try_except.
  match goal with |- context [match ?m with _ => _ end] => destruct m as [[[] | e] s1] end;
    reflexivity.
Qed.

Lemma accounts_grow {A} p (q : A -> Z) (m : M A) s :
  accounts p q m -> stats_grow (stats s) (stats (snd (m s))).
Proof. intros H. exact (proj1 (H s)). Qed.

(** X1.  The two recursive procedures, the overwrite strategy and the two batched
    operations never lower a counter of the statistics and never drop,
    change or reorder an error that is already recorded: whatever the
    provider does, they only add to the counters and append to
    [Stats.errors]. *)
Theorem statistics_only_grow j td sp tp tid d files del s :
  stats_grow (stats s) (stats (snd (sync_with_have j td sp tp tid d s))) /\
  stats_grow (stats s) (stats (snd (sync_without_have j td sp tp d s))) /\
  stats_grow (stats s) (stats (snd (_handle_overwrite_sync j td s))) /\
  stats_grow (stats s) (stats (snd (transfer_files j td files s))) /\
  stats_grow (stats s) (stats (snd (delete_files j td del s))).
Proof.
  split; [| split; [| split; [| split]]].
  - exact (accounts_grow _ _ _ s (steady_sync_with_have_fuel _ j td sp tp tid d)).
  - exact (accounts_grow _ _ _ s (steady_sync_without_have_fuel _ j td sp tp d)).
  - exact (accounts_grow _ _ _ s (steady_handle_overwrite_sync j td)).
  - exact (accounts_grow _ _ _ s (accounts_transfer_files j td files)).
  - exact (accounts_grow _ _ _ s (steady_delete_files j td del)).
Qed.

(** X2.  At the end of [perform_sync], under any strategy and with any provider,
    the files counted as transferred and as skipped are never more than the
    files counted as processed; and when the run is a success (no error was
    recorded) every processed file is one or the other:
    [files_transferred + files_skipped = files_processed]. *)
Theorem processed_files_are_accounted j td w :
  let st := sr_stats (fst (perform_sync j td w)) in
  files_transferred st + files_skipped st <= files_processed st /\
  (sr_success (fst (perform_sync j td w)) = true ->
   files_transferred st + files_skipped st = files_processed st).
Proof.
  unfold perform_sync. cbn [fst sr_stats sr_success].
  pose proof (steady_perform_sync_body j td (mkSt w empty_stats [])) as [G H].
  rewrite perform_sync_body_returns in H. destruct H as [I E].
  unfold unaccounted, empty_stats in *.
  cbn [stats errors files_processed files_transferred files_skipped] in *.
  split; [lia |]. intros S. apply Nat.eqb_eq in S. apply length_zero_iff_nil in S.
  specialize (E S). lia.
Qed.

(** ** Failures of the provider *)

Lemma bind_ok {A B} (m : M A) (f : A -> M B) s a s1 :
  m s = (Ok a, s1) -> bind m f s = f a s1.
Proof. intros H. unfold bind. rewrite H. reflexivity. Qed.

Lemma bind_raise {A B} (m : M A) (f : A -> M B) s e s1 :
  m s = (Raise e, s1) -> bind m f s = (Raise e, s1).
Proof. intros H. unfold bind. rewrite H. reflexivity. Qed.

Lemma try_except_ok {A} (m : M A) (h : string -> M A) s a s1 :
  m s = (Ok a, s1) -> try_except m h s = (Ok a, s1).
Proof. intros H. unfold try_except. rewrite H. reflexivity. Qed.

Lemma try_except_raise {A} (m : M A) (h : string -> M A) s e s1 :
  m s = (Raise e, s1) -> try_except m h s = h e s1.
Proof. intros H. unfold try_except. rewrite H. reflexivity. Qed.

Lemma list_dir_source_raises j path s e w' :
  get_share_list dm (x_token j)
    (mkListShareFilesParam (drive_type j) (ssd_source_type (source_definition j))
       (ssd_source_id (source_definition j)) path) (world s) = (Raise e, w') ->
  list_dir j path true VNone s
  = (Raise e,
     mkSt w' (stats s)
       (trace s ++ [EGetShareList
                      (mkListShareFilesParam (drive_type j)
                         (ssd_source_type (source_definition j))
                         (ssd_source_id (source_definition j)) path)])).
Proof.
  intros H. unfold list_dir. apply bind_raise. unfold call. rewrite H. reflexivity.
Qed.

(** X3.  When the directory of a level cannot be created (the provider raises, or
    answers with no entry), [sync_without_have] records the one error
    "创建目录失败: <target_path>" and returns: the source is not listed,
    nothing is transferred, no counter moves, and the [mkdir] call is the
    only call made. *)
Theorem failed_mkdir_skips_the_directory j td sp tp d s r w' :
  d < max_depth j ->
  create_mkdir dm (x_token j)
    (mkMkdirParam (drive_type j) (dtd_file_path td) (Some (dtd_file_id td))
       (Some (last_component (rstrip_slash tp))) true) (world s) = (r, w') ->
  (r = Ok None \/ exists e, r = Raise e) ->
  sync_without_have j td sp tp d s
  = (Ok tt,
     with_error ("创建目录失败: " ^^ tp)
       (mkSt w' (stats s)
          (trace s ++ [ECreateMkdir
                         (mkMkdirParam (drive_type j) (dtd_file_path td)
                            (Some (dtd_file_id td))
                            (Some (last_component (rstrip_slash tp))) true)]))).
Proof.
  intros Hd Hc Hr. unfold sync_without_have.
  destruct (max_depth j - d) as [| fuel] eqn:E; [lia |].
  cbn [sync_without_have_fuel].
  assert (L : Nat.leb (max_depth j) d = false) by (apply Nat.leb_gt; lia).
  rewrite L. cbv zeta. unfold bind at 1. unfold create_directory, try_except, call.
  rewrite Hc. destruct Hr as [Hr | [e Hr]]; subst r; reflexivity.
Qed.

(** X4.  When the listing of the source root raises, a job of the incremental or
    full strategy ends there: the result is a failure whose only error is
    "扫描目录失败: <source> -> <target>, 错误: <the exception>", every counter
    is zero, and the failed listing is the only call made. *)
Theorem failed_root_listing_fails_the_job j td w e w' :
  String.eqb (sync_method j) "overwrite" = false ->
  0 < max_depth j ->
  get_share_list dm (x_token j)
    (mkListShareFilesParam (drive_type j) (ssd_source_type (source_definition j))
       (ssd_source_id (source_definition j)) (ssd_file_path (source_definition j))) w
  = (Raise e, w') ->
  let msg := "扫描目录失败: " ^^ ssd_file_path (source_definition j) ^^ " -> "
               ^^ dtd_file_path td ^^ ", 错误: " ^^ e in
  perform_sync j td w
  = (mkSyncResult false (mkStats 0 0 0 0 0 [msg]) (Some msg),
     mkSt w' (mkStats 0 0 0 0 0 [msg])
       [EGetShareList
          (mkListShareFilesParam (drive_type j) (ssd_source_type (source_definition j))
             (ssd_source_id (source_definition j))
             (ssd_file_path (source_definition j)))]).
Proof.
  intros Hm Hd Hc msg. unfold perform_sync, perform_sync_body. rewrite Hm.
  unfold sync_with_have. rewrite Nat.sub_0_r.
  destruct (max_depth j) as [| fuel] eqn:E; [lia |].
  cbn [sync_with_have_fuel]. rewrite E. cbn [Nat.leb].
  pose proof (list_dir_source_raises j (ssd_file_path (source_definition j))
                (mkSt w empty_stats []) e w' Hc) as Hl.
  erewrite try_except_ok.
  2: { erewrite bind_ok.
       2: { unfold scan_both. erewrite try_except_raise.
            2: { apply bind_raise. exact Hl. }
            reflexivity. }
       reflexivity. }
  reflexivity.
Qed.

(** ** A file without an id *)

Lemma collect_file_ids_stops good bad rest :
  Forall (fun f => truthy (dict_get_default f "file_id" (VStr "")) = true) good ->
  truthy (dict_get_default bad "file_id" (VStr "")) = false ->
  forall acc, collect_file_ids (good ++ bad :: rest) acc = inl bad.
Proof.
  intros Hg Hb. induction Hg as [| f good Hf Hg IH]; intros acc; cbn [app collect_file_ids].
  - cbv zeta. rewrite Hb. reflexivity.
  - cbv zeta. rewrite Hf. apply IH.
Qed.

(** X5.  One file whose [file_id] is missing or empty rejects the whole batch:
    [transfer_files] returns [False] without calling the provider, whatever
    the other files are; the error "文件 <name> 缺少file_id" of the first
    such file is recorded, no counter moves, and at most one audit row (for
    that file) is written. *)
Theorem missing_file_id_rejects_the_batch j td good bad rest s :
  Forall (fun f => truthy (dict_get_default f "file_id" (VStr "")) = true) good ->
  truthy (dict_get_default bad "file_id" (VStr "")) = false ->
  let msg := "文件 " ^^ py_str (dict_get_default bad "file_name" (VStr ""))
               ^^ " 缺少file_id" in
  let r := transfer_files j td (good ++ bad :: rest) s in
  fst r = Ok false /\
  world (snd r) = world s /\
  stats (snd r) = stats (with_error msg s) /\
  exists t,
    trace (snd r) = trace s ++ t /\ forallb (fun e => negb (is_call e)) t = true /\
    length t <= 1.
Proof.
  intros Hg Hb msg r. subst r.
  pose proof (collect_file_ids_stops good bad rest Hg Hb []) as Hc.
  unfold transfer_files.
  destruct (good ++ bad :: rest) as [| first_file others] eqn:E;
    [destruct good; discriminate |].
  rewrite Hc. cbv zeta. fold msg.
  unfold try_except, bind, add_error, modify_stats, record_copy_item, record_task_item, ret.
  destruct (task_id j) as [t |]; [destruct (negb (Z.eqb t 0) && db j)%bool |];
    cbn [fst snd world stats trace emit];
    (split; [reflexivity |]); (split; [reflexivity |]); (split; [reflexivity |]).
  - eexists. split; [reflexivity |]. split; [reflexivity | simpl; lia].
  - exists []. rewrite app_nil_r. split; [reflexivity |]. split; [reflexivity | simpl; lia].
  - exists []. rewrite app_nil_r. split; [reflexivity |]. split; [reflexivity | simpl; lia].
Qed.

(** ** The overwrite strategy *)

Lemma bind_assoc {A B C} (m : M A) (f : A -> M B) (g : B -> M C) s :
  bind (bind m f) g s = bind m (fun a => bind (f a) g) s.
Proof. unfold bind. destruct (m s) as [[a | e] s1]; reflexivity. Qed.

Lemma keeps_split P1 P2 {A B} (m : M A) (f : A -> M B) :
  keeps P1 m -> (forall a, keeps P2 (f a)) ->
  forall s, exists t1 t2,
    trace (snd (bind m f s)) = trace s ++ t1 ++ t2 /\
    forallb P1 t1 = true /\ forallb P2 t2 = true.
Proof.
  intros Hm Hf s. unfold bind. destruct (Hm s) as [t1 [E1 F1]].
  destruct (m s) as [[a | e] s1]; cbn [snd] in *.
  - destruct (Hf a s1) as [t2 [E2 F2]]. exists t1, t2.
    rewrite E2, E1, app_assoc. auto.
  - exists t1, []. rewrite app_nil_r. auto.
Qed.

Lemma trace_try_add_error {A} (m : M A) (h : string -> M A) s :
  (forall e s1, trace (snd (h e s1)) = trace s1) ->
  trace (snd (try_except m h s)) = trace (snd (m s)).
Proof.
  intros Hh. unfold try_except. destruct (m s) as [[a | e] s1]; cbn [snd];
    [reflexivity | apply Hh].
Qed.

Lemma list_dir_at_most_one j path is_src tid :
  at_most is_listing 1 (list_dir j path is_src tid).
Proof.
  unfold list_dir. apply (at_most_bind is_listing 1 0).
  - destruct is_src; [apply at_most_call |].
    apply (at_most_bind is_listing 0 1); [apply at_most_of_keeps; apply keeps_lift_res |].
    intros. apply at_most_call.
  - intros. apply at_most_of_keeps. apply keeps_ret.
Qed.

(** The two halves of the overwrite strategy. *)
Lemma overwrite_body_split j td s :
  forall (P1 P2 : event -> bool),
    (forall p, P1 (EGetDiskList p) = true) -> (forall p, P1 (ERemoveFiles p) = true) ->
    (forall n, P1 (ESleep n) = true) -> (forall c, P1 (ERecordTaskItem c) = true) ->
    (forall p, P2 (EGetShareList p) = true) -> (forall p, P2 (ETransferFiles p) = true) ->
    (forall n, P2 (ESleep n) = true) -> (forall c, P2 (ERecordTaskItem c) = true) ->
    exists t1 t2,
      trace (snd (_handle_overwrite_sync j td s)) = trace s ++ t1 ++ t2 /\
      forallb P1 t1 = true /\ forallb P2 t2 = true.
Proof.
  intros P1 P2 A1 A2 A3 A4 B1 B2 B3 B4. unfold _handle_overwrite_sync.
  rewrite trace_try_add_error by (intros; reflexivity).
  match goal with
  | |- context [bind ?m (fun a => bind (@?f a) ?g) s] =>
      change (bind m (fun a => bind (f a) g) s) with (bind m (fun a => bind (f a) g) s);
      rewrite <- (bind_assoc m f g s)
  end.
  apply keeps_split.
  - apply keeps_bind.
    + unfold list_dir. keeps_tac.
    + intros tmap. destruct tmap; [apply keeps_ret |]. cbv zeta.
      apply keeps_bind; [| intros; apply keeps_ret].
      unfold delete_files. unfold add_error, add_files_deleted, sleep, record_delete_items,
        record_task_item. keeps_tac.
  - intros _. apply keeps_bind.
    + unfold list_dir. keeps_tac.
    + intros smap. destruct smap; [apply keeps_ret |].
      apply keeps_bind; [unfold incr_files_processed; keeps_tac |].
      intros files. apply keeps_bind; [| intros; apply keeps_ret].
      unfold transfer_collected, transfer_files, _handle_transfer_error, add_error,
        add_files_transferred, sleep, record_copy_items, record_copy_item, record_task_item.
      keeps_tac.
Qed.

Lemma overwrite_counts j td (c : event -> bool) k_list k_del k_tr :
  (forall p, at_most c k_list (list_dir j p false (VStr (dtd_file_id td)))) ->
  (forall p, at_most c k_list (list_dir j p true VNone)) ->
  (forall files, at_most c k_del (delete_files j td files)) ->
  (forall path files, at_most c k_tr (transfer_collected j td path files)) ->
  (forall n, c (ESleep n) = false) -> (forall x, c (ERecordTaskItem x) = false) ->
  at_most c (k_list + k_del + k_list + k_tr) (_handle_overwrite_sync j td).
Proof.
  intros Hl1 Hl2 Hd Ht Hs Hi. unfold _handle_overwrite_sync.
  apply at_most_weaken with (k_list + (k_del + (k_list + (0 + k_tr))) + 0); [lia |].
  apply at_most_try_except.
  - apply at_most_bind; [apply Hl1 |]. intros tmap.
    apply at_most_bind.
    { destruct tmap.
      - apply at_most_weaken with 0; [lia |]. apply at_most_of_keeps. apply keeps_ret.
      - cbv zeta. apply at_most_weaken with (k_del + 0); [lia |].
        apply at_most_bind; [apply Hd |]. intros. apply at_most_of_keeps. apply keeps_ret. }
    intros _. apply at_most_bind; [apply Hl2 |]. intros smap.
    destruct smap as [| kv smap].
    + apply at_most_weaken with 0; [lia |]. apply at_most_of_keeps. apply keeps_ret.
    + apply at_most_bind.
      * apply at_most_of_keeps. unfold incr_files_processed. keeps_tac.
      * intros files. apply at_most_weaken with (k_tr + 0); [lia |].
        apply at_most_bind; [apply Ht |]. intros. apply at_most_of_keeps. apply keeps_ret.
  - intros e. apply at_most_of_keeps. unfold add_error. keeps_tac.
Qed.

(** X6.  The overwrite strategy works on the first level only, in two steps: it
    lists the target and removes what it lists with at most one batched
    [remove]; then it lists the source and transfers what it lists with at
    most one batched [transfer].  It never creates a directory, never
    transfers before it has removed, and makes at most two listings: the
    subdirectories of the source are not entered. *)
Theorem overwrite_removes_then_transfers j td s :
  exists t_remove t_transfer,
    trace (snd (_handle_overwrite_sync j td s)) = trace s ++ t_remove ++ t_transfer /\
    forallb (fun e => negb (is_mkdir e || is_transfer e || is_share_listing e)) t_remove
    = true /\
    forallb (fun e => negb (is_mkdir e || is_remove e || is_disk_listing e)) t_transfer
    = true /\
    length (filter is_remove t_remove) <= 1 /\
    length (filter is_transfer t_transfer) <= 1 /\
    length (filter is_listing (t_remove ++ t_transfer)) <= 2.
Proof.
  destruct (overwrite_body_split j td s
              (fun e => negb (is_mkdir e || is_transfer e || is_share_listing e))
              (fun e => negb (is_mkdir e || is_remove e || is_disk_listing e)))
    as (t1 & t2 & E & F1 & F2); try (intros; reflexivity).
  assert (N : forall (c : event -> bool) (P : event -> bool) t,
             forallb P t = true -> (forall e, P e = true -> c e = false) -> filter c t = []).
  { intros c P t F H. induction t as [| e t IH]; [reflexivity |].
    cbn in F. apply andb_true_iff in F. destruct F as [Fe Ft]. cbn.
    rewrite (H e Fe). apply IH. exact Ft. }
  assert (R : length (filter is_remove (t1 ++ t2)) <= 1).
  { destruct (overwrite_counts j td is_remove 0 1 0) with (s := s) as [t [Et Ct]];
      try (intros; reflexivity).
    - intros. no_call keeps_list_dir.
    - intros. no_call keeps_list_dir.
    - apply delete_files_at_most_one.
    - intros. no_call keeps_transfer_collected.
    - rewrite E in Et. apply app_inv_head in Et. subst t. exact Ct. }
  assert (T : length (filter is_transfer (t1 ++ t2)) <= 1).
  { destruct (overwrite_counts j td is_transfer 0 0 1) with (s := s) as [t [Et Ct]];
      try (intros; reflexivity).
    - intros. no_call keeps_list_dir.
    - intros. no_call keeps_list_dir.
    - intros. no_call keeps_delete_files.
    - apply transfer_collected_at_most_one.
    - rewrite E in Et. apply app_inv_head in Et. subst t. simpl in Ct. exact Ct. }
  assert (L : length (filter is_listing (t1 ++ t2)) <= 2).
  { destruct (overwrite_counts j td is_listing 1 0 0) with (s := s) as [t [Et Ct]];
      try (intros; reflexivity).
    - intros. apply list_dir_at_most_one.
    - intros. apply list_dir_at_most_one.
    - intros. no_call keeps_delete_files.
    - intros. no_call keeps_transfer_collected.
    - rewrite E in Et. apply app_inv_head in Et. subst t. simpl in Ct. exact Ct. }
  exists t1, t2. split; [exact E |]. split; [exact F1 |]. split; [exact F2 |].
  rewrite filter_app, length_app in R, T.
  repeat split; try lia; exact L.
Qed.

(** ** The listings *)

Lemma find_app {A} (p : A -> bool) (l1 l2 : list A) :
  find p (l1 ++ l2) = match find p l1 with Some x => Some x | None => find p l2 end.
Proof.
  induction l1 as [| x l1 IH]; cbn [app find]; [reflexivity |].
  destruct (p x); [reflexivity | exact IH].
Qed.

Lemma listing_lookup_from flt is_src files k :
  forall m : dict (dict pyval),
    dict_get
      (fold_left (fun file_map file =>
                    if excluded flt file then file_map
                    else dict_set file_map (entry_key file) (entry_info is_src file))
         files m) k
    = match find (fun f => String.eqb k (entry_key f))
              (rev (filter (fun f => negb (excluded flt f)) files)) with
      | Some f => Some (entry_info is_src f)
      | None => dict_get m k
      end.
Proof.
  induction files as [| f files IH]; intros m; cbn [fold_left filter rev find].
  - reflexivity.
  - rewrite IH. destruct (excluded flt f) eqn:X; cbn [negb].
    + reflexivity.
    + cbn [rev]. rewrite find_app. cbn [find].
      destruct (find (fun f0 => String.eqb k (entry_key f0))
                  (rev (filter (fun f0 => negb (excluded flt f0)) files))); [reflexivity |].
      destruct (String.eqb k (entry_key f)) eqn:K.
      * apply String.eqb_eq in K. subst k. apply dict_get_set_same.
      * apply dict_get_set_other. exact K.
Qed.

(** X7.  What a lookup in the map of [list_dir] finds: the entry of the listing
    that is filed under the key (a folder under its name and a slash, a file
    under its name), is not excluded by the filter, and comes last among
    those; nothing when there is none.  So an excluded entry is never in the
    map, and of two entries of one name the later one replaces the earlier. *)
Theorem listing_lookup flt is_src files k :
  dict_get (build_file_map flt is_src files) k
  = option_map (entry_info is_src)
      (find (fun f => String.eqb k (entry_key f))
         (rev (filter (fun f => negb (excluded flt f)) files))).
Proof.
  change (build_file_map flt is_src files)
    with (fold_left (fun file_map file =>
                       if excluded flt file then file_map
                       else dict_set file_map (entry_key file) (entry_info is_src file))
            files []).
  rewrite listing_lookup_from.
  destruct (find _ _); reflexivity.
Qed.

(** ** The batched delete of the full strategy *)

Lemma keeps_delete_files_tail j files result :
  keeps (fun e => negb (is_remove e))
    ((if result : bool then
        add_files_deleted (length files) ;;
        record_delete_items j "completed" None files
      else
        let error_msg := "批量删除失败，涉及 " ^^ str_of_nat (length files) ^^ " 个文件" in
        add_error error_msg ;;
        record_delete_items j "failed" (Some error_msg) files) ;;
     match recursion_speed j with
     | SLOW => sleep 3
     | NORMAL => sleep 1
     | FAST => ret tt
     end ;;
     ret result).
Proof.
  assert (R : forall st e, keeps (fun e => negb (is_remove e)) (record_delete_items j st e files)).
  { intros. apply keeps_record_delete_items. intros; reflexivity. }
  unfold add_files_deleted, add_error, sleep. cbv zeta.
  destruct result; keeps_tac.
Qed.

Lemma keeps_delete_files_handler j files e :
  keeps (fun e => negb (is_remove e))
    (add_error e ;; record_delete_items j "failed" (Some e) files ;; ret false).
Proof.
  assert (R : forall st e, keeps (fun e => negb (is_remove e)) (record_delete_items j st e files)).
  { intros. apply keeps_record_delete_items. intros; reflexivity. }
  unfold add_error. keeps_tac.
Qed.

(** The one [remove] call of [delete_files], when it is made, has the
    parameters built from the whole list. *)
Lemma delete_files_event j td files s :
  exists t,
    trace (snd (delete_files j td files s)) = trace s ++ t /\
    forall p, In (ERemoveFiles p) t ->
      new_RemoveParam (drive_type j)
        (map (fun file_info =>
                rstrip_slash (di_target_path file_info) ^^ "/" ^^ di_file_name file_info)
           files)
        (map di_file_id (filter (fun file_info => truthy (di_file_id file_info)) files))
        (dtd_file_id td) = Ok p.
Proof.
  unfold delete_files. destruct files as [| f rest].
  - exists []. rewrite app_nil_r. split; [reflexivity |]. intros p [].
  - set (files := f :: rest). cbv zeta.
    destruct (new_RemoveParam (drive_type j)
                (map (fun file_info =>
                        rstrip_slash (di_target_path file_info) ^^ "/"
                          ^^ di_file_name file_info) files)
                (map di_file_id (filter (fun file_info => truthy (di_file_id file_info)) files))
                (dtd_file_id td)) as [params | e] eqn:Hp.
    + unfold try_except. unfold bind at 1. unfold lift_res at 1. unfold bind at 1.
      unfold call at 1.
      destruct (remove_files dm (x_token j) params (world s)) as [[result | e] w'].
      * match goal with
        | |- context [bind ?m ?k ?s1] =>
            pose proof (keeps_delete_files_tail j files result s1) as K
        end.
        apply appends_in in K. destruct K as [t [E F]].
        match goal with
        | |- context [trace (snd (match ?c with _ => _ end))] =>
            assert (Hs : exists t', trace (snd c) = trace s ++ ERemoveFiles params :: t' /\
                                    forall e, In e t' -> negb (is_remove e) = true)
        end.
        { exists t. cbn [trace] in E. rewrite E, <- app_assoc. split; [reflexivity | exact F]. }
        destruct Hs as [t' [E' F']].
        match goal with
        | |- context [trace (snd (match ?c with _ => _ end))] => destruct c as [[a | e] s2]
        end.
        -- exists (ERemoveFiles params :: t'). split; [exact E' |].
           intros p [Hin | Hin]; [inversion Hin; subst; reflexivity |].
           apply F' in Hin. discriminate.
        -- cbn [snd] in E'.
           destruct (appends_in _ _ _ (keeps_delete_files_handler j files e s2))
             as [t2 [E2 F2]].
           exists ((ERemoveFiles params :: t') ++ t2). split.
           ++ etransitivity; [exact E2 |]. rewrite E', <- app_assoc. reflexivity.
           ++ intros p Hin. apply in_app_or in Hin. destruct Hin as [[Hin | Hin] | Hin].
              ** inversion Hin; subst; reflexivity.
              ** apply F' in Hin. discriminate.
              ** apply F2 in Hin. discriminate.
      * match goal with
        | |- context [trace (snd (?h ?s1))] =>
            destruct (appends_in _ _ _ (keeps_delete_files_handler j files e s1))
              as [t2 [E2 F2]]
        end.
        exists (ERemoveFiles params :: t2). split.
        -- etransitivity; [exact E2 |]. cbn [trace]. rewrite <- app_assoc. reflexivity.
        -- intros p [Hin | Hin]; [inversion Hin; subst; reflexivity |].
           apply F2 in Hin. discriminate.
    + unfold try_except. unfold bind at 1. unfold lift_res at 1.
      destruct (appends_in _ _ _ (keeps_delete_files_handler j files e s))
        as [t2 [E2 F2]].
      exists t2. split; [exact E2 |]. intros p Hin. apply F2 in Hin. discriminate.
Qed.

Lemma in_dict_mem {V} (d : dict V) k v : In (k, v) d -> dict_mem d k = true.
Proof.
  unfold dict_mem. induction d as [| [k' v'] r IH]; intros H; [destruct H |].
  cbn [dict_get]. destruct (String.eqb k k') eqn:E; [reflexivity |].
  destruct H as [H | H]; [inversion H; subst; rewrite String.eqb_refl in E; discriminate |].
  apply IH. exact H.
Qed.

Lemma new_RemoveParam_paths dt paths ids parent p :
  new_RemoveParam dt paths ids parent = Ok p ->
  rmp_file_paths p = none_if_empty paths /\ rmp_parent_id p = Some parent.
Proof.
  unfold new_RemoveParam. destruct (all_str ids); [| discriminate].
  intros H. inversion H. split; reflexivity.
Qed.

(** X8.  Whatever a level of [sync_with_have] deletes is a target entry that the
    source listing lacks: every path of a [remove] call made after the loop
    is the level's target path joined with the key of an entry that is in
    the target map and not in the source map; and such a call is made under
    the full strategy only. *)
Theorem level_removes_only_what_the_source_lacks j td tp smap tmap files s :
  exists t,
    trace (snd (with_have_tail j td tp smap tmap files s)) = trace s ++ t /\
    forall p, In (ERemoveFiles p) t ->
      sync_method j = "full" /\
      rmp_parent_id p = Some (dtd_file_id td) /\
      forall path,
        In path (match rmp_file_paths p with Some l => l | None => [] end) ->
        exists name,
          path = rstrip_slash tp ^^ "/" ^^ name /\
          dict_mem tmap name = true /\ dict_mem smap name = false.
Proof.
  assert (K : keeps (fun e => negb (is_remove e)) (transfer_collected j td tp files)).
  { apply keeps_transfer_collected; intros; reflexivity. }
  unfold with_have_tail, bind. destruct (appends_in _ _ _ (K s)) as [t1 [E1 F1]].
  destruct (transfer_collected j td tp files s) as [[go_on | e] s1]; cbn [snd] in *.
  2: { exists t1. split; [exact E1 |]. intros p Hin. apply F1 in Hin. discriminate. }
  destruct go_on.
  2: { exists t1. split; [exact E1 |]. intros p Hin. apply F1 in Hin. discriminate. }
  destruct (String.eqb (sync_method j) "full") eqn:Hm.
  2: { exists t1. split; [exact E1 |]. intros p Hin. apply F1 in Hin. discriminate. }
  destruct (files_to_delete_of smap tmap tp) as [| f rest] eqn:Hd.
  { exists t1. split; [exact E1 |]. intros p Hin. apply F1 in Hin. discriminate. }
  destruct (delete_files_event j td (f :: rest) s1) as [t2 [E2 F2]].
  exists (t1 ++ t2). split.
  - destruct (delete_files j td (f :: rest) s1) as [[r | e] s2]; cbn [snd ret] in *;
      rewrite E2, E1, app_assoc; reflexivity.
  - intros p Hin. apply in_app_or in Hin. destruct Hin as [Hin | Hin];
      [apply F1 in Hin; discriminate |].
    apply F2 in Hin. apply new_RemoveParam_paths in Hin. destruct Hin as [Hp Hparent].
    split; [apply String.eqb_eq; exact Hm |]. split; [exact Hparent |].
    intros path Hpath. rewrite Hp in Hpath. cbn [map none_if_empty] in Hpath.
    change (In path (map (fun file_info =>
                            rstrip_slash (di_target_path file_info) ^^ "/"
                              ^^ di_file_name file_info) (f :: rest))) in Hpath.
    rewrite <- Hd in Hpath. unfold files_to_delete_of in Hpath.
    rewrite map_map in Hpath. apply in_map_iff in Hpath.
    destruct Hpath as [[name info] [Epath Hin]]. cbn [fst snd di_target_path di_file_name] in Epath.
    apply filter_In in Hin. destruct Hin as [Hin Hn]. cbn [fst] in Hn.
    exists name. split; [symmetry; exact Epath |]. split.
    + eapply in_dict_mem. exact Hin.
    + apply negb_true_iff. exact Hn.
Qed.

(** *** What a batch leaves in the statistics *)

Lemma record_task_item_returns j o a b c d st e s :
  exists s', record_task_item j o a b c d st e s = (Ok tt, s') /\
             stats s' = stats s /\ world s' = world s.
Proof.
  unfold record_task_item. destruct (task_id j) as [t |].
  - destruct (negb (Z.eqb t 0) && db j)%bool; eexists; (split; [reflexivity |]);
      split; reflexivity.
  - eexists. split; [reflexivity |]. split; reflexivity.
Qed.

Lemma foldM_unit_returns {A} (f : unit -> A -> M unit) l :
  (forall x s, exists s', f tt x s = (Ok tt, s') /\ stats s' = stats s /\ world s' = world s) ->
  forall s, exists s', foldM f l tt s = (Ok tt, s') /\ stats s' = stats s /\ world s' = world s.
Proof.
  intros Hf. induction l as [| x l IH]; intros s; cbn [foldM].
  - exists s. split; [reflexivity |]. split; reflexivity.
  - destruct (Hf x s) as [s1 [E1 [S1 W1]]]. rewrite (bind_ok _ _ _ _ _ E1).
    destruct (IH s1) as [s2 [E2 [S2 W2]]]. exists s2. split; [exact E2 |].
    split; congruence.
Qed.

Lemma record_copy_items_returns j st e files s :
  exists s', record_copy_items j st e files s = (Ok tt, s') /\
             stats s' = stats s /\ world s' = world s.
Proof.
  unfold record_copy_items, record_copy_item. apply foldM_unit_returns.
  intros. apply record_task_item_returns.
Qed.

Lemma record_delete_items_returns j st e files s :
  exists s', record_delete_items j st e files s = (Ok tt, s') /\
             stats s' = stats s /\ world s' = world s.
Proof.
  unfold record_delete_items. apply foldM_unit_returns.
  intros. apply record_task_item_returns.
Qed.

Lemma pace_returns (m : M unit) s :
  (exists n, m = sleep n) \/ m = ret tt ->
  exists s', m s = (Ok tt, s') /\ stats s' = stats s /\ world s' = world s.
Proof.
  intros [[n ->] | ->]; eexists; (split; [reflexivity |]); split; reflexivity.
Qed.

Lemma delete_handler_outcome j files msg s :
  let out := (add_error msg ;; record_delete_items j "failed" (Some msg) files ;; ret false) s in
  fst out = Ok false /\ stats (snd out) = stats (with_error msg s) /\ world (snd out) = world s.
Proof.
  cbv zeta. unfold add_error, modify_stats.
  erewrite bind_ok by reflexivity.
  match goal with |- context [record_delete_items ?a ?b ?c ?d ;; ?k] =>
    match goal with |- context [bind _ _ ?s0] =>
      destruct (record_delete_items_returns a b c d s0) as [s1 [E1 [S1 W1]]] end end.
  rewrite (bind_ok _ _ _ _ _ E1). cbn [ret fst snd]. split; [reflexivity |].
  split; [rewrite S1 | rewrite W1]; reflexivity.
Qed.

(** X9.  [delete_files] never raises.  Either it returns [True], and then
    [files_deleted] has grown by the number of files of the batch and
    nothing else of the statistics has changed; or it returns [False], and
    then exactly one error has been recorded and no file is counted. *)
Theorem a_delete_batch_counts_all_its_files_or_one_error j td files s :
  let out := delete_files j td files s in
  (fst out = Ok true /\
   stats (snd out) =
     mkStats (files_processed (stats s)) (folder_created (stats s))
       (files_transferred (stats s)) (files_deleted (stats s) + length files)
       (files_skipped (stats s)) (errors (stats s))) \/
  (fst out = Ok false /\ exists msg, stats (snd out) = stats (with_error msg s)).
Proof.
  cbv zeta. unfold delete_files. destruct files as [| f rest].
  { left. split; [reflexivity |]. cbn [ret snd length]. rewrite Nat.add_0_r.
    destruct (stats s); reflexivity. }
  set (files := f :: rest). cbv zeta.
  assert (P : forall s2, exists s3,
             match recursion_speed j with
             | SLOW => sleep 3
             | NORMAL => sleep 1
             | FAST => ret tt
             end s2 = (Ok tt, s3) /\ stats s3 = stats s2 /\ world s3 = world s2).
  { intros s2. apply pace_returns. destruct (recursion_speed j);
      [left; exists 1 | left; exists 3 | right]; reflexivity. }
  match goal with |- context [lift_res ?r] => destruct r as [params | e] eqn:Ep end.
  2: { erewrite try_except_raise. 2: { erewrite bind_raise by reflexivity. reflexivity. }
       destruct (delete_handler_outcome j files e s) as [H1 [H2 _]].
       right. split; [exact H1 | exists e; exact H2]. }
  destruct (remove_files dm (x_token j) params (world s)) as [[result | e] w'] eqn:Er.
  2: { erewrite try_except_raise.
       2: { erewrite bind_ok by reflexivity. erewrite bind_raise; [reflexivity |].
            unfold call. rewrite Er. reflexivity. }
       match goal with |- context [bind (add_error e) _ ?s0] =>
         destruct (delete_handler_outcome j files e s0) as [H1 [H2 _]] end.
       right. split; [exact H1 | exists e; exact H2]. }
  set (s1 := mkSt w' (stats s) (trace s ++ [ERemoveFiles params])).
  assert (C : call (remove_files dm (x_token j) params) (ERemoveFiles params) s
              = (Ok result, s1)) by (unfold call; rewrite Er; reflexivity).
  destruct result.
  - set (s2 := snd (add_files_deleted (length files) s1)).
    destruct (record_delete_items_returns j "completed" None files s2) as [s3 [E3 [S3 W3]]].
    destruct (P s3) as [s4 [E4 [S4 W4]]].
    erewrite try_except_ok.
    2: { erewrite bind_ok by reflexivity. erewrite bind_ok by exact C. cbv iota.
         erewrite bind_ok. 2: { erewrite bind_ok by reflexivity. exact E3. }
         erewrite bind_ok by exact E4. reflexivity. }
    cbn [fst snd]. left. split; [reflexivity |]. rewrite S4, S3. reflexivity.
  - set (msg := "批量删除失败，涉及 " ^^ str_of_nat (length files) ^^ " 个文件").
    set (s2 := snd (add_error msg s1)).
    destruct (record_delete_items_returns j "failed" (Some msg) files s2) as [s3 [E3 [S3 W3]]].
    destruct (P s3) as [s4 [E4 [S4 W4]]].
    erewrite try_except_ok.
    2: { erewrite bind_ok by reflexivity. erewrite bind_ok by exact C. cbv iota zeta.
         erewrite bind_ok. 2: { erewrite bind_ok by reflexivity. exact E3. }
         erewrite bind_ok by exact E4. reflexivity. }
    cbn [fst snd]. right. split; [reflexivity |]. exists msg. rewrite S4, S3. reflexivity.
Qed.

Lemma copy_handler_outcome j files msg s :
  let out := (add_error msg ;; record_copy_items j "failed" (Some msg) files ;; ret false) s in
  fst out = Ok false /\ stats (snd out) = stats (with_error msg s) /\ world (snd out) = world s.
Proof.
  cbv zeta. unfold add_error, modify_stats.
  erewrite bind_ok by reflexivity.
  match goal with |- context [record_copy_items ?a ?b ?c ?d ;; ?k] =>
    match goal with |- context [bind _ _ ?s0] =>
      destruct (record_copy_items_returns a b c d s0) as [s1 [E1 [S1 W1]]] end end.
  rewrite (bind_ok _ _ _ _ _ E1). cbn [ret fst snd]. split; [reflexivity |].
  split; [rewrite S1 | rewrite W1]; reflexivity.
Qed.

(** X10.  [transfer_files] never raises.  Either it returns [True], and then
    [files_transferred] has grown by the number of files of the batch and
    nothing else of the statistics has changed; or it returns [False], and
    then exactly one error has been recorded and no file is counted. *)
Theorem a_transfer_batch_counts_all_its_files_or_one_error j td files s :
  let out := transfer_files j td files s in
  (fst out = Ok true /\
   stats (snd out) =
     mkStats (files_processed (stats s)) (folder_created (stats s))
       (files_transferred (stats s) + length files) (files_deleted (stats s))
       (files_skipped (stats s)) (errors (stats s))) \/
  (fst out = Ok false /\ exists msg, stats (snd out) = stats (with_error msg s)).
Proof.
  cbv zeta. unfold transfer_files. destruct files as [| f rest].
  { left. split; [reflexivity |]. cbn [ret snd length]. rewrite Nat.add_0_r.
    destruct (stats s); reflexivity. }
  set (files := f :: rest). cbv zeta.
  assert (P : forall s2, exists s3,
             match recursion_speed j with
             | SLOW => sleep 2
             | NORMAL => sleep 1
             | FAST => ret tt
             end s2 = (Ok tt, s3) /\ stats s3 = stats s2 /\ world s3 = world s2).
  { intros s2. apply pace_returns. destruct (recursion_speed j);
      [left; exists 1 | left; exists 2 | right]; reflexivity. }
  destruct (collect_file_ids files []) as [bad | file_ids] eqn:Ec.
  { set (msg := "文件 " ^^ py_str (dict_get_default bad "file_name" (VStr "")) ^^ " 缺少file_id").
    set (s1 := snd (add_error msg s)).
    destruct (record_task_item_returns j "copy"
                (dict_get_default bad "source_path" (VStr ""))
                (dict_get_default bad "target_path" (VStr ""))
                (dict_get_default bad "file_name" (VStr ""))
                (dict_get_default bad "file_size" (VInt 0)) "failed" (Some msg) s1)
      as [s2 [E2 [S2 W2]]].
    erewrite try_except_ok.
    2: { erewrite bind_ok by reflexivity. erewrite bind_ok by exact E2. reflexivity. }
    cbn [fst snd]. right. split; [reflexivity |]. exists msg. rewrite S2. reflexivity. }
  match goal with |- context [lift_res ?r] => destruct r as [params | e] eqn:Ep end.
  2: { erewrite try_except_raise. 2: { erewrite bind_raise by reflexivity. reflexivity. }
       cbv zeta.
       destruct (copy_handler_outcome j files ("批量转存异常: " ^^ e) s) as [H1 [H2 _]].
       right. split; [exact H1 | eexists; exact H2]. }
  destruct (transfer_files_api dm (x_token j) params (world s)) as [[result | e] w'] eqn:Er.
  2: { erewrite try_except_raise.
       2: { erewrite bind_ok by reflexivity. erewrite bind_raise; [reflexivity |].
            unfold call. rewrite Er. reflexivity. }
       cbv zeta.
       match goal with |- context [bind (add_error ?m) _ ?s0] =>
         destruct (copy_handler_outcome j files m s0) as [H1 [H2 _]] end.
       right. split; [exact H1 | eexists; exact H2]. }
  set (s1 := mkSt w' (stats s) (trace s ++ [ETransferFiles params])).
  assert (C : call (transfer_files_api dm (x_token j) params) (ETransferFiles params) s
              = (Ok result, s1)) by (unfold call; rewrite Er; reflexivity).
  destruct result.
  - set (s2 := snd (add_files_transferred (length files) s1)).
    destruct (record_copy_items_returns j "completed" None files s2) as [s3 [E3 [S3 W3]]].
    destruct (P s3) as [s4 [E4 [S4 W4]]].
    erewrite try_except_ok.
    2: { erewrite bind_ok by reflexivity. erewrite bind_ok by exact C. cbv iota.
         erewrite bind_ok. 2: { erewrite bind_ok by reflexivity. exact E3. }
         erewrite bind_ok by exact E4. reflexivity. }
    cbn [fst snd]. left. split; [reflexivity |]. rewrite S4, S3. reflexivity.
  - set (msg := "批量转存失败：API返回False，涉及 " ^^ str_of_nat (length files) ^^ " 个文件").
    set (s2 := snd (add_error msg s1)).
    destruct (record_copy_items_returns j "failed" (Some msg) files s2) as [s3 [E3 [S3 W3]]].
    destruct (P s3) as [s4 [E4 [S4 W4]]].
    erewrite try_except_ok.
    2: { erewrite bind_ok by reflexivity. erewrite bind_ok by exact C. cbv iota zeta.
         erewrite bind_ok. 2: { erewrite bind_ok by reflexivity. exact E3. }
         erewrite bind_ok by exact E4. reflexivity. }
    cbn [fst snd]. right. split; [reflexivity |]. exists msg. rewrite S4, S3. reflexivity.
Qed.

(** X11.  [_handle_transfer_error] leaves the provider as it is and never
    raises.  When it lets the job go on it leaves the statistics as they
    are, and fewer than five errors are recorded; when it stops the job it
    records exactly one more error, which says so. *)
Theorem error_policy_goes_on_untouched_or_stops_with_one_error j current_path s :
  let out := _handle_transfer_error j current_path s in
  world (snd out) = world s /\
  ((fst out = Ok true /\ stats (snd out) = stats s /\ length (errors (stats s)) < 5) \/
   (fst out = Ok false /\
    exists msg, stats (snd out) = stats (with_error msg s) /\
                startswith "任务终止" msg = true)).
Proof.
  cbv zeta.
  assert (G : forall out, _handle_transfer_error j current_path s = out ->
            world (snd out) = world s /\
            ((fst out = Ok true /\ stats (snd out) = stats s /\
              length (errors (stats s)) < 5) \/
             (fst out = Ok false /\
              exists msg, stats (snd out) = stats (with_error msg s) /\
                          startswith "任务终止" msg = true))).
  2: { apply G. reflexivity. }
  unfold _handle_transfer_error, bind, get_stats, add_error, modify_stats, sleep, emit, ret.
  cbv beta iota zeta.
  destruct (errors (stats s)) as [| e0 errs] eqn:Ee.
  { intros out <-. split; [reflexivity |]. left. split; [reflexivity |].
    split; [reflexivity |]. cbn. lia. }
  rewrite <- Ee.
  destruct (Nat.leb 5 (length (errors (stats s)))) eqn:E5.
  { intros out <-. split; [reflexivity |]. right. split; [reflexivity |].
    eexists. split; reflexivity. }
  apply Nat.leb_gt in E5.
  repeat match goal with
         | |- context [if ?c then _ else _] => destruct c
         end;
    intros out <-; (split; [reflexivity |]);
    first [ left; split; [reflexivity |]; split; [reflexivity | exact E5]
          | right; split; [reflexivity |]; eexists; split; reflexivity ].
Qed.

(** *** A configuration that cannot be parsed *)

(** X12.  A configuration whose source metadata has no [source_type], or one that
    is not a string or is none of friend, group and link, is rejected before
    anything is asked of the provider: the job reports a failure with no
    statistics, and the task row gets no final status. *)
Theorem unknown_source_type_is_rejected_before_any_call config cookies account_type
    exclude_filter rename_rules task w :
  (forall source_type,
     dict_get_default (cfg_src_meta config) "source_type" (VStr "") = VStr source_type ->
     str_in source_type ["friend"; "group"; "link"] = false) ->
  exists e,
    execute_sync_by_config_id config cookies account_type exclude_filter rename_rules task w
    = (mkExecResult false (Some ("执行同步任务时发生异常: " ^^ e)) None None, w, []).
Proof.
  intros H. unfold execute_sync_by_config_id. cbv zeta.
  assert (B : exists e, build_definitions config = Raise e).
  { unfold build_definitions.
    destruct (dict_get_default (cfg_src_meta config) "source_type" (VStr ""))
      as [| z | source_type | l | d] eqn:Et; cbn [as_str];
      try (eexists; reflexivity).
    specialize (H source_type eq_refl).
    destruct (as_str _ _ (dict_get_default (cfg_src_meta config) "source_id" (VStr "")));
      [| eexists; reflexivity].
    destruct (as_dict _ _ (dict_get_default (cfg_src_meta config) "ext_params" (VDict [])));
      [| eexists; reflexivity].
    unfold new_ShareSourceDefinition. rewrite H. eexists. reflexivity. }
  destruct B as [e ->]. exists e. reflexivity.
Qed.

(** *** The token correspondence over a run *)




Lemma corresponds_weaken {A} (Q R : A -> Prop) (m : M A) :
  (forall a, Q a -> R a) -> corresponds Q m -> corresponds R m.
Proof.
  intros H Hm s. destruct (Hm s) as [Ht Hp]. split; [exact Ht |].
  destruct (fst (m s)); [apply H; exact Hp | exact I].
Qed.






(** Dictionaries without the key. *)









Lemma follows_the_list_corresponds files p : follows_the_list files p -> token_correspondence p.
Proof.
  intros [Hi [infos [He [_ Hm]]]]. eexists. exists infos.
  split; [exact Hi |]. split; assumption.
Qed.





Section Tokens.

(** The provider's share listings carry no metadata key named
    [files_ext_info]. *)
Hypothesis plain_listings :
  forall token params w files w',
    get_share_list dm token params w = (Ok files, w') ->
    Forall (fun file => dict_mem (bfi_file_ext file) "files_ext_info" = false) files.











End Tokens.


(** *** The diff of a level *)

Lemma needs_transfer_is_spec_collects tmap name info :
  needs_transfer tmap name info = spec_collects tmap (name, info).
Proof.
  unfold needs_transfer, spec_collects, dict_mem, dict_get_default. cbn [fst snd].
  destruct (dict_get tmap name); reflexivity.
Qed.

Lemma scan_both_lists j sp tp tid s source_files w1 fid target_files w2 :
  get_share_list dm (x_token j)
    (mkListShareFilesParam (drive_type j) (ssd_source_type (source_definition j))
       (ssd_source_id (source_definition j)) sp) (world s) = (Ok source_files, w1) ->
  as_str "ListFilesParam" "file_id" (or_empty tid) = Ok fid ->
  get_disk_list dm (x_token j) (mkListFilesParam (drive_type j) tp fid) w1
  = (Ok target_files, w2) ->
  scan_both j sp tp tid s
  = (Ok (Some (build_file_map (item_filter j) true source_files,
               build_file_map (item_filter j) false target_files)),
     mkSt w2 (stats s)
       (trace s ++
        [EGetShareList (mkListShareFilesParam (drive_type j)
                          (ssd_source_type (source_definition j))
                          (ssd_source_id (source_definition j)) sp);
         EGetDiskList (mkListFilesParam (drive_type j) tp fid)])).
Proof.
  intros H1 H2 H3.
  unfold scan_both, try_except, list_dir. unfold bind, call, lift_res, ret.
  cbv beta iota. rewrite H1. cbn [world stats trace]. rewrite H2.
  cbv beta iota. cbn [world stats trace]. rewrite H3. rewrite <- app_assoc. reflexivity.
Qed.

(** One pass of the loop of [sync_with_have] does what [with_have_visit]
    does and appends the entry when the specification collects it. *)
Lemma with_have_item_is_visit j td sp tp d tmap acc kv s :
  with_have_item j (sync_with_have_fuel (max_depth j - (d + 1)) j)
    (sync_without_have_fuel (max_depth j - (d + 1)) j) td sp tp d tmap acc kv s
  = match with_have_visit j td sp tp d tmap tt kv s with
    | (Ok _, s') =>
        (Ok (acc ++ map (fun kv => make_transfer_file_info (fst kv)
                                     (dict_get_default (snd kv) "file_size" (VInt 0))
                                     sp tp (snd kv))
                      (spec_files_to_transfer [kv] tmap)), s')
    | (Raise e, s') => (Raise e, s')
    end.
Proof.
  destruct kv as [name info].
  unfold with_have_item, with_have_visit, spec_files_to_transfer, is_file_entry.
  cbn [fst snd filter]. rewrite <- needs_transfer_is_spec_collects.
  destruct (endswith_slash name) eqn:F; cbn [negb andb map].
  - cbv zeta. unfold sync_with_have, sync_without_have. rewrite app_nil_r.
    destruct (negb (dict_mem tmap name)); unfold bind, ret.
    + destruct (sync_without_have_fuel _ _ _ _ _ _ s) as [[[] | e0] s1]; reflexivity.
    + destruct (sync_with_have_fuel _ _ _ _ _ _ _ s) as [[[] | e0] s1]; reflexivity.
  - unfold bind, incr_files_processed, incr_files_skipped, modify_stats, ret.
    destruct (needs_transfer tmap name info); cbn [map]; rewrite ?app_nil_r; reflexivity.
Qed.

(** The loop of [sync_with_have] collects what the specification collects,
    whatever the recursive calls do, unless one of them raises. *)
Lemma with_have_loop_is_visit j td sp tp d tmap smap :
  forall acc s,
    foldM (with_have_item j (sync_with_have_fuel (max_depth j - (d + 1)) j)
             (sync_without_have_fuel (max_depth j - (d + 1)) j) td sp tp d tmap) smap acc s
    = match foldM (with_have_visit j td sp tp d tmap) smap tt s with
      | (Ok _, s') =>
          (Ok (acc ++ map (fun kv => make_transfer_file_info (fst kv)
                                       (dict_get_default (snd kv) "file_size" (VInt 0))
                                       sp tp (snd kv))
                        (spec_files_to_transfer smap tmap)), s')
      | (Raise e, s') => (Raise e, s')
      end.
Proof.
  induction smap as [| kv smap IH]; intros acc s; cbn [foldM].
  - unfold ret. cbn. rewrite app_nil_r. reflexivity.
  - unfold bind. rewrite with_have_item_is_visit.
    destruct (with_have_visit j td sp tp d tmap tt kv s) as [[[] | e] s1]; [| reflexivity].
    rewrite IH.
    destruct (foldM (with_have_visit j td sp tp d tmap) smap tt s1) as [[[] | e] s2];
      [| reflexivity].
    f_equal. f_equal. rewrite <- app_assoc, <- map_app. f_equal. f_equal.
    unfold spec_files_to_transfer. cbn [filter].
    destruct (is_file_entry kv && spec_collects tmap kv)%bool; reflexivity.
Qed.

(** On a listing without folders the loop only counts. *)
Lemma with_have_visit_files j td sp tp d tmap smap :
  forallb is_file_entry smap = true ->
  forall s,
    foldM (with_have_visit j td sp tp d tmap) smap tt s
    = (Ok tt,
       mkSt (world s)
         (mkStats (files_processed (stats s) + length smap) (folder_created (stats s))
            (files_transferred (stats s)) (files_deleted (stats s))
            (files_skipped (stats s) + length (spec_files_skipped smap tmap))
            (errors (stats s)))
         (trace s)).
Proof.
  induction smap as [| kv smap IH]; intros H s; cbn [foldM].
  - unfold ret. cbn. rewrite !Nat.add_0_r. destruct s as [w [] t]. reflexivity.
  - cbn [forallb] in H. apply andb_true_iff in H. destruct H as [Hf H].
    unfold with_have_visit at 1. rewrite Hf.
    unfold spec_files_skipped. cbn [filter]. fold (spec_files_skipped smap tmap).
    rewrite Hf. cbn [andb].
    unfold bind at 1. unfold bind at 1. unfold incr_files_processed, modify_stats.
    cbv beta iota.
    destruct (spec_collects tmap kv); cbn [negb].
    + unfold ret at 1. cbv beta iota. rewrite (IH H). cbn [world stats trace files_processed
        folder_created files_transferred files_deleted files_skipped errors length].
      f_equal. f_equal. f_equal; lia.
    + unfold incr_files_skipped, modify_stats. cbv beta iota. rewrite (IH H).
      cbn [world stats trace files_processed folder_created files_transferred files_deleted
        files_skipped errors length].
      f_equal. f_equal. f_equal; lia.
Qed.

(** C3.  A level of [sync_with_have] below the depth limit whose two
    listings succeed: with [S] the map of the source listing and [T] the
    map of the target listing, the run is the two listings, then a pass
    over [S] in order in which every file is counted as processed, every
    file that the specification does not collect is counted as skipped and
    every folder is entered, and then the batched transfer (and what
    follows it) on exactly the files of [S] whose name is absent from [T]
    or whose [file_size] differs from that of the entry of [T], in the
    order of the listing.  When [S] holds no folder the counters after the
    loop are: [files_processed] grown by the number of entries of [S],
    [files_skipped] by the number of those not collected.  The decision on
    a file is a function of the presence of its name in [T] and of the two
    [file_size] values, and of nothing else. *)
Theorem sync_with_have_collects_absent_or_resized_files j td sp tp tid current_depth s
    source_files w1 fid target_files w2 :
  current_depth < max_depth j ->
  get_share_list dm (x_token j)
    (mkListShareFilesParam (drive_type j) (ssd_source_type (source_definition j))
       (ssd_source_id (source_definition j)) sp) (world s) = (Ok source_files, w1) ->
  as_str "ListFilesParam" "file_id" (or_empty tid) = Ok fid ->
  get_disk_list dm (x_token j) (mkListFilesParam (drive_type j) tp fid) w1
  = (Ok target_files, w2) ->
  let source_file_map := build_file_map (item_filter j) true source_files in
  let target_file_map := build_file_map (item_filter j) false target_files in
  let files_to_transfer :=
    map (fun kv => make_transfer_file_info (fst kv)
                     (dict_get_default (snd kv) "file_size" (VInt 0)) sp tp (snd kv))
      (spec_files_to_transfer source_file_map target_file_map) in
  let listed :=
    trace s ++
    [EGetShareList (mkListShareFilesParam (drive_type j)
                      (ssd_source_type (source_definition j))
                      (ssd_source_id (source_definition j)) sp);
     EGetDiskList (mkListFilesParam (drive_type j) tp fid)] in
  sync_with_have j td sp tp tid current_depth s
  = (foldM (with_have_visit j td sp tp current_depth target_file_map) source_file_map tt ;;
     with_have_tail j td tp source_file_map target_file_map files_to_transfer)
      (mkSt w2 (stats s) listed) /\
  (forallb is_file_entry source_file_map = true ->
   sync_with_have j td sp tp tid current_depth s
   = with_have_tail j td tp source_file_map target_file_map files_to_transfer
       (mkSt w2
          (mkStats (files_processed (stats s) + length source_file_map)
             (folder_created (stats s)) (files_transferred (stats s))
             (files_deleted (stats s))
             (files_skipped (stats s)
              + length (spec_files_skipped source_file_map target_file_map))
             (errors (stats s)))
          listed)) /\
  (forall (other_map : dict (dict pyval)) (kv kv' : string * dict pyval),
     option_map (fun info => dict_get_default info "file_size" (VInt (-1)))
       (dict_get other_map (fst kv'))
     = option_map (fun info => dict_get_default info "file_size" (VInt (-1)))
         (dict_get target_file_map (fst kv)) ->
     dict_get_default (snd kv') "file_size" (VInt 0)
     = dict_get_default (snd kv) "file_size" (VInt 0) ->
     spec_collects other_map kv' = spec_collects target_file_map kv).
Proof.
  intros Hd H1 H2 H3 smap tmap files_to_transfer listed.
  assert (E : sync_with_have j td sp tp tid current_depth s
              = (foldM (with_have_visit j td sp tp current_depth tmap) smap tt ;;
                 with_have_tail j td tp smap tmap files_to_transfer)
                  (mkSt w2 (stats s) listed)).
  { unfold sync_with_have.
    assert (F : max_depth j - current_depth = S (max_depth j - (current_depth + 1))) by lia.
    rewrite F. cbn [sync_with_have_fuel].
    assert (L : Nat.leb (max_depth j) current_depth = false) by (apply Nat.leb_gt; lia).
    rewrite L.
    rewrite (bind_ok _ _ _ _ _ (scan_both_lists j sp tp tid s _ _ _ _ _ H1 H2 H3)).
    cbv iota beta. fold smap tmap listed.
    unfold bind at 1 2. rewrite with_have_loop_is_visit. fold files_to_transfer.
    destruct (foldM (with_have_visit j td sp tp current_depth tmap) smap tt
                (mkSt w2 (stats s) listed)) as [[[] | e] s1]; reflexivity. }
  split; [exact E |]. split.
  - intros Hflat. rewrite E.
    rewrite (bind_ok _ _ _ _ _
               (with_have_visit_files j td sp tp current_depth tmap smap Hflat _)).
    reflexivity.
  - intros other_map kv kv' Ht Hs. unfold spec_collects. rewrite Hs.
    destruct (dict_get other_map (fst kv')), (dict_get tmap (fst kv));
      cbn [option_map] in Ht; try discriminate; [| reflexivity].
    inversion Ht as [Ht']. rewrite Ht'. reflexivity.
Qed.
End Engine.

(** ** The dispatcher's test *)

Lemma in_execution_window_spec now prev :
  in_execution_window now prev = true <->
  (0 <= now - prev <= execution_window_minutes * microseconds_per_minute)%Z.
Proof.
  unfold in_execution_window. cbv zeta. rewrite andb_true_iff, !Z.leb_le. reflexivity.
Qed.

(** With [prev] the instant the cron library returns for the tick (and the
    library raising nowhere), a configuration is dispatched exactly when
    the lag [now - prev] is between 0 and 5 minutes and [last_sync] is null
    or earlier than [prev]. *)
Lemma should_execute_now_iff_in_window_and_not_yet_synced
    (cron_prev cron_next : string -> Z -> option Z) cron_expr last_sync now prev nxt :
  cron_prev cron_expr now = Some prev ->
  cron_next cron_expr prev = Some nxt ->
  _should_execute_now cron_prev cron_next cron_expr last_sync now = true <->
  (0 <= now - prev <= execution_window_minutes * microseconds_per_minute)%Z /\
  (last_sync = None \/ exists t, last_sync = Some t /\ (t < prev)%Z).
Proof.
  intros Hp Hn. unfold _should_execute_now. rewrite Hp, Hn. cbv zeta.
  destruct last_sync as [t |].
  - destruct (Z.ltb t prev && in_execution_window now prev)%bool eqn:E.
    + apply andb_true_iff in E. destruct E as [E1 E2].
      apply Z.ltb_lt in E1. apply in_execution_window_spec in E2.
      split; [intros _ | reflexivity]. split; [exact E2 |]. right. exists t. split; [reflexivity | exact E1].
    + split; [discriminate |]. intros [Hw [Hl | [t' [Ht Hlt]]]]; [discriminate |].
      inversion Ht; subst t'. apply Z.ltb_lt in Hlt. apply in_execution_window_spec in Hw.
      rewrite Hlt, Hw in E. discriminate.
  - rewrite in_execution_window_spec. split.
    + intros H. split; [exact H | left; reflexivity].
    + intros [H _]. exact H.
Qed.

(** An expression the cron library rejects is never dispatched. *)
Lemma should_execute_now_invalid (cron_prev cron_next : string -> Z -> option Z)
    cron_expr last_sync now :
  cron_prev cron_expr now = None ->
  _should_execute_now cron_prev cron_next cron_expr last_sync now = false.
Proof.
  intros H. unfold _should_execute_now. rewrite H. reflexivity.
Qed.

(** [every_five_prev] is [get_prev] for the schedule [every_five_fires]. *)
Lemma every_five_prev_latest_before expr t prev :
  every_five_prev expr t = Some prev <-> latest_before every_five_fires t prev.
Proof.
  unfold every_five_prev, latest_before, every_five_fires, five_minutes.
  assert (P : (0 < 300000000)%Z) by lia.
  pose proof (Z.mul_div_le (t - 1) 300000000 P) as L.
  split.
  - intros H.
    assert (E0 : prev = (300000000 * ((t - 1) / 300000000))%Z) by congruence.
    clear H. subst prev. split; [| split].
    + rewrite Z.mul_comm. apply Z.mod_mul. lia.
    + lia.
    + intros u Hu Hlt.
      assert (E : u = (300000000 * (u / 300000000))%Z).
      { rewrite (Z.div_mod u 300000000) at 1 by lia. rewrite Hu. lia. }
      rewrite E. apply Z.mul_le_mono_nonneg_l; [lia |].
      apply Z.div_le_mono; lia.
  - intros (Hf & Hlt & Hmax).
    set (p := (300000000 * ((t - 1) / 300000000))%Z) in *.
    assert (Fp : (p mod 300000000 = 0)%Z).
    { unfold p. rewrite Z.mul_comm. apply Z.mod_mul. lia. }
    assert (Lp : (p <= prev)%Z) by (apply Hmax; [exact Fp | lia]).
    assert (E : prev = (300000000 * (prev / 300000000))%Z).
    { rewrite (Z.div_mod prev 300000000) at 1 by lia. rewrite Hf. lia. }
    assert (Up : (prev <= p)%Z).
    { rewrite E. unfold p. apply Z.mul_le_mono_nonneg_l; [lia |].
      apply Z.div_le_mono; lia. }
    f_equal. lia.
Qed.

(** C6 (as amended).  Let the cron library do what croniter does: for the
    expression, [get_prev] from an instant returns the latest firing
    strictly before it, and [get_next] does not raise.  Then a
    configuration is dispatched at [now] exactly when, with [prev_fire] the
    latest firing strictly before [now], the lag [now - prev_fire] is at
    most 5 minutes (it is always positive) and [last_sync] is null or
    earlier than [prev_fire]. *)
Theorem should_execute_now_iff_due_since_the_firing_before_now
    (fires : Z -> Prop) (cron_prev cron_next : string -> Z -> option Z)
    cron_expr last_sync now :
  (forall t prev, cron_prev cron_expr t = Some prev <-> latest_before fires t prev) ->
  (forall prev, cron_next cron_expr prev <> None) ->
  _should_execute_now cron_prev cron_next cron_expr last_sync now = true <->
  exists prev_fire,
    latest_before fires now prev_fire /\
    (0 < now - prev_fire <= execution_window_minutes * microseconds_per_minute)%Z /\
    (last_sync = None \/ exists t, last_sync = Some t /\ (t < prev_fire)%Z).
Proof.
  intros Hprev Hnext. split.
  - intros H. destruct (cron_prev cron_expr now) as [prev |] eqn:Ep.
    2: { rewrite (should_execute_now_invalid _ _ _ _ _ Ep) in H. discriminate. }
    destruct (cron_next cron_expr prev) as [nxt |] eqn:En; [| destruct (Hnext prev En)].
    apply (should_execute_now_iff_in_window_and_not_yet_synced _ _ _ _ _ _ _ Ep En) in H.
    destruct H as [Hw Hl]. apply Hprev in Ep. exists prev. split; [exact Ep |].
    destruct Ep as (_ & Hlt & _). split; [lia | exact Hl].
  - intros (prev & Hlatest & Hw & Hl). apply Hprev in Hlatest.
    destruct (cron_next cron_expr prev) as [nxt |] eqn:En; [| destruct (Hnext prev En)].
    apply (should_execute_now_iff_in_window_and_not_yet_synced _ _ _ _ _ _ _ Hlatest En).
    split; [lia | exact Hl].
Qed.

(** ** Exclusion and rename rules *)

Lemma has_dot_cons c r : contains "." (String c r) = (Ascii.eqb "." c || contains "." r)%bool.
Proof. cbn [contains startswith]. destruct r; rewrite andb_true_r; reflexivity. Qed.

Lemma has_dot_app a b : contains "." (a ^^ b) = (contains "." a || contains "." b)%bool.
Proof.
  induction a as [| c a IH].
  - reflexivity.
  - change (String c a ^^ b) with (String c (a ^^ b)). rewrite !has_dot_cons, IH.
    apply orb_assoc.
Qed.

Lemma after_last_dot_aux_no_dot s :
  forall acc, contains "." acc = false -> contains "." (after_last_dot_aux s acc) = false.
Proof.
  induction s as [| c s IH]; intros acc H; cbn [after_last_dot_aux].
  - exact H.
  - destruct (Ascii.eqb c ".") eqn:E.
    + apply IH. reflexivity.
    + apply IH. rewrite has_dot_app, H, has_dot_cons. rewrite Ascii.eqb_sym, E. reflexivity.
Qed.

Lemma after_last_dot_no_dot s : contains "." (after_last_dot s) = false.
Proof. apply after_last_dot_aux_no_dot. reflexivity. Qed.

Lemma startswith_has_dot p :
  forall v, startswith p v = true -> contains "." p = true -> contains "." v = true.
Proof.
  induction p as [| a p IH]; intros v S D; [discriminate |].
  destruct v as [| b v]; [discriminate |]. cbn [startswith] in S.
  apply andb_true_iff in S. destruct S as [Eab S]. apply Ascii.eqb_eq in Eab. subst b.
  rewrite has_dot_cons in *. apply orb_true_iff in D. apply orb_true_iff.
  destruct D as [D | D]; [left; exact D | right; apply IH; assumption].
Qed.

Lemma contains_has_dot p :
  forall v, contains p v = true -> contains "." p = true -> contains "." v = true.
Proof.
  induction v as [| b v IH]; intros C D.
  - cbn [contains] in C. rewrite orb_false_r in C.
    eapply startswith_has_dot; eassumption.
  - cbn [contains] in C. apply orb_true_iff in C. destruct C as [C | C].
    + eapply startswith_has_dot; eassumption.
    + rewrite has_dot_cons. rewrite (IH C D). apply orb_true_r.
Qed.

Lemma endswith_has_dot p :
  forall v, endswith p v = true -> contains "." p = true -> contains "." v = true.
Proof.
  induction v as [| b v IH]; intros C D; cbn [endswith] in C;
    apply orb_true_iff in C; destruct C as [C | C]; try discriminate.
  - apply String.eqb_eq in C. subst p. exact D.
  - apply String.eqb_eq in C. subst p. exact D.
  - rewrite has_dot_cons. rewrite (IH C D). apply orb_true_r.
Qed.

(** X13.  A rule on extensions whose pattern contains a dot (".txt", say) matches
    nothing, in every mode but [REGEX] and whether or not it is
    case-sensitive: the value it compares is the text after the last dot of
    the name, which has no dot. *)
Theorem extension_rule_with_a_dot_matches_nothing lower re_search rule item :
  (forall s, contains "." (lower s) = contains "." s) ->
  xr_target rule = EXTENSION ->
  xr_mode rule <> REGEX ->
  contains "." (xr_pattern rule) = true ->
  matches lower re_search rule item = false.
Proof.
  intros Hl Ht Hm Hp. unfold matches.
  destruct (match xr_item_type rule with
            | ANY => false
            | FILE => bfi_is_folder item
            | FOLDER => negb (bfi_is_folder item)
            end); [reflexivity |].
  unfold _get_value_to_match. rewrite Ht.
  destruct (contains "." (bfi_file_name item)); [| reflexivity]. cbv zeta.
  set (value := if xr_case_sensitive rule then after_last_dot (bfi_file_name item)
                else lower (after_last_dot (bfi_file_name item))).
  set (pattern := if xr_case_sensitive rule then xr_pattern rule
                  else lower (xr_pattern rule)).
  assert (Dv : contains "." value = false).
  { subst value. destruct (xr_case_sensitive rule); [| rewrite Hl];
      apply after_last_dot_no_dot. }
  assert (Dp : contains "." pattern = true).
  { subst pattern. destruct (xr_case_sensitive rule); [| rewrite Hl]; exact Hp. }
  destruct (xr_mode rule); try congruence.
  - destruct (contains pattern value) eqn:C; [| reflexivity].
    rewrite (contains_has_dot _ _ C Dp) in Dv. discriminate.
  - destruct (startswith pattern value) eqn:C; [| reflexivity].
    rewrite (startswith_has_dot _ _ C Dp) in Dv. discriminate.
  - destruct (endswith pattern value) eqn:C; [| reflexivity].
    rewrite (endswith_has_dot _ _ C Dp) in Dv. discriminate.
  - destruct (String.eqb value pattern) eqn:C; [| reflexivity].
    apply String.eqb_eq in C. rewrite C, Dp in Dv. discriminate.
Qed.

(** X14.  A filter made of rules for files only never excludes a folder (and one
    made of rules for folders only never excludes a file), whatever the
    patterns, modes and targets of the rules are. *)
Theorem rules_of_one_kind_never_exclude_the_other lower re_search rules item :
  Forall (fun rule => xr_item_type rule = FILE) rules /\ bfi_is_folder item = true \/
  Forall (fun rule => xr_item_type rule = FOLDER) rules /\ bfi_is_folder item = false ->
  should_exclude lower re_search rules item = false.
Proof.
  intros H. unfold should_exclude.
  assert (G : Forall (fun rule => matches lower re_search rule item = false) rules).
  { destruct H as [[F I] | [F I]]; eapply Forall_impl; try exact F;
      intros rule Hr; unfold matches; rewrite Hr, I; reflexivity. }
  clear H. induction G as [| rule rules Hr _ IH]; cbn [existsb]; [reflexivity |].
  rewrite Hr. exact IH.
Qed.

(** X15.  A rule that is not case-sensitive behaves the same whether its pattern
    is written in capitals or in small letters (in every mode but [REGEX],
    where the pattern is compiled as it is written). *)
Theorem case_of_the_pattern_does_not_matter lower re_search rule item :
  (forall s, lower (lower s) = lower s) ->
  xr_case_sensitive rule = false ->
  xr_mode rule <> REGEX ->
  matches lower re_search
    (mkExclusionRule (lower (xr_pattern rule)) (xr_target rule) (xr_item_type rule)
       (xr_mode rule) false) item
  = matches lower re_search rule item.
Proof.
  intros Hl Hc Hm. unfold matches, _get_value_to_match.
  cbn [xr_pattern xr_target xr_item_type xr_mode xr_case_sensitive]. rewrite Hc, Hl.
  destruct (xr_mode rule); try congruence; reflexivity.
Qed.

Lemma endswith_empty v : endswith "" v = true.
Proof. induction v as [| c v IH]; cbn [endswith]; [reflexivity |]. rewrite IH. apply orb_true_r. Qed.

Lemma contains_empty v : contains "" v = true.
Proof. destruct v; reflexivity. Qed.

(** X16.  A rule with the empty pattern on names or paths, for any kind of item,
    in one of the modes [CONTAINS], [STARTS_WITH] and [ENDS_WITH], excludes
    every item; with such a rule in the filter the map that [list_dir]
    builds from a listing is empty. *)
Theorem empty_pattern_excludes_everything lower re_search rules rule is_src files :
  lower "" = "" ->
  In rule rules ->
  xr_pattern rule = "" ->
  xr_item_type rule = ANY ->
  xr_target rule <> EXTENSION ->
  xr_mode rule = CONTAINS \/ xr_mode rule = STARTS_WITH \/ xr_mode rule = ENDS_WITH ->
  (forall item, should_exclude lower re_search rules item = true) /\
  build_file_map (Some (should_exclude lower re_search rules)) is_src files = [].
Proof.
  intros Hl Hin Hp Ha Ht Hm.
  assert (M : forall item, matches lower re_search rule item = true).
  { intros item. unfold matches, _get_value_to_match. rewrite Ha, Hp.
    assert (P : (if xr_case_sensitive rule then "" else lower "") = "")
      by (destruct (xr_case_sensitive rule); [reflexivity | exact Hl]).
    destruct (xr_target rule); try congruence; cbv zeta; rewrite P;
      destruct Hm as [Hm | [Hm | Hm]]; rewrite Hm;
      first [apply contains_empty | apply endswith_empty | reflexivity]. }
  assert (X : forall item, should_exclude lower re_search rules item = true).
  { intros item. unfold should_exclude. apply existsb_exists. exists rule.
    split; [exact Hin | apply M]. }
  split; [exact X |].
  change (build_file_map (Some (should_exclude lower re_search rules)) is_src files)
    with (fold_left
            (fun file_map file =>
               if excluded (Some (should_exclude lower re_search rules)) file then file_map
               else dict_set file_map (entry_key file) (entry_info is_src file))
            files []).
  generalize (@nil (string * dict pyval)).
  induction files as [| f files IH]; intros m; cbn [fold_left excluded]; [reflexivity |].
  rewrite X. apply IH.
Qed.

(** X17.  What [generate_new_path] proposes is never the value the item has: the
    result, when there is one, is the substitution applied to the item's
    name (scope [NAME]) or path (scope [PATH]), that value is not empty, and
    the result differs from it; for scope [EXTENSION] there is none. *)
Theorem rename_never_proposes_the_current_value re_sub rule item new_value :
  generate_new_path re_sub rule item = Some new_value ->
  exists original_value,
    (rr_target_scope rule = NAME /\ original_value = bfi_file_name item \/
     rr_target_scope rule = PATH /\ original_value = bfi_file_path item) /\
    original_value <> "" /\
    new_value = re_sub (rr_match_regex rule) (rr_case_sensitive rule)
                  (rr_replace_string rule) original_value /\
    new_value <> original_value.
Proof.
  unfold generate_new_path. intros H.
  destruct (rr_target_scope rule); try discriminate.
  - exists (bfi_file_name item).
    destruct (String.eqb (bfi_file_name item) "") eqn:E; [discriminate |].
    destruct (String.eqb _ (bfi_file_name item)) eqn:N in H; [discriminate |].
    inversion H; subst new_value. apply String.eqb_neq in E, N. auto.
  - exists (bfi_file_path item).
    destruct (String.eqb (bfi_file_path item) "") eqn:E; [discriminate |].
    destruct (String.eqb _ (bfi_file_path item)) eqn:N in H; [discriminate |].
    inversion H; subst new_value. apply String.eqb_neq in E, N. auto.
Qed.

(** *** [str_lower] as the [lower] of the rules *)

Lemma lower_ascii_dot c : Ascii.eqb "." (lower_ascii c) = Ascii.eqb "." c.
Proof. destruct c as [[] [] [] [] [] [] [] []]; reflexivity. Qed.

Lemma str_lower_has_dot s : contains "." (str_lower s) = contains "." s.
Proof.
  induction s as [| c s IH]; [reflexivity |].
  cbn [str_lower]. rewrite !has_dot_cons, lower_ascii_dot, IH. reflexivity.
Qed.

Lemma lower_ascii_idem c : lower_ascii (lower_ascii c) = lower_ascii c.
Proof. destruct c as [[] [] [] [] [] [] [] []]; reflexivity. Qed.

Lemma str_lower_idem s : str_lower (str_lower s) = str_lower s.
Proof.
  induction s as [| c s IH]; [reflexivity |].
  cbn [str_lower]. rewrite lower_ascii_idem, IH. reflexivity.
Qed.

(** ** The merged report of a tick *)

Lemma py_eqb_hashable a b : unhashable a = None -> py_eqb a b = true -> a = b.
Proof.
  destruct a, b; cbn; try discriminate; intros _ H.
  - reflexivity.
  - apply Z.eqb_eq in H. congruence.
  - apply String.eqb_eq in H. congruence.
Qed.

Lemma py_eqb_refl_hashable a : unhashable a = None -> py_eqb a a = true.
Proof.
  destruct a; cbn; try discriminate; intros _.
  - reflexivity.
  - apply Z.eqb_refl.
  - apply String.eqb_refl.
Qed.

Lemma key_eqb_eq a b : hashable_key a = true -> key_eqb a b = true -> a = b.
Proof.
  unfold hashable_key, key_eqb. destruct a as [a1 a2], b as [b1 b2]. cbn [fst snd].
  destruct (unhashable a1) eqn:E1; [discriminate |].
  destruct (unhashable a2) eqn:E2; [discriminate |]. intros _ H.
  apply andb_true_iff in H. destruct H as [H1 H2].
  apply (py_eqb_hashable _ _ E1) in H1. apply (py_eqb_hashable _ _ E2) in H2. congruence.
Qed.

Lemma key_eqb_refl a : hashable_key a = true -> key_eqb a a = true.
Proof.
  unfold hashable_key, key_eqb. destruct a as [a1 a2]. cbn [fst snd].
  destruct (unhashable a1) eqn:E1; [discriminate |].
  destruct (unhashable a2) eqn:E2; [discriminate |]. intros _.
  rewrite (py_eqb_refl_hashable _ E1), (py_eqb_refl_hashable _ E2). reflexivity.
Qed.

Lemma group_key_status d : fst (group_key d) = detail_get d "status".
Proof.
  unfold group_key. cbv zeta.
  destruct (_ && _)%bool; [reflexivity |]. destruct (_ && _)%bool; reflexivity.
Qed.

Lemma group_details_step d r groups :
  group_details (d :: r) groups =
  if hashable_key (group_key d) then group_details r (group_add groups (group_key d) d)
  else match unhashable (fst (group_key d)) with
       | Some e => Raise e
       | None => match unhashable (snd (group_key d)) with
                 | Some e => Raise e
                 | None => Raise ""
                 end
       end.
Proof.
  cbn [group_details]. cbv zeta. unfold hashable_key.
  destruct (unhashable (fst (group_key d))); [reflexivity |].
  destruct (unhashable (snd (group_key d))); reflexivity.
Qed.

Lemma group_details_ok details : forall groups,
  Forall (fun d => hashable_key (group_key d) = true) details ->
  exists gs, group_details details groups = Ok gs.
Proof.
  induction details as [| d r IH]; intros groups H.
  - eexists. reflexivity.
  - inversion H; subst. rewrite group_details_step, H2. apply IH. assumption.
Qed.

Lemma group_details_hashable details : forall groups gs,
  group_details details groups = Ok gs ->
  Forall (fun d => hashable_key (group_key d) = true) details.
Proof.
  induction details as [| d r IH]; intros groups gs H.
  - constructor.
  - rewrite group_details_step in H. destruct (hashable_key (group_key d)) eqn:E.
    + constructor; [exact E | eapply IH; exact H].
    + destruct (unhashable (fst (group_key d))); [discriminate |].
      destruct (unhashable (snd (group_key d))); discriminate.
Qed.

Lemma filter_none {A} (f : A -> bool) l : (forall x, In x l -> f x = false) -> filter f l = [].
Proof.
  induction l as [| a l IH]; intros H; [reflexivity |]. cbn.
  rewrite (H a (or_introl eq_refl)). apply IH. intros x Hx. apply H. right. exact Hx.
Qed.

Lemma group_add_cases groups key d :
  hashable_key key = true ->
  (~ In key (map fst groups) /\
   group_add groups key d = groups ++ [(key, ([detail_id d], d))]) \/
  (exists g1 ids fd g2,
     groups = g1 ++ (key, (ids, fd)) :: g2 /\
     group_add groups key d = g1 ++ (key, (ids ++ [detail_id d], fd)) :: g2).
Proof.
  intros Hk. induction groups as [| [k [ids fd]] r IH].
  - left. split; [intros [] | reflexivity].
  - cbn [group_add]. destruct (key_eqb key k) eqn:E.
    + right. apply (key_eqb_eq _ _ Hk) in E. subst k.
      exists [], ids, fd, r. split; reflexivity.
    + assert (key <> k) as Hne.
      { intros ->. rewrite (key_eqb_refl _ Hk) in E. discriminate. }
      destruct IH as [[Hn IH] | [g1 [ids' [fd' [g2 [H1 H2]]]]]].
      * left. split.
        -- cbn. intros [H | H]; [congruence | exact (Hn H)].
        -- rewrite IH. reflexivity.
      * right. exists ((k, (ids, fd)) :: g1), ids', fd', g2. split.
        -- rewrite H1. reflexivity.
        -- rewrite H2. reflexivity.
Qed.

Lemma groups_of_step seen groups d :
  hashable_key (group_key d) = true ->
  groups_of seen groups ->
  groups_of (seen ++ [d]) (group_add groups (group_key d) d).
Proof.
  intros Hk (Hnd & Hg & Hs).
  assert (key_eqb (group_key d) (group_key d) = true) as Hrefl by (apply key_eqb_refl; exact Hk).
  destruct (group_add_cases groups (group_key d) d Hk)
    as [[Hn ->] | [g1 [ids [fd [g2 [H1 ->]]]]]].
  - split; [| split].
    + rewrite map_app. cbn [map fst].
      apply (Permutation_NoDup (Permutation_cons_append _ _)). constructor; assumption.
    + intros k ids fd Hin. apply in_app_or in Hin. destruct Hin as [Hin | [Hin | []]].
      * destruct (Hg _ _ _ Hin) as (Hh & Hst & Hne & Hids). repeat split; try assumption.
        rewrite filter_app, map_app, <- Hids. cbn [filter].
        destruct (key_eqb (group_key d) k) eqn:E.
        -- apply (key_eqb_eq _ _ Hk) in E. exfalso. apply Hn. rewrite E.
           apply (in_map fst) in Hin. exact Hin.
        -- rewrite app_nil_r. reflexivity.
      * inversion Hin; subst k ids fd. repeat split.
        -- exact Hk.
        -- symmetry. apply group_key_status.
        -- discriminate.
        -- rewrite filter_app, map_app. cbn [filter]. rewrite Hrefl.
           rewrite filter_none; [reflexivity |].
           intros x Hx. destruct (key_eqb (group_key x) (group_key d)) eqn:E; [| reflexivity].
           exfalso. apply Hn. specialize (Hs x Hx).
           assert (hashable_key (group_key x) = true) as Hhx.
           { apply in_map_iff in Hs. destruct Hs as [[k [i f]] [Hf Hi]]. cbn in Hf. subst k.
             exact (proj1 (Hg _ _ _ Hi)). }
           apply (key_eqb_eq _ _ Hhx) in E. rewrite <- E. exact Hs.
    + intros x Hx. rewrite map_app. apply in_or_app. apply in_app_or in Hx.
      destruct Hx as [Hx | [<- | []]]; [left; apply Hs; exact Hx | right; left; reflexivity].
  - subst groups.
    assert (map fst (g1 ++ (group_key d, (ids ++ [detail_id d], fd)) :: g2) =
            map fst (g1 ++ (group_key d, (ids, fd)) :: g2)) as Hm.
    { rewrite !map_app. reflexivity. }
    split; [| split].
    + rewrite Hm. exact Hnd.
    + intros k ids' fd' Hin. apply in_app_or in Hin.
      assert (forall i f, In (k, (i, f)) (g1 ++ g2) ->
                In (k, (i, f)) (g1 ++ (group_key d, (ids, fd)) :: g2) /\ k <> group_key d) as Hold.
      { intros i f Hi. split.
        - apply in_app_or in Hi. apply in_or_app. destruct Hi; [left | right; right]; assumption.
        - intros ->. rewrite map_app in Hnd. cbn [map fst] in Hnd.
          apply NoDup_remove_2 in Hnd. apply Hnd. rewrite <- map_app.
          apply (in_map fst) in Hi. exact Hi. }
      assert (forall i f, In (k, (i, f)) (g1 ++ g2) ->
                hashable_key k = true /\ detail_get f "status" = fst k /\ i <> [] /\
                i = map detail_id (filter (fun d0 => key_eqb (group_key d0) k) (seen ++ [d]))) as Hkeep.
      { intros i f Hi. destruct (Hold i f Hi) as [Hi' Hne].
        destruct (Hg _ _ _ Hi') as (Hh & Hst & Hnn & Hids). repeat split; try assumption.
        rewrite filter_app, map_app, <- Hids. cbn [filter].
        destruct (key_eqb (group_key d) k) eqn:E.
        - apply (key_eqb_eq _ _ Hk) in E. congruence.
        - rewrite app_nil_r. reflexivity. }
      destruct Hin as [Hin | [Hin | Hin]].
      * apply Hkeep. apply in_or_app. left. exact Hin.
      * inversion Hin; subst k ids' fd'.
        destruct (Hg (group_key d) ids fd) as (Hh & Hst & Hnn & Hids).
        { apply in_or_app. right. left. reflexivity. }
        repeat split; try assumption.
        -- destruct ids; discriminate.
        -- rewrite filter_app, map_app, <- Hids. cbn [filter]. rewrite Hrefl. reflexivity.
      * apply Hkeep. apply in_or_app. right. exact Hin.
    + intros x Hx. rewrite Hm. apply in_app_or in Hx. destruct Hx as [Hx | [<- | []]].
      * apply Hs. exact Hx.
      * rewrite map_app. apply in_or_app. right. left. reflexivity.
Qed.

Lemma groups_of_run details : forall seen groups gs,
  groups_of seen groups ->
  group_details details groups = Ok gs ->
  groups_of (seen ++ details) gs.
Proof.
  induction details as [| d r IH]; intros seen groups gs Hinv H.
  - cbn in H. inversion H; subst. rewrite app_nil_r. exact Hinv.
  - rewrite group_details_step in H. destruct (hashable_key (group_key d)) eqn:E.
    + replace (seen ++ d :: r) with ((seen ++ [d]) ++ r) by (rewrite <- app_assoc; reflexivity).
      eapply IH; [| exact H]. apply groups_of_step; assumption.
    + destruct (unhashable (fst (group_key d))); [discriminate |].
      destruct (unhashable (snd (group_key d))); discriminate.
Qed.

Lemma groups_of_nil : groups_of [] [].
Proof.
  split; [constructor | split]; intros; contradiction.
Qed.
Lemma insert_by_rank_perm x l : Permutation (insert_by_rank x l) (x :: l).
Proof.
  induction l as [| y r IH]; [reflexivity |]. cbn.
  destruct (Nat.leb _ _); [reflexivity |].
  rewrite IH. apply perm_swap.
Qed.

Lemma sort_by_rank_perm l : Permutation (sort_by_rank l) l.
Proof.
  induction l as [| x r IH]; [reflexivity |]. cbn.
  rewrite insert_by_rank_perm. constructor. exact IH.
Qed.

Lemma insert_by_rank_sorted x l :
  StronglySorted (fun a b => status_rank a <= status_rank b) l ->
  StronglySorted (fun a b => status_rank a <= status_rank b) (insert_by_rank x l).
Proof.
  induction l as [| y r IH]; intros H.
  - cbn. constructor; constructor.
  - cbn. destruct (Nat.leb (status_rank x) (status_rank y)) eqn:E.
    + apply Nat.leb_le in E. constructor; [exact H |].
      inversion H; subst. constructor; [exact E |].
      eapply Forall_impl; [| eassumption]. cbn. intros. lia.
    + apply Nat.leb_gt in E. inversion H; subst. constructor; [apply IH; assumption |].
      apply (Permutation_Forall (Permutation_sym (insert_by_rank_perm x r))).
      constructor; [lia | assumption].
Qed.

Lemma sort_by_rank_sorted l :
  StronglySorted (fun a b => status_rank a <= status_rank b) (sort_by_rank l).
Proof.
  induction l as [| x r IH]; [constructor |]. cbn. apply insert_by_rank_sorted. exact IH.
Qed.

Lemma merged_detail_status k ids fd :
  detail_get (merged_detail (k, (ids, fd))) "status" = detail_get fd "status".
Proof.
  unfold merged_detail, detail_get, dict_get_default.
  rewrite dict_get_set_other; reflexivity.
Qed.

Lemma merged_detail_ids k ids fd :
  ids <> [] -> Forall (fun v => is_int v = true) ids ->
  ids_of (merged_detail (k, (ids, fd))) = ids.
Proof.
  intros Hne Hint. unfold ids_of, merged_detail, detail_get, dict_get_default.
  rewrite dict_get_set_same. destruct ids as [| a [| b r]]; [congruence | | reflexivity].
  inversion Hint; subst. destruct a; try discriminate. reflexivity.
Qed.

Lemma merge_groups details merged :
  _merge_execution_details details = Ok merged ->
  exists gs, groups_of details gs /\ Permutation merged (map merged_detail gs).
Proof.
  unfold _merge_execution_details. destruct details as [| d r].
  - intros H. inversion H; subst. exists []. split; [apply groups_of_nil | reflexivity].
  - destruct (group_details (d :: r) []) as [gs | e] eqn:E; [| discriminate].
    intros H. inversion H; subst. exists gs. split.
    + exact (groups_of_run (d :: r) [] [] gs groups_of_nil E).
    + apply sort_by_rank_perm.
Qed.
Lemma group_add_ids groups key d :
  Permutation (flat_map (fun g => fst (snd g)) (group_add groups key d))
              (detail_id d :: flat_map (fun g => fst (snd g)) groups).
Proof.
  induction groups as [| [k [ids fd]] r IH]; cbn [group_add].
  - cbn. reflexivity.
  - destruct (key_eqb key k).
    + cbn [flat_map fst snd]. rewrite <- app_assoc. cbn [app].
      rewrite <- Permutation_middle. reflexivity.
    + cbn [flat_map fst snd]. rewrite IH. rewrite <- Permutation_middle. reflexivity.
Qed.

Lemma group_details_ids details : forall groups gs,
  group_details details groups = Ok gs ->
  Permutation (flat_map (fun g => fst (snd g)) gs)
              (flat_map (fun g => fst (snd g)) groups ++ map detail_id details).
Proof.
  induction details as [| d r IH]; intros groups gs H.
  - cbn in H. inversion H; subst. rewrite app_nil_r. reflexivity.
  - rewrite group_details_step in H. destruct (hashable_key (group_key d)).
    + rewrite (IH _ _ H), group_add_ids. cbn [map]. rewrite <- Permutation_middle. reflexivity.
    + destruct (unhashable (fst (group_key d))); [discriminate |].
      destruct (unhashable (snd (group_key d))); discriminate.
Qed.

Lemma flat_map_merged gs :
  (forall g, In g gs -> ids_of (merged_detail g) = fst (snd g)) ->
  flat_map ids_of (map merged_detail gs) = flat_map (fun g => fst (snd g)) gs.
Proof.
  induction gs as [| g r IH]; intros H; [reflexivity |]. cbn [map flat_map].
  rewrite (H g (or_introl eq_refl)), IH; [reflexivity |].
  intros g' Hg'. apply H. right. exact Hg'.
Qed.

Lemma groups_of_ids details gs :
  Forall (fun d => is_int (detail_id d) = true) details ->
  groups_of details gs ->
  forall g, In g gs -> ids_of (merged_detail g) = fst (snd g).
Proof.
  intros Hint (_ & Hg & _) [k [ids fd]] Hin. cbn [fst snd].
  destruct (Hg _ _ _ Hin) as (_ & _ & Hne & Hids).
  apply merged_detail_ids; [exact Hne |]. rewrite Hids.
  apply Forall_forall. intros v Hv. apply in_map_iff in Hv. destruct Hv as [d [<- Hd]].
  apply filter_In in Hd. rewrite Forall_forall in Hint. apply Hint. apply Hd.
Qed.

Lemma merge_returns details :
  Forall (fun d => hashable_key (group_key d) = true) details ->
  exists merged, _merge_execution_details details = Ok merged.
Proof.
  intros H. unfold _merge_execution_details. destruct details as [| d r].
  - eexists. reflexivity.
  - destruct (group_details_ok (d :: r) [] H) as [gs ->]. eexists. reflexivity.
Qed.

Lemma merge_ids details merged :
  Forall (fun d => is_int (detail_id d) = true) details ->
  _merge_execution_details details = Ok merged ->
  Permutation (flat_map ids_of merged) (map detail_id details).
Proof.
  intros Hint H. destruct (merge_groups _ _ H) as [gs [Hg Hp]].
  rewrite (Permutation_flat_map ids_of Hp).
  rewrite (flat_map_merged gs (groups_of_ids details gs Hint Hg)).
  unfold _merge_execution_details in H. destruct details as [| d r].
  - inversion H; subst. apply Permutation_nil in Hp.
    destruct gs; [reflexivity | discriminate].
  - destruct (group_details (d :: r) []) as [gs' | e] eqn:E; [| discriminate].
    inversion H; subst. clear H.
    assert (Permutation (map merged_detail gs') (map merged_detail gs)) as Hp'.
    { rewrite <- Hp. symmetry. apply sort_by_rank_perm. }
    rewrite <- (flat_map_merged gs (groups_of_ids _ gs Hint Hg)).
    rewrite <- (Permutation_flat_map ids_of Hp').
    rewrite (flat_map_merged gs'
               (groups_of_ids _ gs' Hint (groups_of_run (d :: r) [] [] gs' groups_of_nil E))).
    exact (group_details_ids _ _ _ E).
Qed.

(** X18.  When every key can be hashed, [_merge_execution_details] returns, and
    its list is in the order success, failed, error, skipped, anything
    else. *)
Theorem merged_details_are_ordered_by_status details :
  Forall (fun d => hashable_key (group_key d) = true) details ->
  exists merged,
    _merge_execution_details details = Ok merged /\
    StronglySorted (fun a b => status_rank a <= status_rank b) merged.
Proof.
  intros H. unfold _merge_execution_details. destruct details as [| d r].
  - eexists. split; [reflexivity | constructor].
  - destruct (group_details_ok (d :: r) [] H) as [gs ->]. eexists.
    split; [reflexivity | apply sort_by_rank_sorted].
Qed.

(** X19.  Merging loses and repeats no configuration: the ids listed by the
    entries of the merged list are, up to order, the ids of the details. *)
Theorem merging_keeps_every_configuration_id details :
  Forall (fun d => hashable_key (group_key d) = true) details ->
  Forall (fun d => is_int (detail_id d) = true) details ->
  exists merged,
    _merge_execution_details details = Ok merged /\
    Permutation (flat_map ids_of merged) (map detail_id details).
Proof.
  intros Hh Hint. destruct (merge_returns details Hh) as [merged H].
  exists merged. split; [exact H | exact (merge_ids details merged Hint H)].
Qed.

(** X20.  The details filed under one key become one entry: it has their status
    and lists their ids, all of them and no others, in the order of the
    details. *)
Theorem details_of_one_key_become_one_entry details d :
  Forall (fun d => hashable_key (group_key d) = true) details ->
  Forall (fun d => is_int (detail_id d) = true) details ->
  In d details ->
  exists merged m,
    _merge_execution_details details = Ok merged /\
    In m merged /\
    detail_get m "status" = detail_get d "status" /\
    ids_of m = map detail_id (filter (same_group d) details).
Proof.
  intros Hh Hint Hd. destruct (merge_returns details Hh) as [merged H].
  destruct (merge_groups _ _ H) as [gs [Hg Hp]].
  pose proof (groups_of_ids details gs Hint Hg) as Hids.
  destruct Hg as (_ & Hg & Hs).
  specialize (Hs d Hd). apply in_map_iff in Hs. destruct Hs as [[k [ids fd]] [Hk Hin]].
  cbn [fst] in Hk. subst k.
  exists merged, (merged_detail (group_key d, (ids, fd))). split; [exact H |].
  destruct (Hg _ _ _ Hin) as (_ & Hst & _ & Hi). split; [| split].
  - apply (Permutation_in _ (Permutation_sym Hp)). apply in_map. exact Hin.
  - rewrite merged_detail_status, Hst. apply group_key_status.
  - rewrite (Hids _ Hin). cbn [fst snd]. exact Hi.
Qed.
Section DispatcherFacts.

Context {D : Type}.
Variable cron_valid : string -> bool.
Variable cron_prev : string -> Z -> option Z.
Variable cron_next : string -> Z -> option Z.
Variable execute : Z -> D -> res ExecOutcome * D.

(** What one turn of the loop does. *)
Lemma tick_step_effect now st c :
  let st' := tick_step cron_valid cron_prev cron_next execute now st c in
  ts_executed st' + ts_failed st' + ts_skipped st' =
    S (ts_executed st + ts_failed st + ts_skipped st) /\
  ts_db st' = (if due cron_valid cron_prev cron_next now c then snd (execute (cc_id c) (ts_db st)) else ts_db st) /\
  exists d,
    ts_details st' = ts_details st ++ [d] /\
    detail_id d = VInt (cc_id c) /\
    ((forall o, fst (execute (cc_id c) (ts_db st)) = Ok o -> unhashable (xo_error o) = None) ->
     hashable_key (group_key d) = true).
Proof.
  cbv zeta. unfold tick_step, due, skip.
  destruct (cc_cron c) as [cron |].
  2: { cbn. split; [lia | split; [reflexivity |]]. eexists. split; [reflexivity |].
       split; reflexivity. }
  destruct (String.eqb cron "").
  { cbn. split; [lia | split; [reflexivity |]]. eexists. split; [reflexivity |].
    split; reflexivity. }
  destruct (expired c now).
  { cbn. split; [lia | split; [reflexivity |]]. eexists. split; [reflexivity |].
    split; reflexivity. }
  destruct (cron_valid cron).
  2: { cbn. split; [lia | split; [reflexivity |]]. eexists. split; [reflexivity |].
       split; reflexivity. }
  destruct (_should_execute_now cron_prev cron_next cron (cc_last_sync c) now).
  2: { cbn. split; [lia | split; [reflexivity |]]. eexists. split; [reflexivity |].
       split; reflexivity. }
  cbn [negb andb].
  destruct (execute (cc_id c) (ts_db st)) as [[o | e] db'] eqn:E.
  - destruct (xo_success o).
    + cbn. split; [lia | split; [reflexivity |]]. eexists. split; [reflexivity |].
      split; reflexivity.
    + cbn [ts_executed ts_failed ts_skipped ts_db ts_details snd].
      split; [lia | split; [reflexivity |]]. eexists. split; [reflexivity |].
      split; [reflexivity |]. intros H. specialize (H o eq_refl).
      unfold hashable_key. cbn. rewrite H. reflexivity.
  - cbn. split; [lia | split; [reflexivity |]]. eexists. split; [reflexivity |].
    split; reflexivity.
Qed.

Lemma tick_fold now configs : forall st,
  let st' := fold_left (tick_step cron_valid cron_prev cron_next execute now) configs st in
  ts_executed st' + ts_failed st' + ts_skipped st' =
    ts_executed st + ts_failed st + ts_skipped st + length configs /\
  ts_db st' = fold_left (fun db c => snd (execute (cc_id c) db)) (filter (due cron_valid cron_prev cron_next now) configs)
                (ts_db st) /\
  exists ds,
    ts_details st' = ts_details st ++ ds /\
    map detail_id ds = map (fun c => VInt (cc_id c)) configs /\
    ((forall id db o, fst (execute id db) = Ok o -> unhashable (xo_error o) = None) ->
     Forall (fun d => hashable_key (group_key d) = true) ds).
Proof.
  induction configs as [| c r IH]; intros st; cbv zeta.
  - cbn. split; [lia | split; [reflexivity |]]. exists []. rewrite app_nil_r.
    split; [reflexivity | split; [reflexivity | constructor]].
  - cbn [fold_left]. specialize (IH (tick_step cron_valid cron_prev cron_next execute now st c)). cbv zeta in IH.
    destruct IH as (Hc & Hdb & ds & Hds & Hid & Hh).
    destruct (tick_step_effect now st c) as (Hc1 & Hdb1 & d & Hd & Hid1 & Hh1).
    split; [| split].
    + rewrite Hc. cbn [length]. lia.
    + rewrite Hdb, Hdb1. cbn [filter]. destruct (due cron_valid cron_prev cron_next now c); reflexivity.
    + exists (d :: ds). split; [| split].
      * rewrite Hds, Hd, <- app_assoc. reflexivity.
      * cbn [map]. rewrite Hid1, Hid. reflexivity.
      * intros H. constructor; [apply Hh1; intros o; apply H | apply Hh; exact H].
Qed.

End DispatcherFacts.

(** X21.  A tick whose jobs report errors that are strings or [None] returns its
    report.  The report counts every enabled configuration once, as
    executed, failed or skipped, and its details list the id of every
    configuration once. *)
Theorem tick_reports_every_configuration_once {D : Type} cron_valid cron_prev cron_next
    (execute : Z -> D -> res ExecOutcome * D) configs now db :
  (forall id db0 o, fst (execute id db0) = Ok o -> unhashable (xo_error o) = None) ->
  exists r,
    fst (_check_and_execute_filesync_cron_tasks cron_valid cron_prev cron_next execute
           (Ok configs) now db) = Ok r /\
    checked_configs r = length configs /\
    executed_tasks r + failed_tasks r + skipped_tasks r = length configs /\
    tick_error r = None /\
    Permutation (flat_map ids_of (execution_details r)) (map (fun c => VInt (cc_id c)) configs).
Proof.
  intros H. unfold _check_and_execute_filesync_cron_tasks, tick_loop. cbv zeta.
  destruct (tick_fold cron_valid cron_prev cron_next execute now configs
              (mkTickState 0 0 0 [] db)) as (Hc & _ & ds & Hds & Hid & Hh).
  cbv zeta in Hc, Hds. cbn [ts_executed ts_failed ts_skipped ts_details app] in Hc, Hds.
  rewrite Hds. specialize (Hh H).
  destruct (merge_returns ds Hh) as [merged Hm]. rewrite Hm. cbn [fst].
  eexists. split; [reflexivity |].
  cbn [checked_configs executed_tasks failed_tasks skipped_tasks tick_error execution_details].
  split; [reflexivity | split; [lia | split; [reflexivity |]]].
  rewrite <- Hid. apply merge_ids; [| exact Hm].
  apply Forall_forall. intros d Hd.
  assert (In (detail_id d) (map detail_id ds)) as Hin by (apply in_map; exact Hd).
  rewrite Hid in Hin. apply in_map_iff in Hin. destruct Hin as [c [<- _]]. reflexivity.
Qed.

(** X22.  A tick runs the job for the configurations that have a cron expression,
    are not expired, have a valid expression and are in their window, one
    after the other in the order of the list, and touches the database for
    no other configuration. *)
Theorem tick_runs_the_due_configurations_in_order {D : Type} cron_valid cron_prev cron_next
    (execute : Z -> D -> res ExecOutcome * D) configs now db :
  snd (_check_and_execute_filesync_cron_tasks cron_valid cron_prev cron_next execute
         (Ok configs) now db) =
  fold_left (fun db0 c => snd (execute (cc_id c) db0))
    (filter (due cron_valid cron_prev cron_next now) configs) db.
Proof.
  unfold _check_and_execute_filesync_cron_tasks, tick_loop. cbv zeta.
  destruct (tick_fold cron_valid cron_prev cron_next execute now configs
              (mkTickState 0 0 0 [] db)) as (_ & Hdb & _).
  cbv zeta in Hdb. cbn [ts_db] in Hdb.
  destruct (_merge_execution_details _); cbn [snd]; exact Hdb.
Qed.

(** ** The properties on the in-memory provider *)

(** One level of [Mirrors] on a concrete provider: the three calls are
    evaluated, then the entries of the source listing are checked one by
    one. *)
Ltac mirror_entries :=
  lazymatch goal with
  | |- Forall _ ?l => let l' := eval vm_compute in l in change l with l'
  end;
  repeat (apply Forall_cons; [cbv beta; cbn -[Mirrors] |]);
  [ .. | apply Forall_nil ].

Ltac mirror_level :=
  eapply Mirrors_intro; [reflexivity | reflexivity | reflexivity |]; mirror_entries.

(** C2: the hypotheses hold on [mirrored_world], where the run skips the two
    files. *)
Lemma incremental_run_on_mirror_transfers_nothing_witness :
  sync_method (demo_job "incremental" 100) = "incremental" /\
  Mirrors mem_drive 100 (demo_job "incremental" 100) mirrored_world "/root" "/dst" (VStr "d0") /\
  sr_success (fst (perform_sync mem_drive (demo_job "incremental" 100) demo_target
                     mirrored_world)) = true /\
  files_transferred (sr_stats (fst (perform_sync mem_drive (demo_job "incremental" 100)
                                      demo_target mirrored_world))) = 0 /\
  files_skipped (sr_stats (fst (perform_sync mem_drive (demo_job "incremental" 100)
                                  demo_target mirrored_world)))
    = files_processed (sr_stats (fst (perform_sync mem_drive (demo_job "incremental" 100)
                                        demo_target mirrored_world))) /\
  folder_created (sr_stats (fst (perform_sync mem_drive (demo_job "incremental" 100)
                                   demo_target mirrored_world))) = 0 /\
  files_deleted (sr_stats (fst (perform_sync mem_drive (demo_job "incremental" 100)
                                  demo_target mirrored_world))) = 0 /\
  world (snd (perform_sync mem_drive (demo_job "incremental" 100) demo_target mirrored_world))
    = mirrored_world /\
  forallb (fun e => negb (is_mutation e))
    (trace (snd (perform_sync mem_drive (demo_job "incremental" 100) demo_target
                   mirrored_world))) = true.
Proof.
  assert (HM : Mirrors mem_drive 100 (demo_job "incremental" 100) mirrored_world
                 "/root" "/dst" (VStr "d0")).
  { mirror_level.
    - reflexivity.
    - split; [reflexivity |]. mirror_level. reflexivity. }
  split; [reflexivity |]. split; [exact HM |].
  exact (incremental_run_on_mirror_transfers_nothing mem_drive (demo_job "incremental" 100)
           demo_target mirrored_world eq_refl HM).
Defined.

(** C2: a second incremental run that transfers again.  The source holds
    [a.txt] of 12 bytes, the target [a.txt] of 10 bytes, and the provider
    keeps both files when a name is taken: the first run succeeds and leaves
    the 10-byte [a.txt] in place, so the second run finds the same difference,
    transfers the file once more and skips nothing. *)
Lemma second_incremental_run_transfers_again :
  let first_run := perform_sync mem_drive (demo_job "incremental" 100) demo_target
                     mismatch_world in
  let second_run := perform_sync mem_drive (demo_job "incremental" 100) demo_target
                      (world (snd first_run)) in
  sr_success (fst first_run) = true /\
  files_transferred (sr_stats (fst first_run)) = 1 /\
  files_transferred (sr_stats (fst second_run)) = 1 /\
  files_skipped (sr_stats (fst second_run)) = 0 /\
  provider_ops (trace (snd second_run)) = [OpTransfer "/dst" [VStr "s1"]].
Proof.
  vm_compute. repeat split.
Qed.

(** The files of a subfolder that exists on the target: [sync_with_have]
    descends with the subfolder's id for the listing but with the target
    definition of the root, so the transfer names the path [/dst/b/] and the
    id of [/dst].  A provider that stores by id puts [c.txt] into the root;
    the folder [b] stays empty and the next run transfers the file again. *)
Lemma existing_subfolder_is_filled_through_the_root_id :
  let first_run := perform_sync mem_drive (demo_job "incremental" 100) demo_target
                     nested_world in
  let second_run := perform_sync mem_drive (demo_job "incremental" 100) demo_target
                      (world (snd first_run)) in
  map (fun e => match e with
                | ETransferFiles p => (tp_target_path p, tp_target_id p)
                | _ => ("", None)
                end) (filter is_transfer (trace (snd first_run)))
  = [("/dst/b/", Some "d0")] /\
  dict_get (md_folders (world (snd first_run))) "t2" = Some [] /\
  files_transferred (sr_stats (fst second_run)) = 1 /\
  files_skipped (sr_stats (fst second_run)) = 0.
Proof.
  vm_compute. repeat split.
Qed.

(** C3: scenario 4 of the specification, a source [a.txt] of 12 bytes
    against a target [a.txt] of 10 bytes: the file is collected and the run
    is the batched transfer of that one file, with no file skipped. *)
Lemma sync_with_have_collects_absent_or_resized_files_witness :
  0 < max_depth (demo_job "incremental" 100) /\
  get_share_list mem_drive (x_token (demo_job "incremental" 100))
    (mkListShareFilesParam (drive_type (demo_job "incremental" 100))
       (ssd_source_type (source_definition (demo_job "incremental" 100)))
       (ssd_source_id (source_definition (demo_job "incremental" 100))) "/root")
    (world (mkSt mismatch_world empty_stats []))
  = (Ok [shared_file "s1" "a.txt" "/root/a.txt" 12], mismatch_world) /\
  as_str "ListFilesParam" "file_id" (or_empty (VStr "d0")) = Ok "d0" /\
  get_disk_list mem_drive (x_token (demo_job "incremental" 100))
    (mkListFilesParam (drive_type (demo_job "incremental" 100)) "/dst" "d0") mismatch_world
  = (Ok [disk_file "t1" "a.txt" 10], mismatch_world) /\
  (let j := demo_job "incremental" 100 in
   let s := mkSt mismatch_world empty_stats [] in
   let source_file_map :=
     build_file_map (item_filter j) true [shared_file "s1" "a.txt" "/root/a.txt" 12] in
   let target_file_map := build_file_map (item_filter j) false [disk_file "t1" "a.txt" 10] in
   let files_to_transfer :=
     map (fun kv => make_transfer_file_info (fst kv)
                      (dict_get_default (snd kv) "file_size" (VInt 0)) "/root" "/dst" (snd kv))
       (spec_files_to_transfer source_file_map target_file_map) in
   let listed :=
     trace s ++
     [EGetShareList (mkListShareFilesParam (drive_type j)
                       (ssd_source_type (source_definition j))
                       (ssd_source_id (source_definition j)) "/root");
      EGetDiskList (mkListFilesParam (drive_type j) "/dst" "d0")] in
   sync_with_have mem_drive j demo_target "/root" "/dst" (VStr "d0") 0 s
   = bind (foldM (with_have_visit mem_drive j demo_target "/root" "/dst" 0 target_file_map)
             source_file_map tt)
       (fun _ => with_have_tail mem_drive j demo_target "/dst" source_file_map
                   target_file_map files_to_transfer)
       (mkSt mismatch_world (stats s) listed) /\
   (forallb is_file_entry source_file_map = true ->
    sync_with_have mem_drive j demo_target "/root" "/dst" (VStr "d0") 0 s
    = with_have_tail mem_drive j demo_target "/dst" source_file_map target_file_map
        files_to_transfer
        (mkSt mismatch_world
           (mkStats (files_processed (stats s) + length source_file_map)
              (folder_created (stats s)) (files_transferred (stats s))
              (files_deleted (stats s))
              (files_skipped (stats s)
               + length (spec_files_skipped source_file_map target_file_map))
              (errors (stats s)))
           listed)) /\
   (forall (other_map : dict (dict pyval)) (kv kv' : string * dict pyval),
      option_map (fun info => dict_get_default info "file_size" (VInt (-1)))
        (dict_get other_map (fst kv'))
      = option_map (fun info => dict_get_default info "file_size" (VInt (-1)))
          (dict_get target_file_map (fst kv)) ->
      dict_get_default (snd kv') "file_size" (VInt 0)
      = dict_get_default (snd kv) "file_size" (VInt 0) ->
      spec_collects other_map kv' = spec_collects target_file_map kv)) /\
  map fst (spec_files_to_transfer
             (build_file_map None true [shared_file "s1" "a.txt" "/root/a.txt" 12])
             (build_file_map None false [disk_file "t1" "a.txt" 10])) = ["a.txt"] /\
  sr_stats (fst (perform_sync mem_drive (demo_job "incremental" 100) demo_target
                   mismatch_world))
  = mkStats 1 0 1 0 0 [].
Proof.
  assert (H1 : 0 < max_depth (demo_job "incremental" 100)) by (cbn; lia).
  split; [exact H1 |]. split; [reflexivity |]. split; [reflexivity |].
  split; [reflexivity |]. split; [| split; reflexivity].
  exact (sync_with_have_collects_absent_or_resized_files mem_drive
           (demo_job "incremental" 100) demo_target "/root" "/dst" (VStr "d0") 0
           (mkSt mismatch_world empty_stats [])
           [shared_file "s1" "a.txt" "/root/a.txt" 12] mismatch_world "d0"
           [disk_file "t1" "a.txt" 10] mismatch_world H1 eq_refl eq_refl eq_refl).
Defined.

(** C5: the configuration of the scenarios yields valid definitions. *)
Lemma task_status_follows_errors_witness :
  build_definitions (demo_config (Some "incremental")) = Ok (demo_source, demo_target) /\
  (let j := mkJob "cookie" QUARK demo_source
              (_parse_sync_method (cfg_method (demo_config (Some "incremental"))))
              (_parse_recursion_speed (cfg_speed (demo_config (Some "incremental"))))
              None 100 (Some 7%Z) true in
   let errs := errors (stats (snd (perform_sync mem_drive j demo_target fresh_world))) in
   let r := fst (fst (execute_sync_by_config_id mem_drive (demo_config (Some "incremental"))
                        "cookie" QUARK None None 7 fresh_world)) in
   exists u,
     er_task_update r = Some u /\
     utp_task_num u = stats (snd (perform_sync mem_drive j demo_target fresh_world)) /\
     (utp_status u = "completed" <-> errs = []) /\
     (errs = [] -> utp_err_msg u = None /\ er_success r = true) /\
     (errs <> [] ->
      utp_status u = "failed" /\ utp_err_msg u = hd_error errs /\ er_success r = false)).
Proof.
  split; [reflexivity |].
  exact (task_status_follows_errors mem_drive (demo_config (Some "incremental")) "cookie" QUARK
           None None 7%Z fresh_world demo_source demo_target eq_refl).
Defined.

(** C6: a schedule of every five minutes, a tick at minute 16, a last run at
    minute 10. *)
Lemma should_execute_now_iff_due_since_the_firing_before_now_witness :
  (forall t prev,
     every_five_prev "*/5 * * * *" t = Some prev <-> latest_before every_five_fires t prev) /\
  (forall prev, every_five_next "*/5 * * * *" prev <> None) /\
  (_should_execute_now every_five_prev every_five_next "*/5 * * * *" (Some 600000000%Z)
     960000000 = true <->
   exists prev_fire,
     latest_before every_five_fires 960000000 prev_fire /\
     (0 < 960000000 - prev_fire <= execution_window_minutes * microseconds_per_minute)%Z /\
     (Some 600000000%Z = None \/
      exists t, Some 600000000%Z = Some t /\ (t < prev_fire)%Z)).
Proof.
  assert (H2 : forall prev, every_five_next "*/5 * * * *" prev <> None)
    by (intros prev; discriminate).
  split; [exact (every_five_prev_latest_before "*/5 * * * *") |]. split; [exact H2 |].
  exact (should_execute_now_iff_due_since_the_firing_before_now every_five_fires
           every_five_prev every_five_next "*/5 * * * *" (Some 600000000%Z) 960000000
           (every_five_prev_latest_before "*/5 * * * *") H2).
Defined.

(** C6 (the counterexample): a tick exactly on a firing.  With the schedule
    of every five minutes, a tick at 00:15:00 and a last run at 00:12:00,
    the latest firing at or before the tick is 00:15:00 itself, the lag is
    0 and the last run is earlier: eligible, in the specification's words.
    The code takes the firing before the tick, 00:10:00, which the last run
    follows, and does not dispatch. *)
Lemma tick_on_a_firing_is_not_dispatched :
  every_five_fires 900000000 /\
  spec_prev_fire every_five_fires 900000000 900000000 /\
  spec_eligible every_five_fires (Some 720000000%Z) 900000000 /\
  every_five_prev "*/5 * * * *" 900000000 = Some 600000000%Z /\
  _should_execute_now every_five_prev every_five_next "*/5 * * * *" (Some 720000000%Z)
    900000000 = false.
Proof.
  assert (F : every_five_fires 900000000) by reflexivity.
  assert (P : spec_prev_fire every_five_fires 900000000 900000000).
  { split; [exact F |]. split; [lia |]. intros t _ H. exact H. }
  split; [exact F |]. split; [exact P |]. split; [| split; reflexivity].
  exists 900000000%Z. split; [exact P |]. split.
  - unfold execution_window_minutes, microseconds_per_minute. lia.
  - right. exists 720000000%Z. split; [reflexivity | lia].
Qed.

(** C7: a rule that renames [a.txt] to [b.txt], a target that holds [b.txt]
    of the same size.  Compared under its planned name the source file would
    equal the target entry; the job compares it as [a.txt], finds it absent
    and transfers it. *)
Lemma renamed_name_is_not_compared :
  let rules := match parse_rename_rules (Some [demo_rename_rule]) with
               | Some l => l
               | None => []
               end in
  let item := shared_file "s1" "a.txt" "/root/a.txt" 10 in
  let target_map := build_file_map None false [disk_file "t1" "b.txt" 10] in
  let r := execute_sync_by_config_id mem_drive (demo_config (Some "incremental")) "cookie"
             QUARK None (Some [demo_rename_rule]) 7 rename_world in
  spec_renamed_name literal_sub rules item = "b.txt" /\
  dict_get target_map "b.txt" = Some [("file_size", VInt 10); ("file_id", VStr "t1")] /\
  bfi_file_size item = Some 10%Z /\
  er_stats (fst (fst r)) = Some (mkStats 1 0 1 0 0 []) /\
  provider_ops (snd r) = [OpTransfer "/dst" [VStr "s1"]].
Proof.
  vm_compute. repeat split.
Qed.

(** C8: the level [/dst] of scenario 1 under the full strategy. *)
Lemma level_order_witness :
  0 < max_depth (demo_job "full" 100) /\
  match with_have_until_tail mem_drive 99 (demo_job "full" 100) demo_target "/root" "/dst"
          (VStr "d0") 0 (mkSt fresh_world empty_stats []) with
  | (Ok (Some (smap, tmap, files)), s1) =>
      exists t_transfer t_delete,
        trace (snd (sync_with_have mem_drive (demo_job "full" 100) demo_target "/root" "/dst"
                      (VStr "d0") 0 (mkSt fresh_world empty_stats [])))
        = trace s1 ++ t_transfer ++ t_delete /\
        transfer_phase t_transfer /\ delete_phase (sync_method (demo_job "full" 100)) t_delete
  | (_, s1) =>
      snd (sync_with_have mem_drive (demo_job "full" 100) demo_target "/root" "/dst"
             (VStr "d0") 0 (mkSt fresh_world empty_stats [])) = s1
  end /\
  starts_with
    (ECreateMkdir (mkMkdirParam (drive_type (demo_job "full" 100)) (dtd_file_path demo_target)
                     (Some (dtd_file_id demo_target))
                     (Some (last_component (rstrip_slash "/dst"))) true))
    (sync_without_have mem_drive (demo_job "full" 100) demo_target "/root" "/dst" 0) /\
  match without_have_until_tail mem_drive 99 (demo_job "full" 100) demo_target "/root" "/dst"
          0 (mkSt fresh_world empty_stats []) with
  | (Ok (Some (td', files)), s1) =>
      exists t_transfer,
        trace (snd (sync_without_have mem_drive (demo_job "full" 100) demo_target "/root"
                      "/dst" 0 (mkSt fresh_world empty_stats [])))
        = trace s1 ++ t_transfer /\ transfer_phase t_transfer
  | (_, s1) =>
      snd (sync_without_have mem_drive (demo_job "full" 100) demo_target "/root" "/dst" 0
             (mkSt fresh_world empty_stats [])) = s1
  end.
Proof.
  assert (H : 0 < max_depth (demo_job "full" 100)) by (cbn; lia).
  split; [exact H |].
  exact (level_order mem_drive (demo_job "full" 100) demo_target "/root" "/dst" (VStr "d0") 0
           (mkSt fresh_world empty_stats []) H).
Defined.

(** C8: the calls of scenario 1.  The level [/dst] has the file [a.txt] and
    the subdirectory [b]: the recursion into [b] (its [mkdir], the transfer
    of [c.txt]) comes before the batched transfer of the level's own file. *)
Lemma recursion_precedes_the_batched_transfer :
  provider_ops (trace (snd (perform_sync mem_drive (demo_job "incremental" 100) demo_target
                              fresh_world)))
  = [OpMkdir "/dst" "b"; OpTransfer "/dst/b/" [VStr "s3"]; OpTransfer "/dst" [VStr "s1"]].
Proof.
  vm_compute. reflexivity.
Qed.

(** C9: a call at depth 1 under a limit of 1. *)
Lemma depth_limit_stops_silently_witness :
  max_depth (demo_job "incremental" 1) <= 1 /\
  sync_with_have mem_drive (demo_job "incremental" 1) demo_target "/root/b/" "/dst/b/"
    (VStr "") 1 (mkSt fresh_world empty_stats [])
  = (Ok tt, warned (demo_job "incremental" 1) (mkSt fresh_world empty_stats [])) /\
  sync_without_have mem_drive (demo_job "incremental" 1) demo_target "/root/b/" "/dst/b/" 1
    (mkSt fresh_world empty_stats [])
  = (Ok tt, warned (demo_job "incremental" 1) (mkSt fresh_world empty_stats [])).
Proof.
  assert (H : max_depth (demo_job "incremental" 1) <= 1) by (cbn; lia).
  split; [exact H |].
  exact (depth_limit_stops_silently mem_drive (demo_job "incremental" 1) demo_target "/root/b/"
           "/dst/b/" (VStr "") 1 (mkSt fresh_world empty_stats []) H).
Defined.

(** C9: scenario 1 under a limit of 1.  The directory [/root/b] is reached at
    depth 1, the limit: it is not created on the target and its file is not
    counted; the warning is logged and the job succeeds with the one file of
    the root. *)
Lemma directory_at_max_depth_is_not_processed :
  let r := perform_sync mem_drive (demo_job "incremental" 1) demo_target fresh_world in
  sr_success (fst r) = true /\
  sr_stats (fst r) = mkStats 1 0 1 0 0 [] /\
  provider_ops (trace (snd r)) = [OpTransfer "/dst" [VStr "s1"]] /\
  filter (fun e => match e with EDepthWarning _ => true | _ => false end) (trace (snd r))
  = [EDepthWarning 1].
Proof.
  vm_compute. repeat split.
Qed.

(** C10: the method [mirror]. *)
Lemma unknown_method_is_incremental_and_never_deletes_witness :
  method_lower_of (Some "Mirror") <> "incremental" /\
  method_lower_of (Some "Mirror") <> "full" /\
  method_lower_of (Some "Mirror") <> "overwrite" /\
  _parse_sync_method (Some "Mirror") = "incremental" /\
  forall (config : SyncConfig) cookies account_type exclude_filter rename_rules task
         (w : MemDrive),
    cfg_method config = Some "Mirror" ->
    forallb (fun e => negb (is_remove e))
      (snd (execute_sync_by_config_id mem_drive config cookies account_type exclude_filter
              rename_rules task w)) = true.
Proof.
  assert (H1 : method_lower_of (Some "Mirror") <> "incremental") by (cbn; discriminate).
  assert (H2 : method_lower_of (Some "Mirror") <> "full") by (cbn; discriminate).
  assert (H3 : method_lower_of (Some "Mirror") <> "overwrite") by (cbn; discriminate).
  split; [exact H1 |]. split; [exact H2 |]. split; [exact H3 |].
  destruct (unknown_method_is_incremental_and_never_deletes mem_drive (Some "Mirror") H1 H2 H3)
    as [Hp Hr].
  split; [exact Hp |]. intros config cookies account_type exclude_filter rename_rules task w.
  apply Hr.
Defined.


(** ** The further properties on sample data *)

(** A folder of the source that is missing from the target, on a provider
    that cannot be reached. *)
Lemma failed_mkdir_skips_the_directory_witness :
  0 < max_depth (demo_job "incremental" 100) /\
  create_mkdir offline_drive (x_token (demo_job "incremental" 100))
    (mkMkdirParam (drive_type (demo_job "incremental" 100)) (dtd_file_path demo_target)
       (Some (dtd_file_id demo_target)) (Some (last_component (rstrip_slash "/dst/b/"))) true)
    tt = (Raise offline_error, tt) /\
  (@Raise (option BaseFileInfo) offline_error = Ok None \/
   exists e, @Raise (option BaseFileInfo) offline_error = Raise e) /\
  sync_without_have offline_drive (demo_job "incremental" 100) demo_target "/root/b/" "/dst/b/" 0
    (mkSt tt empty_stats [])
  = (Ok tt,
     with_error ("创建目录失败: " ^^ "/dst/b/")
       (mkSt tt empty_stats
          [ECreateMkdir
             (mkMkdirParam (drive_type (demo_job "incremental" 100)) (dtd_file_path demo_target)
                (Some (dtd_file_id demo_target))
                (Some (last_component (rstrip_slash "/dst/b/"))) true)])).
Proof.
  assert (H1 : 0 < max_depth (demo_job "incremental" 100)) by (cbn; lia).
  split; [exact H1 |]. split; [reflexivity |].
  split; [right; exists offline_error; reflexivity |].
  exact (failed_mkdir_skips_the_directory offline_drive (demo_job "incremental" 100) demo_target
           "/root/b/" "/dst/b/" 0 (mkSt tt empty_stats []) (Raise offline_error) tt H1 eq_refl
           (or_intror (ex_intro _ offline_error eq_refl))).
Defined.

(** The listing of the source root, on a provider that cannot be reached. *)
Lemma failed_root_listing_fails_the_job_witness :
  String.eqb (sync_method (demo_job "incremental" 100)) "overwrite" = false /\
  0 < max_depth (demo_job "incremental" 100) /\
  get_share_list offline_drive (x_token (demo_job "incremental" 100))
    (mkListShareFilesParam (drive_type (demo_job "incremental" 100))
       (ssd_source_type (source_definition (demo_job "incremental" 100)))
       (ssd_source_id (source_definition (demo_job "incremental" 100)))
       (ssd_file_path (source_definition (demo_job "incremental" 100)))) tt
  = (Raise offline_error, tt) /\
  (let msg := "扫描目录失败: " ^^ "/root" ^^ " -> " ^^ "/dst" ^^ ", 错误: " ^^ offline_error in
   perform_sync offline_drive (demo_job "incremental" 100) demo_target tt
   = (mkSyncResult false (mkStats 0 0 0 0 0 [msg]) (Some msg),
      mkSt tt (mkStats 0 0 0 0 0 [msg])
        [EGetShareList
           (mkListShareFilesParam QUARK "link" "https://pan.example/s/abc" "/root")])).
Proof.
  assert (H1 : 0 < max_depth (demo_job "incremental" 100)) by (cbn; lia).
  split; [reflexivity |]. split; [exact H1 |]. split; [reflexivity |].
  exact (failed_root_listing_fails_the_job offline_drive (demo_job "incremental" 100)
           demo_target tt offline_error tt eq_refl H1 eq_refl).
Defined.

(** A batch of three files whose second has no [file_id]. *)
Lemma missing_file_id_rejects_the_batch_witness :
  Forall (fun f => truthy (dict_get_default f "file_id" (VStr "")) = true)
    [[("file_name", VStr "a.txt"); ("file_id", VStr "s1")]] /\
  truthy (dict_get_default [("file_name", VStr "b.txt")] "file_id" (VStr "")) = false /\
  (let r := transfer_files mem_drive (demo_job "incremental" 100) demo_target
              ([[("file_name", VStr "a.txt"); ("file_id", VStr "s1")]] ++
               [("file_name", VStr "b.txt")] ::
               [[("file_name", VStr "c.txt"); ("file_id", VStr "s3")]])
              (mkSt fresh_world empty_stats []) in
   fst r = Ok false /\
   world (snd r) = fresh_world /\
   stats (snd r) = stats (with_error ("文件 " ^^ "b.txt" ^^ " 缺少file_id")
                            (mkSt fresh_world empty_stats [])) /\
   exists t,
     trace (snd r) = [] ++ t /\ forallb (fun e => negb (is_call e)) t = true /\
     length t <= 1).
Proof.
  assert (H1 : Forall (fun f => truthy (dict_get_default f "file_id" (VStr "")) = true)
                 [[("file_name", VStr "a.txt"); ("file_id", VStr "s1")]])
    by (repeat constructor).
  split; [exact H1 |]. split; [reflexivity |].
  exact (missing_file_id_rejects_the_batch mem_drive (demo_job "incremental" 100) demo_target
           [[("file_name", VStr "a.txt"); ("file_id", VStr "s1")]]
           [("file_name", VStr "b.txt")]
           [[("file_name", VStr "c.txt"); ("file_id", VStr "s3")]]
           (mkSt fresh_world empty_stats []) H1 eq_refl).
Defined.

(** The rule ".txt" on extensions, meant for text files, against
    [notes.txt]. *)
Lemma extension_rule_with_a_dot_matches_nothing_witness :
  (forall s, contains "." (str_lower s) = contains "." s) /\
  xr_target txt_files_rule = EXTENSION /\
  xr_mode txt_files_rule <> REGEX /\
  contains "." (xr_pattern txt_files_rule) = true /\
  matches str_lower no_search txt_files_rule notes_file = false.
Proof.
  assert (H3 : xr_mode txt_files_rule <> REGEX) by (cbn; discriminate).
  split; [exact str_lower_has_dot |]. split; [reflexivity |]. split; [exact H3 |].
  split; [reflexivity |].
  exact (extension_rule_with_a_dot_matches_nothing str_lower no_search txt_files_rule notes_file
           str_lower_has_dot eq_refl H3 eq_refl).
Defined.

(** A filter of one rule for files, against a folder. *)
Lemma rules_of_one_kind_never_exclude_the_other_witness :
  (Forall (fun rule => xr_item_type rule = FILE) [txt_files_rule] /\
   bfi_is_folder docs_folder = true \/
   Forall (fun rule => xr_item_type rule = FOLDER) [txt_files_rule] /\
   bfi_is_folder docs_folder = false) /\
  should_exclude str_lower no_search [txt_files_rule] docs_folder = false.
Proof.
  assert (H : Forall (fun rule => xr_item_type rule = FILE) [txt_files_rule] /\
              bfi_is_folder docs_folder = true \/
              Forall (fun rule => xr_item_type rule = FOLDER) [txt_files_rule] /\
              bfi_is_folder docs_folder = false).
  { left. split; [repeat constructor | reflexivity]. }
  split; [exact H |].
  exact (rules_of_one_kind_never_exclude_the_other str_lower no_search [txt_files_rule]
           docs_folder H).
Defined.

(** The rule "TMP" and the rule "tmp", neither case-sensitive. *)
Lemma case_of_the_pattern_does_not_matter_witness :
  (forall s, str_lower (str_lower s) = str_lower s) /\
  xr_case_sensitive tmp_rule = false /\
  xr_mode tmp_rule <> REGEX /\
  matches str_lower no_search
    (mkExclusionRule (str_lower (xr_pattern tmp_rule)) (xr_target tmp_rule)
       (xr_item_type tmp_rule) (xr_mode tmp_rule) false) notes_file
  = matches str_lower no_search tmp_rule notes_file.
Proof.
  assert (H3 : xr_mode tmp_rule <> REGEX) by (cbn; discriminate).
  split; [exact str_lower_idem |]. split; [reflexivity |]. split; [exact H3 |].
  exact (case_of_the_pattern_does_not_matter str_lower no_search tmp_rule notes_file
           str_lower_idem eq_refl H3).
Defined.

(** A filter that holds a rule with the empty pattern. *)
Lemma empty_pattern_excludes_everything_witness :
  str_lower "" = "" /\
  In everything_rule [tmp_rule; everything_rule] /\
  xr_pattern everything_rule = "" /\
  xr_item_type everything_rule = ANY /\
  xr_target everything_rule <> EXTENSION /\
  (xr_mode everything_rule = CONTAINS \/ xr_mode everything_rule = STARTS_WITH \/
   xr_mode everything_rule = ENDS_WITH) /\
  (forall item, should_exclude str_lower no_search [tmp_rule; everything_rule] item = true) /\
  build_file_map (Some (should_exclude str_lower no_search [tmp_rule; everything_rule])) true
    [notes_file; docs_folder] = [].
Proof.
  assert (H2 : In everything_rule [tmp_rule; everything_rule]) by (right; left; reflexivity).
  assert (H5 : xr_target everything_rule <> EXTENSION) by (cbn; discriminate).
  split; [reflexivity |]. split; [exact H2 |]. split; [reflexivity |]. split; [reflexivity |].
  split; [exact H5 |]. split; [left; reflexivity |].
  exact (empty_pattern_excludes_everything str_lower no_search [tmp_rule; everything_rule]
           everything_rule true [notes_file; docs_folder] eq_refl H2 eq_refl eq_refl H5
           (or_introl eq_refl)).
Defined.

(** The rule "a" -> "b" on names, against [a.txt]. *)
Lemma rename_never_proposes_the_current_value_witness :
  generate_new_path literal_sub (mkRenameRule "a" "b" NAME true)
    (shared_file "s1" "a.txt" "/root/a.txt" 10) = Some "b.txt" /\
  exists original_value,
    (rr_target_scope (mkRenameRule "a" "b" NAME true) = NAME /\
     original_value = bfi_file_name (shared_file "s1" "a.txt" "/root/a.txt" 10) \/
     rr_target_scope (mkRenameRule "a" "b" NAME true) = PATH /\
     original_value = bfi_file_path (shared_file "s1" "a.txt" "/root/a.txt" 10)) /\
    original_value <> "" /\
    "b.txt" = literal_sub (rr_match_regex (mkRenameRule "a" "b" NAME true))
                (rr_case_sensitive (mkRenameRule "a" "b" NAME true))
                (rr_replace_string (mkRenameRule "a" "b" NAME true)) original_value /\
    "b.txt" <> original_value.
Proof.
  split; [reflexivity |].
  exact (rename_never_proposes_the_current_value literal_sub (mkRenameRule "a" "b" NAME true)
           (shared_file "s1" "a.txt" "/root/a.txt" 10) "b.txt" eq_refl).
Defined.

(** Three details, two of them skipped for the same reason. *)
Lemma merged_details_are_ordered_by_status_witness :
  Forall (fun d => hashable_key (group_key d) = true) sample_details /\
  exists merged,
    _merge_execution_details sample_details = Ok merged /\
    StronglySorted (fun a b => status_rank a <= status_rank b) merged.
Proof.
  assert (H : Forall (fun d => hashable_key (group_key d) = true) sample_details)
    by (repeat constructor).
  split; [exact H |].
  exact (merged_details_are_ordered_by_status sample_details H).
Defined.

Lemma merging_keeps_every_configuration_id_witness :
  Forall (fun d => hashable_key (group_key d) = true) sample_details /\
  Forall (fun d => is_int (detail_id d) = true) sample_details /\
  exists merged,
    _merge_execution_details sample_details = Ok merged /\
    Permutation (flat_map ids_of merged) (map detail_id sample_details).
Proof.
  assert (H1 : Forall (fun d => hashable_key (group_key d) = true) sample_details)
    by (repeat constructor).
  assert (H2 : Forall (fun d => is_int (detail_id d) = true) sample_details)
    by (repeat constructor).
  split; [exact H1 |]. split; [exact H2 |].
  exact (merging_keeps_every_configuration_id sample_details H1 H2).
Defined.

(** The two skipped details become the entry that lists 1 and 3. *)
Lemma details_of_one_key_become_one_entry_witness :
  Forall (fun d => hashable_key (group_key d) = true) sample_details /\
  Forall (fun d => is_int (detail_id d) = true) sample_details /\
  In [("config_id", VInt 1); ("status", VStr "skipped"); ("reason", VStr "未到执行时间")]
     sample_details /\
  exists merged m,
    _merge_execution_details sample_details = Ok merged /\
    In m merged /\
    detail_get m "status" = VStr "skipped" /\
    ids_of m = [VInt 1; VInt 3].
Proof.
  assert (H1 : Forall (fun d => hashable_key (group_key d) = true) sample_details)
    by (repeat constructor).
  assert (H2 : Forall (fun d => is_int (detail_id d) = true) sample_details)
    by (repeat constructor).
  assert (H3 : In [("config_id", VInt 1); ("status", VStr "skipped");
                   ("reason", VStr "未到执行时间")] sample_details)
    by (left; reflexivity).
  split; [exact H1 |]. split; [exact H2 |]. split; [exact H3 |].
  exact (details_of_one_key_become_one_entry sample_details _ H1 H2 H3).
Defined.

(** Six configurations at minute 16 of a schedule of every five minutes: two
    are due, and the job of the second fails. *)
Lemma tick_reports_every_configuration_once_witness :
  (forall id db0 o, fst (sample_execute id db0) = Ok o -> unhashable (xo_error o) = None) /\
  exists r,
    fst (_check_and_execute_filesync_cron_tasks (fun _ => true) every_five_prev every_five_next
           sample_execute (Ok sample_configs) 960000000 0) = Ok r /\
    checked_configs r = length sample_configs /\
    executed_tasks r + failed_tasks r + skipped_tasks r = length sample_configs /\
    tick_error r = None /\
    Permutation (flat_map ids_of (execution_details r))
      (map (fun c => VInt (cc_id c)) sample_configs).
Proof.
  assert (H : forall id db0 o,
             fst (sample_execute id db0) = Ok o -> unhashable (xo_error o) = None).
  { intros id db0 o. unfold sample_execute. destruct (Z.eqb id 3); cbn [fst]; intros E;
      inversion E; reflexivity. }
  split; [exact H |].
  exact (tick_reports_every_configuration_once (fun _ => true) every_five_prev every_five_next
           sample_execute sample_configs 960000000 0 H).
Defined.

(** A configuration whose source metadata is empty. *)
Lemma unknown_source_type_is_rejected_before_any_call_witness :
  (forall source_type,
     dict_get_default
       (cfg_src_meta (mkSyncConfig (Some "incremental") 2 "/root" [] "/dst"
                        [("file_id", VStr "d0")])) "source_type" (VStr "")
     = VStr source_type ->
     str_in source_type ["friend"; "group"; "link"] = false) /\
  exists e,
    execute_sync_by_config_id mem_drive
      (mkSyncConfig (Some "incremental") 2 "/root" [] "/dst" [("file_id", VStr "d0")])
      "cookie" QUARK None None 7 fresh_world
    = (mkExecResult false (Some ("执行同步任务时发生异常: " ^^ e)) None None, fresh_world, []).
Proof.
  assert (H : forall source_type,
             dict_get_default
               (cfg_src_meta (mkSyncConfig (Some "incremental") 2 "/root" [] "/dst"
                                [("file_id", VStr "d0")])) "source_type" (VStr "")
             = VStr source_type ->
             str_in source_type ["friend"; "group"; "link"] = false).
  { intros source_type E. cbn in E. inversion E. reflexivity. }
  split; [exact H |].
  exact (unknown_source_type_is_rejected_before_any_call mem_drive
           (mkSyncConfig (Some "incremental") 2 "/root" [] "/dst" [("file_id", VStr "d0")])
           "cookie" QUARK None None 7 fresh_world H).
Defined.
